(** * gost: the Redis driver of the vulnerability-record store

    A shallow embedding of [db/redis.go] (package [db]): the key schema, the
    write pipeline ([InsertRedhat], [InsertDebian], [InsertUbuntu],
    [InsertMicrosoft]), the point and multi readers and the filtered readers,
    over a functional model of the part of Redis the driver talks to. *)

From stdpp Require Import gmap strings list fin_maps sorting.
From Stdlib Require Import ZArith Lia.

Local Open Scope string_scope.
Local Open Scope list_scope.
Local Open Scope Z_scope.

(** ** Machine integers

    [viper.GetUint] yields a Go [uint]; on the 64-bit targets the tool is
    built for it is 64 bits wide.  [time.Duration] is an [int64] counting
    nanoseconds. *)

Module GoInt.

Definition uint_bits : Z := 64.
Definition uint_mod : Z := 2 ^ uint_bits.
Definition int64_mod : Z := 2 ^ 64.
Definition int64_half : Z := 2 ^ 63.

(** [a * b] on [uint]: the product wraps around. *)
Definition uint_mul (a b : Z) : Z := (a * b) mod uint_mod.

(** The conversion [int64(u)] of an unsigned value: the bits are kept. *)
Definition to_int64 (u : Z) : Z :=
  let w := u mod int64_mod in
  if w <? int64_half then w else w - int64_mod.

(** [time.Second], in nanoseconds. *)
Definition Second : Z := 1000000000.

(** [time.Duration(expire*uint(time.Second))]. *)
Definition expire_duration (expire : Z) : Z := to_int64 (uint_mul expire Second).

(** The largest retention, in seconds, whose duration still fits an [int64]. *)
Definition max_expire : Z := 9223372036.

End GoInt.

(** ** The key schema *)

Definition hashKeyPrefix : string := "CVE#".
Definition zindRedHatPrefix : string := "CVE#R#".
Definition zindDebianPrefix : string := "CVE#D#".
Definition zindUbuntuPrefix : string := "CVE#U#".
Definition zindMicrosoftKBIDPrefix : string := "CVE#K#".
Definition zindMicrosoftProductIDPrefix : string := "CVE#P#".

(** ** The store

    A key holds a hash (field to value) or a sorted set (member to score),
    together with the time-to-live last requested for it, in seconds.  The
    model does not let time pass, so a key with a positive time-to-live
    stays; an [Expire] with a timeout of zero seconds or less removes the
    key at once, as the server does. *)

Module Redis.

Inductive rvalue :=
  | RHash (h : gmap string string)
  | RZSet (z : gmap string Z).

Record entry := Entry { value : rvalue; ttl : option Z }.

Abbreviation store := (gmap string entry).

Inductive redis_error :=
  | Nil         (* redis.Nil: the reply of a command on a missing value *)
  | WrongType.  (* WRONGTYPE: the key holds another kind of value *)

#[global] Instance redis_error_eq_dec : EqDecision redis_error.
Proof. solve_decision. Defined.

(** The commands the driver issues.  [Expire] carries the [time.Duration]
    the driver passes to the client, in nanoseconds. *)
Inductive cmd :=
  | HSet (key field val : string)
  | Expire (key : string) (expiration : Z)
  | Persist (key : string)
  | ZAdd (key : string) (score : Z) (member : string)
  | HGetAll (key : string)
  | ZRange (key : string) (start stop : Z).

Inductive reply :=
  | RInt (n : Z)
  | RBool (b : bool)
  | RMap (m : gmap string string)
  | RList (l : list string)
  | RErr (e : redis_error).

(** The client rounds a duration to whole seconds before it sends EXPIRE: a
    positive duration below one second becomes one second, anything else is
    divided by [time.Second], truncating towards zero. *)
Definition formatSec (dur : Z) : Z :=
  if (0 <? dur) && (dur <? GoInt.Second) then 1 else dur ÷ GoInt.Second.

(** Rank order of a sorted set: by score, then by member. *)
Definition rank_le (a b : string * Z) : Prop :=
  a.2 < b.2 ∨ (a.2 = b.2 ∧ String.leb a.1 b.1 = true).

#[global] Instance rank_le_dec a b : Decision (rank_le a b).
Proof. unfold rank_le. apply _. Defined.

Definition ranked (z : gmap string Z) : list string :=
  (merge_sort rank_le (map_to_list z)).*1.

(** ZRANGE key start stop over the ranked members; negative indexes count
    from the end. *)
Definition zrange (l : list string) (start stop : Z) : list string :=
  let n := Z.of_nat (length l) in
  let st := if start <? 0 then Z.max 0 (n + start) else start in
  let sp := Z.min (if stop <? 0 then n + stop else stop) (n - 1) in
  if (sp <? st) || (n <=? st) then []
  else take (Z.to_nat (sp - st + 1)) (drop (Z.to_nat st) l).

Definition exec_cmd (s : store) (c : cmd) : store * reply :=
  match c with
  | HSet k f v =>
      match s !! k with
      | None => (<[k := Entry (RHash {[f := v]}) None]> s, RInt 1)
      | Some (Entry (RHash h) t) =>
          (<[k := Entry (RHash (<[f := v]> h)) t]> s,
           RInt (if h !! f is Some _ then 0 else 1))
      | Some (Entry (RZSet _) _) => (s, RErr WrongType)
      end
  | Expire k d =>
      match s !! k with
      | None => (s, RBool false)
      | Some (Entry v _) =>
          (* a timeout of zero seconds or less deletes the key *)
          if formatSec d <=? 0 then (delete k s, RBool true)
          else (<[k := Entry v (Some (formatSec d))]> s, RBool true)
      end
  | Persist k =>
      match s !! k with
      | Some (Entry v (Some _)) => (<[k := Entry v None]> s, RBool true)
      | _ => (s, RBool false)
      end
  | ZAdd k sc m =>
      match s !! k with
      | None => (<[k := Entry (RZSet {[m := sc]}) None]> s, RInt 1)
      | Some (Entry (RZSet z) t) =>
          (<[k := Entry (RZSet (<[m := sc]> z)) t]> s,
           RInt (if z !! m is Some _ then 0 else 1))
      | Some (Entry (RHash _) _) => (s, RErr WrongType)
      end
  | HGetAll k =>
      match s !! k with
      | None => (s, RMap ∅)
      | Some (Entry (RHash h) _) => (s, RMap h)
      | Some (Entry (RZSet _) _) => (s, RErr WrongType)
      end
  | ZRange k a b =>
      match s !! k with
      | None => (s, RList [])
      | Some (Entry (RZSet z) _) => (s, RList (zrange (ranked z) a b))
      | Some (Entry (RHash _) _) => (s, RErr WrongType)
      end
  end.

(** A pipeline: the queued commands are run one after the other, each on
    its own; a failing command does not stop the ones behind it. *)
Fixpoint exec_batch (s : store) (cs : list cmd) : store * list reply :=
  match cs with
  | [] => (s, [])
  | c :: cs =>
      let '(s1, r) := exec_cmd s c in
      let '(s2, rs) := exec_batch s1 cs in
      (s2, r :: rs)
  end.

(** [result.Err()], [result.Val()] of a command object. *)
Definition reply_err (r : reply) : option redis_error :=
  match r with RErr e => Some e | _ => None end.

Definition map_val (r : reply) : gmap string string :=
  match r with RMap m => m | _ => ∅ end.

Definition list_val (r : reply) : list string :=
  match r with RList l => l | _ => [] end.

(** What [pipe.Exec] returns as its error: the first failed command's. *)
Fixpoint first_err (rs : list reply) : option redis_error :=
  match rs with
  | [] => None
  | r :: rs => match reply_err r with Some e => Some e | None => first_err rs end
  end.

(** Views of the store. *)
Definition hfield (s : store) (key field : string) : option string :=
  match s !! key with
  | Some (Entry (RHash h) _) => h !! field
  | _ => None
  end.

Definition zscore (s : store) (key member : string) : option Z :=
  match s !! key with
  | Some (Entry (RZSet z) _) => z !! member
  | _ => None
  end.

Definition key_ttl (s : store) (key : string) : option (option Z) :=
  ttl <$> s !! key.

End Redis.

Import Redis.

(** ** The vendor documents

    The [models] package declares these structs; the fields below are the
    ones the driver reads or writes.  Field names that several structs share
    ([PackageName], [Status], [CveID], [ProductName]) carry the struct's
    vendor in front. *)

Record RedhatPackageState := {
  Cpe : string;
  RedhatPackageName : string;
  FixState : string;
}.

Record RedhatCVE := {
  Name : string;
  PackageState : list RedhatPackageState;
}.

Record DebianRelease := {
  ProductName : string;
  DebianStatus : string;
}.

Record DebianPackage := {
  DebianPackageName : string;
  Release : list DebianRelease;
}.

Record DebianCVE := {
  DebianCveID : string;
  Package : list DebianPackage;
}.

Record UbuntuReleasePatch := {
  ReleaseName : string;
  UbuntuStatus : string;
}.

Record UbuntuPatch := {
  UbuntuPackageName : string;
  ReleasePatches : list UbuntuReleasePatch;
}.

Record UbuntuCVE := {
  Candidate : string;
  Patches : list UbuntuPatch;
}.

Record MicrosoftKBID := {
  KBID : string;
}.

Record MicrosoftCVE := {
  MicrosoftCveID : string;
  KBIDs : list MicrosoftKBID;
}.

Record MicrosoftProduct := {
  ProductID : string;
  MicrosoftProductName : string;
}.

(** The zero values [var redhat models.RedhatCVE] and the like start from. *)
Definition zeroRedhatCVE : RedhatCVE := {| Name := EmptyString; PackageState := [] |}.
Definition zeroMicrosoftCVE : MicrosoftCVE := {| MicrosoftCveID := EmptyString; KBIDs := [] |}.

(** [encoding/json] on a document type: [json.Marshal] and [json.Unmarshal]
    into a zero value, each of which may report an error. *)
Class JSON (A : Type) := {
  Marshal : A → option string;
  Unmarshal : string → option A;
}.

(** ** The client

    The driver holds one connection.  Besides the store behind it, the model
    keeps the batches the driver has run so far, oldest first: a single
    command is a batch of one, a pipeline is the batch handed to [Exec]. *)

Record conn := Conn { db : store; sent : list (list cmd) }.

Definition Client (A : Type) : Type := conn → A * conn.

Definition ret {A} (a : A) : Client A := λ cn, (a, cn).

Definition bind {A B} (m : Client A) (f : A → Client B) : Client B :=
  λ cn, let '(a, cn1) := m cn in f a cn1.

Declare Scope client_scope.
Delimit Scope client_scope with client.
Notation "x <- m ;; k" := (bind m (λ x, k))
  (at level 20, m at level 99, k at level 200) : client_scope.
Local Open Scope client_scope.

(** [r.conn.HGetAll(...)], [r.conn.ZRange(...)]: one command, at once. *)
Definition do_cmd (c : cmd) : Client reply :=
  λ cn, let '(s, r) := exec_cmd (db cn) c in (r, Conn s (sent cn ++ [[c]])).

(** [pipe.Exec(ctx)] on the queued commands [cs]. *)
Definition pipe_exec (cs : list cmd) : Client (list reply) :=
  λ cn, let '(s, rs) := exec_batch (db cn) cs in (rs, Conn s (sent cn ++ [cs])).

(** [for _, x := range l { ... }] with a loop-carried value. *)
Fixpoint forEach {A S} (body : S → A → Client S) (l : list A) (acc : S) : Client S :=
  match l with
  | [] => ret acc
  | x :: l => acc1 <- body acc x ;; forEach body l acc1
  end.

(** Why an [Insert] call fails. *)
Inductive error :=
  | ConvertFailed                  (* the error of the conversion, passed on *)
  | MarshalFailed                  (* "Failed to marshal json" *)
  | ExecFailed (e : redis_error).  (* "Failed to exec pipeline" *)

Section driver.

Context `{!JSON RedhatCVE, !JSON DebianCVE, !JSON UbuntuCVE, !JSON MicrosoftCVE}.

(** The codename tables [debVerCodename] and [ubuntuVerCodename] are package
    level maps of [db] declared outside this file. *)
Variables debVerCodename ubuntuVerCodename : gmap string string.

(** The fetchers' record types, and the conversions of package [db] into the
    documents above, are declared outside this file as well. *)
Variables RedhatCVEJSON DebianJSON UbuntuCVEJSON : Type.
Variables MicrosoftXML MicrosoftBulletinSearch : Type.
Variable ConvertRedhat : list RedhatCVEJSON → option (list RedhatCVE).
Variable ConvertDebian : DebianJSON → list DebianCVE.
Variable ConvertUbuntu : list UbuntuCVEJSON → list UbuntuCVE.
Variable ConvertMicrosoft :
  list MicrosoftXML → list MicrosoftBulletinSearch →
  list MicrosoftCVE * list MicrosoftProduct.

(** *** Point readers.  [None] is the [nil] pointer. *)

Definition GetRedhat (cveID : string) : Client (option RedhatCVE) :=
  result <- do_cmd (HGetAll (hashKeyPrefix +:+ cveID)) ;;
  if reply_err result is Some _ then ret None
  else
    match map_val result !! "RedHat" with
    | Some j =>
        match Unmarshal j with
        | None => ret None
        | Some redhat => ret (Some redhat)
        end
    | None => ret (Some zeroRedhatCVE)
    end.

Definition GetDebian (cveID : string) : Client (option DebianCVE) :=
  result <- do_cmd (HGetAll (hashKeyPrefix +:+ cveID)) ;;
  if reply_err result is Some _ then ret None
  else
    match map_val result !! "Debian" with
    | None => ret None
    | Some j =>
        match Unmarshal j with
        | None => ret None
        | Some deb => ret (Some deb)
        end
    end.

Definition GetUbuntu (cveID : string) : Client (option UbuntuCVE) :=
  result <- do_cmd (HGetAll (hashKeyPrefix +:+ cveID)) ;;
  if reply_err result is Some _ then ret None
  else
    match map_val result !! "Ubuntu" with
    | None => ret None
    | Some j =>
        match Unmarshal j with
        | None => ret None
        | Some c => ret (Some c)
        end
    end.

Definition GetMicrosoft (cveID : string) : Client (option MicrosoftCVE) :=
  result <- do_cmd (HGetAll (hashKeyPrefix +:+ cveID)) ;;
  if reply_err result is Some _ then ret None
  else
    match map_val result !! "Microsoft" with
    | Some j =>
        match Unmarshal j with
        | None => ret None
        | Some ms => ret (Some ms)
        end
    | None => ret (Some zeroMicrosoftCVE)
    end.

(** *** Multi readers *)

(** [rs[cveID] = pipe.HGetAll(...)]: the command objects by identifier, a
    later one replacing an earlier one, each holding its reply once the
    pipeline has run. *)
Definition collect (cveIDs : list string) (replies : list reply) : gmap string reply :=
  foldl (λ rs p, <[p.1 := p.2]> rs) ∅ (zip cveIDs replies).

(** The second loop of a multi reader, over the map [rs]: the first document
    that does not decode ends the call with [nil]. *)
Definition decodeAll {A} (field : string) (unmarshal : string → option A) (zero : A)
    (rs : gmap string reply) : option (gmap string A) :=
  map_fold (λ cveID result acc,
    match acc with
    | None => None
    | Some results =>
        match map_val result !! field with
        | Some j =>
            match unmarshal j with
            | None => None
            | Some doc => Some (<[cveID := doc]> results)
            end
        | None => Some (<[cveID := zero]> results)
        end
    end) (Some ∅) rs.

Definition getMulti {A} (field : string) (unmarshal : string → option A) (zero : A)
    (cveIDs : list string) : Client (option (gmap string A)) :=
  let pipe := (λ cveID, HGetAll (hashKeyPrefix +:+ cveID)) <$> cveIDs in
  replies <- pipe_exec pipe ;;
  let rs := collect cveIDs replies in
  match first_err replies with
  | Some err =>
      if bool_decide (err ≠ Nil) then ret None
      else ret (decodeAll field unmarshal zero rs)
  | None => ret (decodeAll field unmarshal zero rs)
  end.

Definition GetRedhatMulti (cveIDs : list string) : Client (option (gmap string RedhatCVE)) :=
  getMulti "RedHat" Unmarshal zeroRedhatCVE cveIDs.

Definition GetMicrosoftMulti (cveIDs : list string) : Client (option (gmap string MicrosoftCVE)) :=
  getMulti "Microsoft" Unmarshal zeroMicrosoftCVE cveIDs.

(** *** Filtered readers *)

(** The inner loop of [GetUnfixedCvesRedhat] over [red.PackageState]. *)
Definition narrowRedhat (cpe pkgName : string) (ignoreWillNotFix : bool)
    (states : list RedhatPackageState) : list RedhatPackageState :=
  foldl (λ pkgStats pkgstat,
    if bool_decide (Cpe pkgstat ≠ cpe)
       || bool_decide (RedhatPackageName pkgstat ≠ pkgName)
       || bool_decide (FixState pkgstat = "Not affected")
       || bool_decide (FixState pkgstat = "New")
    then pkgStats
    else if ignoreWillNotFix && bool_decide (FixState pkgstat = "Will not fix")
    then pkgStats
    else pkgStats ++ [pkgstat]) [] states.

Definition GetUnfixedCvesRedhat (major pkgName : string) (ignoreWillNotFix : bool)
    : Client (gmap string RedhatCVE) :=
  let m : gmap string RedhatCVE := ∅ in
  result <- do_cmd (ZRange (zindRedHatPrefix +:+ pkgName) 0 (-1)) ;;
  if reply_err result is Some _ then ret m
  else
    let cpe := "cpe:/o:redhat:enterprise_linux:" +:+ major in
    forEach (λ m cveID,
      red <- GetRedhat cveID ;;
      match red with
      | None => ret m
      | Some red =>
          let pkgStats := narrowRedhat cpe pkgName ignoreWillNotFix (PackageState red) in
          if (length pkgStats =? 0)%nat then ret m
          else ret (<[cveID := {| Name := Name red; PackageState := pkgStats |}]> m)
      end) (list_val result) m.

(** The loops of [getCvesDebianWithFixStatus] over [deb.Package] and
    [pkg.Release]. *)
Definition narrowDebian (codeName pkgName fixStatus : string)
    (pkgs : list DebianPackage) : list DebianPackage :=
  foldl (λ pkgs pkg,
    if bool_decide (DebianPackageName pkg ≠ pkgName) then pkgs
    else
      let rels :=
        foldl (λ rels rel,
          if bool_decide (ProductName rel = codeName)
             && bool_decide (DebianStatus rel = fixStatus)
          then rels ++ [rel] else rels) [] (Release pkg) in
      if (length rels =? 0)%nat then pkgs
      else pkgs ++ [{| DebianPackageName := DebianPackageName pkg; Release := rels |}])
    [] pkgs.

Definition getCvesDebianWithFixStatus (major pkgName fixStatus : string)
    : Client (gmap string DebianCVE) :=
  let m : gmap string DebianCVE := ∅ in
  match debVerCodename !! major with
  | None => ret m
  | Some codeName =>
      result <- do_cmd (ZRange (zindDebianPrefix +:+ pkgName) 0 (-1)) ;;
      if reply_err result is Some _ then ret m
      else
        forEach (λ m cveID,
          deb <- GetDebian cveID ;;
          match deb with
          | None => ret m
          | Some deb =>
              let pkgs := narrowDebian codeName pkgName fixStatus (Package deb) in
              if negb (length pkgs =? 0)%nat
              then ret (<[cveID := {| DebianCveID := DebianCveID deb; Package := pkgs |}]> m)
              else ret m
          end) (list_val result) m
  end.

Definition GetUnfixedCvesDebian (major pkgName : string) : Client (gmap string DebianCVE) :=
  getCvesDebianWithFixStatus major pkgName "open".

Definition GetFixedCvesDebian (major pkgName : string) : Client (gmap string DebianCVE) :=
  getCvesDebianWithFixStatus major pkgName "resolved".

(** The loops of [getCvesUbuntuWithFixStatus] over [cve.Patches],
    [p.ReleasePatches] and [fixStatus]. *)
Definition narrowUbuntu (codeName pkgName : string) (fixStatus : list string)
    (patches : list UbuntuPatch) : list UbuntuPatch :=
  foldl (λ patches p,
    if bool_decide (UbuntuPackageName p ≠ pkgName) then patches
    else
      let relPatches :=
        foldl (λ relPatches relPatch,
          if bool_decide (ReleaseName relPatch = codeName)
          then
            foldl (λ relPatches s,
              if bool_decide (s = UbuntuStatus relPatch)
              then relPatches ++ [relPatch] else relPatches) relPatches fixStatus
          else relPatches) [] (ReleasePatches p) in
      if (length relPatches =? 0)%nat then patches
      else patches ++ [{| UbuntuPackageName := UbuntuPackageName p;
                          ReleasePatches := relPatches |}])
    [] patches.

Definition getCvesUbuntuWithFixStatus (major pkgName : string) (fixStatus : list string)
    : Client (gmap string UbuntuCVE) :=
  let m : gmap string UbuntuCVE := ∅ in
  match ubuntuVerCodename !! major with
  | None => ret m
  | Some codeName =>
      result <- do_cmd (ZRange (zindUbuntuPrefix +:+ pkgName) 0 (-1)) ;;
      if reply_err result is Some _ then ret m
      else
        forEach (λ m cveID,
          cve <- GetUbuntu cveID ;;
          match cve with
          | None => ret m
          | Some cve =>
              let patches := narrowUbuntu codeName pkgName fixStatus (Patches cve) in
              if negb (length patches =? 0)%nat
              then ret (<[cveID := {| Candidate := Candidate cve; Patches := patches |}]> m)
              else ret m
          end) (list_val result) m
  end.

Definition GetUnfixedCvesUbuntu (major pkgName : string) : Client (gmap string UbuntuCVE) :=
  getCvesUbuntuWithFixStatus major pkgName ["needed"; "pending"].

Definition GetFixedCvesUbuntu (major pkgName : string) : Client (gmap string UbuntuCVE) :=
  getCvesUbuntuWithFixStatus major pkgName ["released"].

(** *** The write pipeline *)

(** The retention block that follows every write: [expire] is the process
    wide [viper.GetUint("expire")]. *)
Definition retention (expire : Z) (key : string) : list cmd :=
  if 0 <? expire then [Expire key (GoInt.expire_duration expire)]
  else [Persist key].

(** The body of the loop over the converted records: marshal, queue the
    record's commands on a fresh pipeline, run it, stop at the first error.
    Queuing a command on a pipeline does not reach the server, so the
    [Err()] the driver looks at right after queuing is always [nil]; the
    commands can only fail when [Exec] runs them. *)
Fixpoint insertEach {A} (marshal : A → option string) (queue : A → string → list cmd)
    (cves : list A) : Client (option error) :=
  match cves with
  | [] => ret None
  | cve :: rest =>
      match marshal cve with
      | None => ret (Some MarshalFailed)
      | Some j =>
          replies <- pipe_exec (queue cve j) ;;
          match first_err replies with
          | Some e => ret (Some (ExecFailed e))
          | None => insertEach marshal queue rest
          end
      end
  end.

Definition queueRedhat (expire : Z) (cve : RedhatCVE) (j : string) : list cmd :=
  let key := hashKeyPrefix +:+ Name cve in
  let pipe := [HSet key "RedHat" j] ++ retention expire key in
  foldl (λ pipe pkg,
    let key := zindRedHatPrefix +:+ RedhatPackageName pkg in
    pipe ++ [ZAdd key 0 (Name cve)] ++ retention expire key) pipe (PackageState cve).

Definition InsertRedhat (expire : Z) (cveJSONs : list RedhatCVEJSON) : Client (option error) :=
  match ConvertRedhat cveJSONs with
  | None => ret (Some ConvertFailed)
  | Some cves => insertEach Marshal (queueRedhat expire) cves
  end.

Definition queueDebian (expire : Z) (cve : DebianCVE) (j : string) : list cmd :=
  let key := hashKeyPrefix +:+ DebianCveID cve in
  let pipe := [HSet key "Debian" j] ++ retention expire key in
  foldl (λ pipe pkg,
    let key := zindDebianPrefix +:+ DebianPackageName pkg in
    pipe ++ [ZAdd key 0 (DebianCveID cve)] ++ retention expire key) pipe (Package cve).

Definition InsertDebian (expire : Z) (cveJSONs : DebianJSON) : Client (option error) :=
  insertEach Marshal (queueDebian expire) (ConvertDebian cveJSONs).

Definition queueUbuntu (expire : Z) (cve : UbuntuCVE) (j : string) : list cmd :=
  let key := hashKeyPrefix +:+ Candidate cve in
  let pipe := [HSet key "Ubuntu" j] ++ retention expire key in
  foldl (λ pipe pkg,
    let key := zindUbuntuPrefix +:+ UbuntuPackageName pkg in
    pipe ++ [ZAdd key 0 (Candidate cve)] ++ retention expire key) pipe (Patches cve).

Definition InsertUbuntu (expire : Z) (cveJSONs : list UbuntuCVEJSON) : Client (option error) :=
  insertEach Marshal (queueUbuntu expire) (ConvertUbuntu cveJSONs).

Definition queueProducts (expire : Z) (products : list MicrosoftProduct) : list cmd :=
  foldl (λ pipe p,
    let key := zindMicrosoftProductIDPrefix +:+ ProductID p in
    pipe ++ [ZAdd key 0 (MicrosoftProductName p)] ++ retention expire key) [] products.

Definition queueMicrosoft (expire : Z) (cve : MicrosoftCVE) (j : string) : list cmd :=
  let key := hashKeyPrefix +:+ MicrosoftCveID cve in
  let pipe := [HSet key "Microsoft" j] ++ retention expire key in
  foldl (λ pipe msKBID,
    let key := zindMicrosoftKBIDPrefix +:+ KBID msKBID in
    pipe ++ [ZAdd key 0 (MicrosoftCveID cve)] ++ retention expire key) pipe (KBIDs cve).

Definition InsertMicrosoft (expire : Z) (cveXMLs : list MicrosoftXML)
    (xls : list MicrosoftBulletinSearch) : Client (option error) :=
  let '(cves, products) := ConvertMicrosoft cveXMLs xls in
  replies <- pipe_exec (queueProducts expire products) ;;
  match first_err replies with
  | Some e => ret (Some (ExecFailed e))
  | None => insertEach Marshal (queueMicrosoft expire) cves
  end.

(** *** Views of the point readers

    The document, if any, a point reader finds in store [s]. *)
Definition loadRedhat (s : store) (cveID : string) : option RedhatCVE :=
  (GetRedhat cveID (Conn s [])).1.
Definition loadDebian (s : store) (cveID : string) : option DebianCVE :=
  (GetDebian cveID (Conn s [])).1.
Definition loadUbuntu (s : store) (cveID : string) : option UbuntuCVE :=
  (GetUbuntu cveID (Conn s [])).1.
Definition loadMicrosoft (s : store) (cveID : string) : option MicrosoftCVE :=
  (GetMicrosoft cveID (Conn s [])).1.

End driver.

Arguments InsertRedhat {_ _} ConvertRedhat expire cveJSONs.
Arguments InsertDebian {_ _} ConvertDebian expire cveJSONs.
Arguments InsertUbuntu {_ _} ConvertUbuntu expire cveJSONs.
Arguments InsertMicrosoft {_ _ _} ConvertMicrosoft expire cveXMLs xls.

(** ** Views used by the statements *)

(** The candidate identifiers a filtered reader obtains from an index key:
    what [ZRange key 0 -1] answers (nothing when the command fails). *)
Definition candidates (s : store) (key : string) : list string :=
  list_val (exec_cmd s (ZRange key 0 (-1))).2.

(** The document a reader decodes from the reply of [HGetAll]: the vendor's
    field decoded, or the zero value when the field is not there. *)
Definition decodeOne {A} (field : string) (unmarshal : string → option A) (zero : A)
    (r : reply) : option A :=
  match map_val r !! field with
  | Some j => unmarshal j
  | None => Some zero
  end.

(** The pipeline of a multi reader. *)
Definition multiPipe (cveIDs : list string) : list cmd :=
  (λ cveID, HGetAll (hashKeyPrefix +:+ cveID)) <$> cveIDs.

(** [m[id] = d], when there is a [d] to store. *)
Definition store_if {A} (o : option A) (id : string) (m : gmap string A) : gmap string A :=
  match o with Some d => <[id := d]> m | None => m end.

(** Running batches one after the other, whatever their outcome. *)
Definition run_batches (bs : list (list cmd)) (cn : conn) : conn :=
  foldl (λ cn b, (pipe_exec b cn).2) cn bs.

(** Every batch of [bs], run in order from [s], completes without error. *)
Fixpoint all_ok (bs : list (list cmd)) (s : store) : bool :=
  match bs with
  | [] => true
  | b :: bs =>
      let '(s1, rs) := exec_batch s b in
      if first_err rs is Some _ then false else all_ok bs s1
  end.

(** The key a command addresses, and the commands that only read. *)
Definition cmd_key (c : cmd) : string :=
  match c with
  | HSet k _ _ | Expire k _ | Persist k | ZAdd k _ _ | HGetAll k | ZRange k _ _ => k
  end.

Definition read_only (c : cmd) : bool :=
  match c with HGetAll _ | ZRange _ _ _ => true | _ => false end.

(** The batches of the records [cves], one per record that marshals. *)
Definition queued {A} (marshal : A → option string) (queue : A → string → list cmd)
    (cves : list A) : list (list cmd) :=
  omap (λ cve, queue cve <$> marshal cve) cves.

(** The time-to-live the retention block requests with setting [expire]:
    what the client makes of the duration, or none for [Persist]. *)
Definition target_ttl (expire : Z) : option Z :=
  if 0 <? expire then Some (formatSec (GoInt.expire_duration expire)) else None.

(** The shape the batches share: a write followed by the retention block on
    its key, for the primary record and then for each index entry. *)
Definition touchBlocks (expire : Z) (writes : list cmd) : list cmd :=
  flat_map (λ w, [w] ++ retention expire (cmd_key w)) writes.

Definition indexWrites (prefix : string) (entries : list (string * string)) : list cmd :=
  (λ e, ZAdd (prefix +:+ e.1) 0 e.2) <$> entries.

Definition recordWrites (field prefix cveID j : string) (names : list string) : list cmd :=
  HSet (hashKeyPrefix +:+ cveID) field j :: indexWrites prefix ((λ n, (n, cveID)) <$> names).

Definition is_write (c : cmd) : bool :=
  match c with HSet _ _ _ | ZAdd _ _ _ => true | _ => false end.

(** A vendor's share of the key space: its field of the primary hash and the
    prefixes of its index keys. *)
Record vendor := Vendor { vfield : string; vprefixes : list string }.

Definition RedHat : vendor := Vendor "RedHat" [zindRedHatPrefix].
Definition Debian : vendor := Vendor "Debian" [zindDebianPrefix].
Definition Ubuntu : vendor := Vendor "Ubuntu" [zindUbuntuPrefix].
Definition Microsoft : vendor :=
  Vendor "Microsoft" [zindMicrosoftKBIDPrefix; zindMicrosoftProductIDPrefix].

Definition index_prefixes : list string :=
  [zindRedHatPrefix; zindDebianPrefix; zindUbuntuPrefix;
   zindMicrosoftKBIDPrefix; zindMicrosoftProductIDPrefix].

(** [k] is [p] followed by something. *)
Definition has_prefix (p k : string) : Prop := ∃ rest, k = p +:+ rest.

(** The commands of an [Insert] of vendor [v] that cannot change what the
    other vendors stored: a write of [v]'s field of a hash, a member with
    score 0 added under one of [v]'s index prefixes, or a retention command
    that deletes nothing. *)
Definition own_cmd (v : vendor) (c : cmd) : Prop :=
  match c with
  | HSet k f _ => has_prefix hashKeyPrefix k ∧ f = vfield v
  | ZAdd k sc _ => (∃ p, p ∈ vprefixes v ∧ has_prefix p k) ∧ sc = 0
  | Expire _ d => 0 < formatSec d
  | Persist _ => True
  | HGetAll _ | ZRange _ _ _ => False
  end.

(** The batches sent between [cn] and the outcome [out] of an [Insert] are
    those of a prefix of the records, one batch per record and in order; it
    is all of the records when there is no error. *)
Definition batch_per_record {A} (marshal : A → option string)
    (queue : A → string → list cmd) (cves : list A) (cn : conn)
    (out : option error * conn) : Prop :=
  ∃ ran rest,
    cves = ran ++ rest ∧
    sent out.2 = sent cn ++ queued marshal queue ran ∧
    (out.1 = None → rest = []).

(** The outcome [out] of an [Insert] that stops at record [cve], whose batch
    fails with [e], after the records [pre]: the error is returned, the
    connection is the one left by the batches of [pre] and of [cve], and
    nothing more has been sent. *)
Definition stops_at {A} (marshal : A → option string) (queue : A → string → list cmd)
    (pre : list A) (cve : A) (j : string)
    (e : redis_error) (cn : conn) (out : option error * conn) : Prop :=
  out = (Some (ExecFailed e),
         run_batches (queued marshal queue pre ++ [queue cve j]) cn) ∧
  sent out.2 = sent cn ++ queued marshal queue pre ++ [queue cve j].

(** The records [pre] are in the store [s]: the vendor's field of the
    primary hash of each is set, and each is a member, with score 0, of the
    index of every name it refers to. *)
Definition still_stored {A} (field prefix : string) (cveID : A → string)
    (names : A → list string) (pre : list A) (s : store) : Prop :=
  ∀ c, c ∈ pre →
    is_Some (hfield s (hashKeyPrefix +:+ cveID c) field) ∧
    ∀ n, n ∈ names c → zscore s (prefix +:+ n) (cveID c) = Some 0.

(** A batch made of writes, each followed by its retention block. *)
Definition settles (expire : Z) (b : list cmd) : Prop :=
  ∃ writes, Forall (λ w, is_write w = true) writes ∧ b = touchBlocks expire writes.

(** Every key addressed by a batch sent between [cn] and [cn'] carries the
    time-to-live the retention block requests. *)
Definition retained (expire : Z) (cn cn' : conn) : Prop :=
  ∃ bs, sent cn' = sent cn ++ bs ∧
    ∀ b c, b ∈ bs → c ∈ b → key_ttl (db cn') (cmd_key c) = Some (target_ttl expire).

(** ** The narrowing, in the words of the specification *)

Module Spec.

(** The CPE platform string built from the major version. *)
Definition redhatCpe (major : string) : string :=
  "cpe:/o:redhat:enterprise_linux:" +:+ major.

(** A package state survives: right platform, right package, fix state
    neither "Not affected" nor "New", and not "Will not fix" when those are
    to be ignored. *)
Definition survives (major pkgName : string) (ignoreWillNotFix : bool)
    (ps : RedhatPackageState) : Prop :=
  Cpe ps = redhatCpe major ∧ RedhatPackageName ps = pkgName ∧
  FixState ps ≠ "Not affected" ∧ FixState ps ≠ "New" ∧
  (ignoreWillNotFix = true → FixState ps ≠ "Will not fix").

#[global] Instance survives_dec major pkgName i ps : Decision (survives major pkgName i ps).
Proof. unfold survives. apply _. Defined.

(** The narrowed document, or nothing when no entry survives. *)
Definition narrowedRedhat (major pkgName : string) (ignoreWillNotFix : bool)
    (red : RedhatCVE) : option RedhatCVE :=
  match filter (survives major pkgName ignoreWillNotFix) (PackageState red) with
  | [] => None
  | kept => Some {| Name := Name red; PackageState := kept |}
  end.

(** A release entry is wanted: right codename, status in the wanted set. *)
Definition wantedDebian (codeName : string) (wanted : list string)
    (rel : DebianRelease) : Prop :=
  ProductName rel = codeName ∧ DebianStatus rel ∈ wanted.

#[global] Instance wantedDebian_dec c w rel : Decision (wantedDebian c w rel).
Proof. unfold wantedDebian. apply _. Defined.

(** Keep the sub-entries of the package, keep their wanted releases, drop
    the sub-entries left without a release. *)
Definition keptDebian (codeName pkgName : string) (wanted : list string)
    (pkgs : list DebianPackage) : list DebianPackage :=
  filter (λ p, Release p ≠ [])
    ((λ p, {| DebianPackageName := DebianPackageName p;
              Release := filter (wantedDebian codeName wanted) (Release p) |})
     <$> filter (λ p, DebianPackageName p = pkgName) pkgs).

Definition narrowedDebian (codeName pkgName : string) (wanted : list string)
    (deb : DebianCVE) : option DebianCVE :=
  match keptDebian codeName pkgName wanted (Package deb) with
  | [] => None
  | kept => Some {| DebianCveID := DebianCveID deb; Package := kept |}
  end.

Definition wantedUbuntu (codeName : string) (wanted : list string)
    (rel : UbuntuReleasePatch) : Prop :=
  ReleaseName rel = codeName ∧ UbuntuStatus rel ∈ wanted.

#[global] Instance wantedUbuntu_dec c w rel : Decision (wantedUbuntu c w rel).
Proof. unfold wantedUbuntu. apply _. Defined.

Definition keptUbuntu (codeName pkgName : string) (wanted : list string)
    (patches : list UbuntuPatch) : list UbuntuPatch :=
  filter (λ p, ReleasePatches p ≠ [])
    ((λ p, {| UbuntuPackageName := UbuntuPackageName p;
              ReleasePatches := filter (wantedUbuntu codeName wanted) (ReleasePatches p) |})
     <$> filter (λ p, UbuntuPackageName p = pkgName) patches).

Definition narrowedUbuntu (codeName pkgName : string) (wanted : list string)
    (cve : UbuntuCVE) : option UbuntuCVE :=
  match keptUbuntu codeName pkgName wanted (Patches cve) with
  | [] => None
  | kept => Some {| Candidate := Candidate cve; Patches := kept |}
  end.

(** What a filtered reader is to answer for [cveID]: nothing unless it is a
    candidate that loads, and then its narrowed document. *)
Definition selected {A} (ids : list string) (load : string → option A)
    (narrow : A → option A) (cveID : string) : option A :=
  if decide (cveID ∈ ids) then load cveID ≫= narrow else None.

End Spec.

(** ** Further views of the store and of the key space *)

(** What kind of value a key holds, if it is there. *)
Inductive kind := KHash | KZSet.

#[global] Instance kind_eq_dec : EqDecision kind.
Proof. solve_decision. Defined.

Definition key_kind (s : store) (k : string) : option kind :=
  match s !! k with
  | Some (Entry (RHash _) _) => Some KHash
  | Some (Entry (RZSet _) _) => Some KZSet
  | None => None
  end.

(** A command that deletes nothing: every command but an [Expire] whose
    timeout the client sends as zero seconds or less. *)
Definition keeps (c : cmd) : Prop :=
  match c with Expire _ d => 0 < formatSec d | _ => True end.

(** The retention setting [expire] makes the retention block delete the key
    it addresses: the duration computed from it has wrapped around to a
    value the client sends as zero seconds or less. *)
Definition wraps (expire : Z) : Prop :=
  0 < expire ∧ formatSec (GoInt.expire_duration expire) ≤ 0.

#[global] Instance wraps_dec expire : Decision (wraps expire).
Proof. unfold wraps. apply _. Defined.

(** A key of the index part of the key space, and an identifier whose
    primary key stays clear of it. *)
Definition indexed (k : string) : Prop := ∃ p, p ∈ index_prefixes ∧ has_prefix p k.

Definition plain (cveID : string) : Prop := ¬ indexed (hashKeyPrefix +:+ cveID).

(** The writes an [Insert] of vendor [v] queues: [v]'s field of a hash
    outside the index part of the key space, or a member with score 0 under
    one of [v]'s index prefixes. *)
Definition own_write (v : vendor) (w : cmd) : Prop :=
  match w with
  | HSet k f _ => has_prefix hashKeyPrefix k ∧ ¬ indexed k ∧ f = vfield v
  | ZAdd k sc _ => (∃ p, p ∈ vprefixes v ∧ has_prefix p k) ∧ sc = 0
  | _ => False
  end.

(** A batch of vendor [v] under the setting [expire]: writes of its own,
    each followed by the retention command on the key just written and by
    nothing else. *)
Definition own_batch (expire : Z) (v : vendor) (b : list cmd) : Prop :=
  ∃ ws, Forall (own_write v) ws ∧ b = touchBlocks expire ws.

(** What an [Insert] of vendor [v] that takes the connection from [cn] to
    [cn'] has done: it sent batches of its own only, and it left every key
    under the index prefixes of the other vendors as it was (members,
    scores and time-to-live). *)
Definition frames (expire : Z) (v : vendor) (cn cn' : conn) : Prop :=
  (∃ bs, sent cn' = sent cn ++ bs ∧ Forall (own_batch expire v) bs) ∧
  (∀ p key, p ∈ index_prefixes → p ∉ vprefixes v → has_prefix p key →
     db cn' !! key = db cn !! key).

(** The fields of the vendors other than [v] are in [cn'] what they were in
    [cn], in every hash. *)
Definition other_fields_kept (v : vendor) (cn cn' : conn) : Prop :=
  ∀ key field, field ≠ vfield v →
    hfield (db cn') key field = hfield (db cn) key field.

(** The store keeps to the key schema: sorted sets under the index
    prefixes, hashes elsewhere. *)
Definition well_typed (s : store) : Prop :=
  ∀ k, match key_kind s k with
       | Some KZSet => indexed k
       | Some KHash => ¬ indexed k
       | None => True
       end.

(** The last record of [cves] with identifier [cveID]. *)
Definition last_with {A} (ident : A → string) (cveID : string) (cves : list A) : option A :=
  last (filter (λ cve, ident cve = cveID) cves).

(** Every key addressed by a batch sent between [cn] and [cn'] carries the
    time-to-live [t]. *)
Definition retained_with (t : option Z) (cn cn' : conn) : Prop :=
  ∃ bs, sent cn' = sent cn ++ bs ∧
    ∀ b c, b ∈ bs → c ∈ b → key_ttl (db cn') (cmd_key c) = Some t.

(** Nothing that was in the store of [cn] is missing from that of [cn']:
    keys, fields of hashes, members of sorted sets. *)
Definition nothing_removed (cn cn' : conn) : Prop :=
  (∀ k x, key_kind (db cn) k = Some x → key_kind (db cn') k = Some x) ∧
  (∀ k f, is_Some (hfield (db cn) k f) → is_Some (hfield (db cn') k f)) ∧
  (∀ k m, is_Some (zscore (db cn) k m) → is_Some (zscore (db cn') k m)).

(** Every key addressed by a batch sent between [cn] and [cn'] is gone from
    the store of [cn']. *)
Definition touched_gone (cn cn' : conn) : Prop :=
  ∃ bs, sent cn' = sent cn ++ bs ∧
    ∀ b c, b ∈ bs → c ∈ b → db cn' !! cmd_key c = None.

(** The outcome [out] of an [Insert] that stops at record [cve], which does
    not marshal, after the records [pre]: the error is returned and the
    connection is the one left by the batches of [pre]. *)
Definition stops_before {A} (marshal : A → option string) (queue : A → string → list cmd)
    (pre : list A) (cn : conn) (out : option error * conn) : Prop :=
  out = (Some MarshalFailed, run_batches (queued marshal queue pre) cn) ∧
  sent out.2 = sent cn ++ queued marshal queue pre.

(** The batches of a filtered reader over the index key [key]: the range
    read, then one read of the primary record per candidate. *)
Definition filtered_batches (s : store) (key : string) : list (list cmd) :=
  [ZRange key 0 (-1)] :: ((λ cveID, [HGetAll (hashKeyPrefix +:+ cveID)]) <$> candidates s key).

(** A command that keeps to the key schema: fields are written to keys
    outside the index part of the key space, members are added inside it. *)
Definition schema_cmd (c : cmd) : Prop :=
  match c with
  | HSet k _ _ => ¬ indexed k
  | ZAdd k _ _ => indexed k
  | Expire _ _ | Persist _ => True
  | HGetAll _ | ZRange _ _ _ => False
  end.

(** Whether a command writes a given field, or adds a given member. *)
#[global] Instance sets_field_dec k f c : Decision (∃ v, c = HSet k f v).
Proof.
  destruct c as [k' f' v| | | | |];
    try (right; intros [v Hv]; discriminate).
  destruct (decide (k' = k)) as [->|Hk]; [|right; intros [v' Hv]; congruence].
  destruct (decide (f' = f)) as [->|Hf]; [|right; intros [v' Hv]; congruence].
  left. by exists v.
Defined.

#[global] Instance adds_member_dec k m c : Decision (∃ sc, c = ZAdd k sc m).
Proof.
  destruct c as [| | |k' sc m'| |];
    try (right; intros [v Hv]; discriminate).
  destruct (decide (k' = k)) as [->|Hk]; [|right; intros [v' Hv]; congruence].
  destruct (decide (m' = m)) as [->|Hm]; [|right; intros [v' Hv]; congruence].
  left. by exists sc.
Defined.

(** The two runs side by side: [s] after some blocks of the first run, [s']
    after the same blocks of the second run, which started from the store
    [s1] the first run ended with.  [s'] has the keys of [s1]; it agrees
    with [s] on what the blocks so far have written and with [s1] on the
    rest. *)
Definition in_step (ran : list cmd) (s1 s s' : store) : Prop :=
  (∀ k, key_kind s' k = key_kind s1 k) ∧
  (∀ k f, ((∃ v, HSet k f v ∈ ran) → hfield s' k f = hfield s k f) ∧
          ((∀ v, HSet k f v ∉ ran) → hfield s' k f = hfield s1 k f)) ∧
  (∀ k m, ((∃ sc, ZAdd k sc m ∈ ran) → zscore s' k m = zscore s k m) ∧
          ((∀ sc, ZAdd k sc m ∉ ran) → zscore s' k m = zscore s1 k m)) ∧
  (∀ k, (k ∈ cmd_key <$> ran → key_ttl s' k = key_ttl s k) ∧
        (k ∉ cmd_key <$> ran → key_ttl s' k = key_ttl s1 k)).

(** ** A small instance

    Concrete documents, a codec that knows them, and codename tables with
    one entry each, on which the driver can be run. *)

Module Demo.

Definition bash : DebianCVE :=
  {| DebianCveID := "CVE-2023-0001";
     Package :=
       [ {| DebianPackageName := "bash";
            Release := [ {| ProductName := "bookworm"; DebianStatus := "open" |};
                         {| ProductName := "bookworm"; DebianStatus := "resolved" |} ] |} ] |}.

Definition tar : DebianCVE :=
  {| DebianCveID := "CVE-2023-0002";
     Package :=
       [ {| DebianPackageName := "tar";
            Release := [ {| ProductName := "bookworm"; DebianStatus := "open" |} ] |} ] |}.

(** A document whose identifier collides with the index key of "tar". *)
Definition odd : DebianCVE := {| DebianCveID := "D#tar"; Package := [] |}.

Definition openssl : RedhatCVE :=
  {| Name := "CVE-2023-0003";
     PackageState :=
       [ {| Cpe := "cpe:/o:redhat:enterprise_linux:8";
            RedhatPackageName := "openssl"; FixState := "Will not fix" |};
         {| Cpe := "cpe:/o:redhat:enterprise_linux:8";
            RedhatPackageName := "openssl"; FixState := "Affected" |};
         {| Cpe := "cpe:/o:redhat:enterprise_linux:8";
            RedhatPackageName := "openssl"; FixState := "Not affected" |} ] |}.

Definition curl : UbuntuCVE :=
  {| Candidate := "CVE-2023-0004";
     Patches :=
       [ {| UbuntuPackageName := "curl";
            ReleasePatches := [ {| ReleaseName := "focal"; UbuntuStatus := "needed" |};
                                {| ReleaseName := "focal"; UbuntuStatus := "released" |} ] |} ] |}.

Definition rdp : MicrosoftCVE :=
  {| MicrosoftCveID := "CVE-2023-0005"; KBIDs := [ {| KBID := "5005565" |} ] |}.

Definition windows : MicrosoftProduct :=
  {| ProductID := "11568"; MicrosoftProductName := "Windows 10" |}.

(** The codec writes a document as its identifier between braces and reads
    back the documents above. *)
Definition braces (cveID : string) : string := "{" +:+ cveID +:+ "}".

#[export] Instance debianJSON : JSON DebianCVE :=
  {| Marshal d := Some (braces (DebianCveID d));
     Unmarshal j :=
       if decide (j = braces "CVE-2023-0001") then Some bash
       else if decide (j = braces "CVE-2023-0002") then Some tar
       else if decide (j = braces "D#tar") then Some odd
       else None |}.

#[export] Instance redhatJSON : JSON RedhatCVE :=
  {| Marshal d := Some (braces (Name d));
     Unmarshal j := if decide (j = braces "CVE-2023-0003") then Some openssl else None |}.

#[export] Instance ubuntuJSON : JSON UbuntuCVE :=
  {| Marshal d := Some (braces (Candidate d));
     Unmarshal j := if decide (j = braces "CVE-2023-0004") then Some curl else None |}.

#[export] Instance microsoftJSON : JSON MicrosoftCVE :=
  {| Marshal d := Some (braces (MicrosoftCveID d));
     Unmarshal j := if decide (j = braces "CVE-2023-0005") then Some rdp else None |}.

Definition debVerCodename : gmap string string := {[ "12" := "bookworm" ]}.
Definition ubuntuVerCodename : gmap string string := {[ "2004" := "focal" ]}.

(** The conversions of records that are the documents already. *)
Definition ConvertRedhat (cveJSONs : list RedhatCVE) : option (list RedhatCVE) :=
  Some cveJSONs.
Definition ConvertDebian (cveJSONs : list DebianCVE) : list DebianCVE := cveJSONs.
Definition ConvertUbuntu (cveJSONs : list UbuntuCVE) : list UbuntuCVE := cveJSONs.
Definition ConvertMicrosoft (cveXMLs : list MicrosoftCVE) (xls : list MicrosoftProduct)
    : list MicrosoftCVE * list MicrosoftProduct := (cveXMLs, xls).

(** A connection to an empty store, and one whose store holds a sorted set
    where a primary record is expected. *)
Definition fresh : conn := Conn ∅ [].

Definition clash : conn :=
  Conn {[ "CVE#CVE-2023-0003" := Entry (RZSet {[ "x" := 0 ]}) None ]} [].

(** The store after the Debian documents [bash] and [tar] went in. *)
Definition loaded : conn := (InsertDebian ConvertDebian 0 [bash; tar] fresh).2.

(** A codec for the Debian documents that refuses [odd]. *)
Definition strictDebianJSON : JSON DebianCVE :=
  {| Marshal d :=
       if decide (DebianCveID d = "D#tar") then None else Some (braces (DebianCveID d));
     Unmarshal j :=
       if decide (j = braces "CVE-2023-0001") then Some bash
       else if decide (j = braces "CVE-2023-0002") then Some tar
       else None |}.

(** Documents whose identifiers collide with index keys or with the records
    of another vendor. *)
Definition oddUbuntu : UbuntuCVE := {| Candidate := "U#curl"; Patches := [] |}.

Definition shared : RedhatCVE := {| Name := "CVE-2023-0001"; PackageState := [] |}.

(** A connection whose store holds a sorted set where the primary record of
    [rdp] is expected. *)
Definition clashMicrosoft : conn :=
  Conn {[ "CVE#CVE-2023-0005" := Entry (RZSet {[ "x" := 0 ]}) None ]} [].

End Demo.

(** * Facts *)

(** ** Loops that append *)

Section loops.
Context {A B : Type}.

(** A loop that appends at most one element per round is an [omap]. *)
Lemma foldl_omap (g : A → option B) (f : list B → A → list B) l acc :
  (∀ acc x, f acc x = match g x with Some y => acc ++ [y] | None => acc end) →
  foldl f acc l = acc ++ omap g l.
Proof.
  intros Hf. revert acc.
  induction l as [|x l IH]; intros acc; simpl.
  - by rewrite app_nil_r.
  - rewrite IH, Hf. destruct (g x); simpl; [|done].
    by rewrite <- app_assoc.
Qed.

(** A loop that appends a few elements per round is a [flat_map]. *)
Lemma foldl_flat_map (g : A → list B) (f : list B → A → list B) l acc :
  (∀ acc x, f acc x = acc ++ g x) →
  foldl f acc l = acc ++ flat_map g l.
Proof.
  intros Hf. revert acc.
  induction l as [|x l IH]; intros acc; simpl.
  - by rewrite app_nil_r.
  - rewrite IH, Hf. by rewrite <- app_assoc.
Qed.

Lemma omap_filter (P : A → Prop) `{!∀ x, Decision (P x)} (l : list A) :
  omap (λ x, if decide (P x) then Some x else None) l = filter P l.
Proof.
  induction l as [|x l IH]; simpl; [done|].
  rewrite filter_cons. destruct (decide (P x)); simpl; [f_equal|]; apply IH.
Qed.

End loops.

Lemma length_eqb_nil {A} (l : list A) : (length l =? 0)%nat = bool_decide (l = []).
Proof. by destruct l. Qed.

(** The innermost loop of the Ubuntu reader adds the release once per wanted
    status equal to its own: once at most when the statuses are distinct. *)
Lemma ubuntu_status_loop (rel : UbuntuReleasePatch) (fixStatus : list string) acc :
  NoDup fixStatus →
  foldl (λ relPatches s,
    if bool_decide (s = UbuntuStatus rel) then relPatches ++ [rel] else relPatches)
    acc fixStatus
  = acc ++ (if decide (UbuntuStatus rel ∈ fixStatus) then [rel] else []).
Proof.
  intros Hnd. revert acc.
  induction Hnd as [|s l Hnotin Hnd IH]; intros acc.
  - cbn [foldl]. destruct (decide (UbuntuStatus rel ∈ [])) as [Hin|Hin].
    + by apply elem_of_nil in Hin.
    + by rewrite app_nil_r.
  - cbn [foldl]. rewrite IH. case_bool_decide as Hs.
    + subst s. destruct (decide (UbuntuStatus rel ∈ l)); [done|].
      destruct (decide (UbuntuStatus rel ∈ UbuntuStatus rel :: l)) as [Hin|Hin].
      * by rewrite app_nil_r.
      * exfalso. apply Hin. left.
    + destruct (decide (UbuntuStatus rel ∈ l)) as [Hin|Hin];
        destruct (decide (UbuntuStatus rel ∈ s :: l)) as [Hin'|Hin']; try done.
      * exfalso. apply Hin'. by right.
      * exfalso. apply elem_of_cons in Hin' as [?|?]; congruence.
Qed.

(** ** The narrowing loops are the specified narrowing *)

Lemma narrowRedhat_spec major pkgName i states :
  narrowRedhat (Spec.redhatCpe major) pkgName i states
  = filter (Spec.survives major pkgName i) states.
Proof.
  unfold narrowRedhat.
  rewrite (foldl_omap
    (λ ps, if decide (Spec.survives major pkgName i ps) then Some ps else None)).
  - simpl. apply omap_filter.
  - intros acc ps. unfold Spec.survives.
    repeat case_bool_decide; destruct i; simpl;
      destruct (decide _) as [Hd|Hd]; try done;
      try (exfalso; apply Hd; by repeat split);
      exfalso; destruct Hd as (?&?&?&?&Hw); try done; by apply Hw.
Qed.

Lemma debian_release_loop codeName fixStatus rels :
  foldl (λ rels rel,
    if bool_decide (ProductName rel = codeName)
       && bool_decide (DebianStatus rel = fixStatus)
    then rels ++ [rel] else rels) [] rels
  = filter (Spec.wantedDebian codeName [fixStatus]) rels.
Proof.
  rewrite (foldl_omap
    (λ rel, if decide (Spec.wantedDebian codeName [fixStatus] rel) then Some rel else None)).
  - simpl. apply omap_filter.
  - intros acc rel. unfold Spec.wantedDebian.
    repeat case_bool_decide; simpl; destruct (decide _) as [Hd|Hd]; try done.
    + exfalso. apply Hd. split; [done|]. apply list_elem_of_singleton. done.
    + exfalso. destruct Hd as [_ Hd%list_elem_of_singleton]. done.
    + exfalso. by destruct Hd as [? _].
    + exfalso. by destruct Hd as [? _].
Qed.

Lemma omap_keep {A B} (P : A → Prop) (Q : B → Prop) (h : A → B)
    `{!∀ x, Decision (P x), !∀ y, Decision (Q y)} (l : list A) :
  omap (λ x, if decide (P x) then (if decide (Q (h x)) then Some (h x) else None) else None) l
  = filter Q (h <$> filter P l).
Proof.
  induction l as [|x l IH]; simpl; [done|].
  rewrite filter_cons. destruct (decide (P x)); simpl.
  - rewrite filter_cons. destruct (decide (Q (h x))); simpl; [f_equal|]; apply IH.
  - apply IH.
Qed.

Lemma narrowDebian_spec codeName pkgName fixStatus pkgs :
  narrowDebian codeName pkgName fixStatus pkgs
  = Spec.keptDebian codeName pkgName [fixStatus] pkgs.
Proof.
  unfold narrowDebian, Spec.keptDebian.
  rewrite <- (omap_keep (λ p, DebianPackageName p = pkgName) (λ p, Release p ≠ [])).
  rewrite (foldl_omap (λ p,
    if decide (DebianPackageName p = pkgName) then
      if decide (Release {| DebianPackageName := DebianPackageName p;
          Release := filter (Spec.wantedDebian codeName [fixStatus]) (Release p) |} ≠ [])
      then Some {| DebianPackageName := DebianPackageName p;
          Release := filter (Spec.wantedDebian codeName [fixStatus]) (Release p) |}
      else None
    else None)); [done|].
  intros acc p. rewrite debian_release_loop, length_eqb_nil. simpl.
  case_bool_decide; destruct (decide (_ = pkgName)); try done.
  case_bool_decide; destruct (decide (_ ≠ [])); done.
Qed.

Lemma ubuntu_release_loop codeName fixStatus rels :
  NoDup fixStatus →
  foldl (λ relPatches relPatch,
    if bool_decide (ReleaseName relPatch = codeName)
    then
      foldl (λ relPatches s,
        if bool_decide (s = UbuntuStatus relPatch)
        then relPatches ++ [relPatch] else relPatches) relPatches fixStatus
    else relPatches) [] rels
  = filter (Spec.wantedUbuntu codeName fixStatus) rels.
Proof.
  intros Hnd.
  rewrite (foldl_omap
    (λ rel, if decide (Spec.wantedUbuntu codeName fixStatus rel) then Some rel else None)).
  - simpl. apply omap_filter.
  - intros acc rel. unfold Spec.wantedUbuntu.
    case_bool_decide as Hn.
    + rewrite ubuntu_status_loop by done.
      destruct (decide (UbuntuStatus rel ∈ fixStatus)) as [Hin|Hin];
        destruct (decide (_ ∧ _)) as [Hw|Hw]; try done.
      * exfalso. by apply Hw.
      * exfalso. by destruct Hw as [_ ?].
      * by rewrite app_nil_r.
    + rewrite decide_False; [done|]. by intros [? _].
Qed.

Lemma narrowUbuntu_spec codeName pkgName fixStatus patches :
  NoDup fixStatus →
  narrowUbuntu codeName pkgName fixStatus patches
  = Spec.keptUbuntu codeName pkgName fixStatus patches.
Proof.
  intros Hnd. unfold narrowUbuntu, Spec.keptUbuntu.
  rewrite <- (omap_keep (λ p, UbuntuPackageName p = pkgName) (λ p, ReleasePatches p ≠ [])).
  rewrite (foldl_omap (λ p,
    if decide (UbuntuPackageName p = pkgName) then
      if decide (ReleasePatches {| UbuntuPackageName := UbuntuPackageName p;
          ReleasePatches := filter (Spec.wantedUbuntu codeName fixStatus) (ReleasePatches p) |} ≠ [])
      then Some {| UbuntuPackageName := UbuntuPackageName p;
          ReleasePatches := filter (Spec.wantedUbuntu codeName fixStatus) (ReleasePatches p) |}
      else None
    else None)); [done|].
  intros acc p. rewrite ubuntu_release_loop, length_eqb_nil by done. simpl.
  case_bool_decide; destruct (decide (_ = pkgName)); try done.
  case_bool_decide; destruct (decide (_ ≠ [])); done.
Qed.

(** ** The specified narrowing, entry by entry *)

Lemma elem_of_kept_redhat major pkgName i red kept ps :
  Spec.narrowedRedhat major pkgName i red = Some kept →
  ps ∈ PackageState kept ↔ ps ∈ PackageState red ∧ Spec.survives major pkgName i ps.
Proof.
  unfold Spec.narrowedRedhat.
  destruct (filter _ _) as [|x l] eqn:Hf; [done|]. intros [= <-]. cbn [PackageState].
  rewrite <- Hf, list_elem_of_filter. split; intros [? ?]; by split.
Qed.

Lemma elem_of_keptDebian codeName pkgName wanted pkgs p' :
  p' ∈ Spec.keptDebian codeName pkgName wanted pkgs ↔
  ∃ p, p ∈ pkgs ∧ DebianPackageName p = pkgName ∧
       filter (Spec.wantedDebian codeName wanted) (Release p) ≠ [] ∧
       p' = {| DebianPackageName := DebianPackageName p;
               Release := filter (Spec.wantedDebian codeName wanted) (Release p) |}.
Proof.
  unfold Spec.keptDebian. rewrite list_elem_of_filter, list_elem_of_fmap. split.
  - intros (Hne & p & -> & [Hname Hp]%list_elem_of_filter). by exists p.
  - intros (p & Hp & Hname & Hne & ->). split; [done|].
    exists p. split; [done|]. by apply list_elem_of_filter.
Qed.

Lemma elem_of_wantedDebian codeName wanted (rels : list DebianRelease) rel :
  rel ∈ filter (Spec.wantedDebian codeName wanted) rels ↔
  rel ∈ rels ∧ ProductName rel = codeName ∧ DebianStatus rel ∈ wanted.
Proof.
  rewrite list_elem_of_filter. unfold Spec.wantedDebian.
  split; [intros [[? ?] ?] | intros (? & ? & ?)]; by repeat split.
Qed.

Lemma elem_of_keptUbuntu codeName pkgName wanted patches p' :
  p' ∈ Spec.keptUbuntu codeName pkgName wanted patches ↔
  ∃ p, p ∈ patches ∧ UbuntuPackageName p = pkgName ∧
       filter (Spec.wantedUbuntu codeName wanted) (ReleasePatches p) ≠ [] ∧
       p' = {| UbuntuPackageName := UbuntuPackageName p;
               ReleasePatches :=
                 filter (Spec.wantedUbuntu codeName wanted) (ReleasePatches p) |}.
Proof.
  unfold Spec.keptUbuntu. rewrite list_elem_of_filter, list_elem_of_fmap. split.
  - intros (Hne & p & -> & [Hname Hp]%list_elem_of_filter). by exists p.
  - intros (p & Hp & Hname & Hne & ->). split; [done|].
    exists p. split; [done|]. by apply list_elem_of_filter.
Qed.

Lemma elem_of_wantedUbuntu codeName wanted (rels : list UbuntuReleasePatch) rel :
  rel ∈ filter (Spec.wantedUbuntu codeName wanted) rels ↔
  rel ∈ rels ∧ ReleaseName rel = codeName ∧ UbuntuStatus rel ∈ wanted.
Proof.
  rewrite list_elem_of_filter. unfold Spec.wantedUbuntu.
  split; [intros [[? ?] ?] | intros (? & ? & ?)]; by repeat split.
Qed.

(** ** Reading does not change the store *)

Lemma exec_cmd_read_only s c : read_only c = true → (exec_cmd s c).1 = s.
Proof.
  destruct c; simpl; try discriminate; intros _;
    destruct (s !! key) as [[[h|z] t]|]; done.
Qed.

Lemma do_cmd_read c cn :
  read_only c = true →
  do_cmd c cn = ((exec_cmd (db cn) c).2, Conn (db cn) (sent cn ++ [[c]])).
Proof.
  intros Hro. unfold do_cmd.
  pose proof (exec_cmd_read_only (db cn) c Hro) as Hs.
  destruct (exec_cmd (db cn) c) as [s r]. simpl in *. by subst.
Qed.

(** The server never answers [Nil] to one of the driver's commands. *)
Lemma exec_cmd_not_nil s c : reply_err (exec_cmd s c).2 ≠ Some Nil.
Proof.
  destruct c; simpl; destruct (s !! key) as [[[h|z] [t|]]|]; simpl;
    try destruct (_ <=? _); simpl; congruence.
Qed.

Lemma exec_batch_not_nil cs s : first_err (exec_batch s cs).2 ≠ Some Nil.
Proof.
  revert s. induction cs as [|c cs IH]; intros s; simpl; [done|].
  pose proof (exec_cmd_not_nil s c) as Hc.
  destruct (exec_cmd s c) as [s1 r]. specialize (IH s1).
  destruct (exec_batch s1 cs) as [s2 rs]. simpl in *.
  destruct (reply_err r); congruence.
Qed.

(** A batch of reads leaves the store alone and answers each command as if
    it had been sent on its own. *)
Lemma exec_batch_reads cs s :
  Forall (λ c, read_only c = true) cs →
  exec_batch s cs = (s, (λ c, (exec_cmd s c).2) <$> cs).
Proof.
  induction 1 as [|c cs Hc _ IH]; simpl; [done|].
  pose proof (exec_cmd_read_only s c Hc) as Hs.
  destruct (exec_cmd s c) as [s1 r]. simpl in *. subst s1.
  by rewrite IH.
Qed.

(** Maps built by a loop of conditional stores. *)
Lemma foldl_insert_lookup {A} (g : string → option A) l (m : gmap string A) k :
  foldl (λ m id, match g id with Some d => <[id := d]> m | None => m end) m l !! k
  = match (if decide (k ∈ l) then g k else None) with
    | Some d => Some d
    | None => m !! k
    end.
Proof.
  revert m. induction l as [|x l IH]; intros m; cbn [foldl].
  - destruct (decide (k ∈ [])) as [Hin|Hin]; [by apply elem_of_nil in Hin|done].
  - rewrite IH. destruct (decide (k = x)) as [->|Hne].
    + destruct (decide (x ∈ x :: l)) as [_|Hn]; [|exfalso; apply Hn; left].
      destruct (decide (x ∈ l)); destruct (g x); try done.
      by rewrite lookup_insert_eq.
    + destruct (decide (k ∈ l)) as [Hin|Hin];
        destruct (decide (k ∈ x :: l)) as [Hin'|Hin'].
      * destruct (g k); [done|].
        destruct (g x); [by rewrite lookup_insert_ne|done].
      * exfalso. apply Hin'. by right.
      * exfalso. apply elem_of_cons in Hin' as [?|?]; done.
      * destruct (g x); [by rewrite lookup_insert_ne|done].
Qed.

(** A loop whose body only reads is a fold over the unchanged store. *)
Lemma forEach_reads {A S} (body : S → A → Client S) (step : store → S → A → S) l :
  (∀ acc x cn, ∃ log, body acc x cn = (step (db cn) acc x, Conn (db cn) log)) →
  ∀ acc cn, ∃ log, forEach body l acc cn = (foldl (step (db cn)) acc l, Conn (db cn) log).
Proof.
  intros Hbody. induction l as [|x l IH]; intros acc cn; simpl.
  - exists (sent cn). by destruct cn.
  - unfold bind. destruct (Hbody acc x cn) as [log ->].
    destruct (IH (step (db cn) acc x) (Conn (db cn) log)) as [log' ->].
    by exists log'.
Qed.

Section readers.

Context `{!JSON RedhatCVE, !JSON DebianCVE, !JSON UbuntuCVE, !JSON MicrosoftCVE}.
Variables debVerCodename ubuntuVerCodename : gmap string string.

Ltac reader_run :=
  intros; unfold loadRedhat, loadDebian, loadUbuntu, loadMicrosoft,
    GetRedhat, GetDebian, GetUbuntu, GetMicrosoft, bind;
  rewrite !do_cmd_read by done; simpl;
  repeat (match goal with
          | |- context [match ?x with _ => _ end] => destruct x; simpl
          end); done.

Lemma GetRedhat_run cveID cn :
  GetRedhat cveID cn
  = (loadRedhat (db cn) cveID, Conn (db cn) (sent cn ++ [[HGetAll (hashKeyPrefix +:+ cveID)]])).
Proof. reader_run. Qed.

Lemma GetDebian_run cveID cn :
  GetDebian cveID cn
  = (loadDebian (db cn) cveID, Conn (db cn) (sent cn ++ [[HGetAll (hashKeyPrefix +:+ cveID)]])).
Proof. reader_run. Qed.

Lemma GetUbuntu_run cveID cn :
  GetUbuntu cveID cn
  = (loadUbuntu (db cn) cveID, Conn (db cn) (sent cn ++ [[HGetAll (hashKeyPrefix +:+ cveID)]])).
Proof. reader_run. Qed.

Lemma GetMicrosoft_run cveID cn :
  GetMicrosoft cveID cn
  = (loadMicrosoft (db cn) cveID, Conn (db cn) (sent cn ++ [[HGetAll (hashKeyPrefix +:+ cveID)]])).
Proof. reader_run. Qed.

End readers.

(** ** The filtered readers *)

Section filtered.

Context `{!JSON RedhatCVE, !JSON DebianCVE, !JSON UbuntuCVE, !JSON MicrosoftCVE}.
Variables debVerCodename ubuntuVerCodename : gmap string string.

(** The answer of a loop of conditional stores started from the empty map. *)
Lemma selected_lookup {A} (g : string → option A) (narrow : A → option A) ids cveID :
  foldl (λ m id, store_if (g id ≫= narrow) id m) (∅ : gmap string A) ids !! cveID
  = Spec.selected ids g narrow cveID.
Proof.
  unfold store_if.
  rewrite (foldl_insert_lookup (λ id, g id ≫= narrow)). unfold Spec.selected.
  destruct (decide (cveID ∈ ids)); [|done].
  by destruct (g cveID ≫= narrow).
Qed.

Lemma candidates_err s key e :
  (exec_cmd s (ZRange key 0 (-1))).2 = RErr e → candidates s key = [].
Proof. unfold candidates. by intros ->. Qed.

Lemma getCvesDebianWithFixStatus_lookup major pkgName fixStatus cn cveID :
  (getCvesDebianWithFixStatus debVerCodename major pkgName fixStatus cn).1 !! cveID
  = codeName ← debVerCodename !! major;
    Spec.selected (candidates (db cn) (zindDebianPrefix +:+ pkgName))
      (loadDebian (db cn)) (Spec.narrowedDebian codeName pkgName [fixStatus]) cveID.
Proof.
  unfold getCvesDebianWithFixStatus.
  destruct (debVerCodename !! major) as [codeName|]; simpl; [|done].
  unfold bind. rewrite do_cmd_read by done.
  destruct (exec_cmd (db cn) (ZRange (zindDebianPrefix +:+ pkgName) 0 (-1))).2
    as [n|b|mm|ids|e] eqn:Hr; simpl;
    try (unfold candidates; rewrite Hr; simpl; unfold Spec.selected;
         by rewrite decide_False by apply not_elem_of_nil).
  set (cn1 := Conn _ _).
  edestruct (@forEach_reads string (gmap string DebianCVE)
    (λ (m : gmap string DebianCVE) cveID,
       deb <- GetDebian cveID ;;
       match deb with
       | None => ret m
       | Some deb =>
           let pkgs := narrowDebian codeName pkgName fixStatus (Package deb) in
           if negb (length pkgs =? 0)%nat
           then ret (<[cveID := {| DebianCveID := DebianCveID deb; Package := pkgs |}]> m)
           else ret m
       end)
    (λ s m id,
       store_if (loadDebian s id ≫= Spec.narrowedDebian codeName pkgName [fixStatus]) id m)
    ids) as [log Hrun]; [|rewrite Hrun].
  - intros m id c. unfold bind. rewrite GetDebian_run.
    destruct (loadDebian (db c) id) as [deb|]; simpl; [|by eexists].
    unfold store_if, Spec.narrowedDebian. rewrite narrowDebian_spec.
    destruct (Spec.keptDebian _ _ _ _); simpl; by eexists.
  - simpl. rewrite selected_lookup. unfold candidates. by rewrite Hr.
Qed.

Lemma getCvesUbuntuWithFixStatus_lookup major pkgName fixStatus cn cveID :
  NoDup fixStatus →
  (getCvesUbuntuWithFixStatus ubuntuVerCodename major pkgName fixStatus cn).1 !! cveID
  = codeName ← ubuntuVerCodename !! major;
    Spec.selected (candidates (db cn) (zindUbuntuPrefix +:+ pkgName))
      (loadUbuntu (db cn)) (Spec.narrowedUbuntu codeName pkgName fixStatus) cveID.
Proof.
  intros Hnd. unfold getCvesUbuntuWithFixStatus.
  destruct (ubuntuVerCodename !! major) as [codeName|]; simpl; [|done].
  unfold bind. rewrite do_cmd_read by done.
  destruct (exec_cmd (db cn) (ZRange (zindUbuntuPrefix +:+ pkgName) 0 (-1))).2
    as [n|b|mm|ids|e] eqn:Hr; simpl;
    try (unfold candidates; rewrite Hr; simpl; unfold Spec.selected;
         by rewrite decide_False by apply not_elem_of_nil).
  set (cn1 := Conn _ _).
  edestruct (@forEach_reads string (gmap string UbuntuCVE)
    (λ (m : gmap string UbuntuCVE) cveID,
       cve <- GetUbuntu cveID ;;
       match cve with
       | None => ret m
       | Some cve =>
           let patches := narrowUbuntu codeName pkgName fixStatus (Patches cve) in
           if negb (length patches =? 0)%nat
           then ret (<[cveID := {| Candidate := Candidate cve; Patches := patches |}]> m)
           else ret m
       end)
    (λ s m id,
       store_if (loadUbuntu s id ≫= Spec.narrowedUbuntu codeName pkgName fixStatus) id m)
    ids) as [log Hrun]; [|rewrite Hrun].
  - intros m id c. unfold bind. rewrite GetUbuntu_run.
    destruct (loadUbuntu (db c) id) as [cve|]; simpl; [|by eexists].
    unfold store_if, Spec.narrowedUbuntu. rewrite narrowUbuntu_spec by done.
    destruct (Spec.keptUbuntu _ _ _ _); simpl; by eexists.
  - simpl. rewrite selected_lookup. unfold candidates. by rewrite Hr.
Qed.

(** C1. The Debian and Ubuntu filtered readers answer, for an identifier,
    exactly the narrowed document of a candidate that loads: the sub-entries
    of the queried package, within them the releases of the resolved
    codename whose status is wanted ("open" or "resolved" for Debian,
    "needed"/"pending" or "released" for Ubuntu), sub-entries left without a
    release dropped, and no entry at all for a document left without a
    sub-entry. *)
Theorem filtered_debian_ubuntu_narrowing major pkgName cn cveID :
  (GetUnfixedCvesDebian debVerCodename major pkgName cn).1 !! cveID
  = (codeName ← debVerCodename !! major;
     Spec.selected (candidates (db cn) (zindDebianPrefix +:+ pkgName))
       (loadDebian (db cn)) (Spec.narrowedDebian codeName pkgName ["open"]) cveID)
  ∧
  (GetFixedCvesDebian debVerCodename major pkgName cn).1 !! cveID
  = (codeName ← debVerCodename !! major;
     Spec.selected (candidates (db cn) (zindDebianPrefix +:+ pkgName))
       (loadDebian (db cn)) (Spec.narrowedDebian codeName pkgName ["resolved"]) cveID)
  ∧
  (GetUnfixedCvesUbuntu ubuntuVerCodename major pkgName cn).1 !! cveID
  = (codeName ← ubuntuVerCodename !! major;
     Spec.selected (candidates (db cn) (zindUbuntuPrefix +:+ pkgName))
       (loadUbuntu (db cn))
       (Spec.narrowedUbuntu codeName pkgName ["needed"; "pending"]) cveID)
  ∧
  (GetFixedCvesUbuntu ubuntuVerCodename major pkgName cn).1 !! cveID
  = (codeName ← ubuntuVerCodename !! major;
     Spec.selected (candidates (db cn) (zindUbuntuPrefix +:+ pkgName))
       (loadUbuntu (db cn)) (Spec.narrowedUbuntu codeName pkgName ["released"]) cveID).
Proof.
  unfold GetUnfixedCvesDebian, GetFixedCvesDebian, GetUnfixedCvesUbuntu,
    GetFixedCvesUbuntu.
  repeat split.
  - apply getCvesDebianWithFixStatus_lookup.
  - apply getCvesDebianWithFixStatus_lookup.
  - apply getCvesUbuntuWithFixStatus_lookup.
    apply NoDup_cons; split; [|apply NoDup_singleton].
    intros Hin%list_elem_of_singleton. discriminate.
  - apply getCvesUbuntuWithFixStatus_lookup. apply NoDup_singleton.
Qed.

(** C2. The Red Hat reader answers, for an identifier, exactly the narrowed
    document of a candidate that loads: the package states that survive,
    that is those of the platform built from the major version and of the
    queried package whose fix state is neither "Not affected" nor "New" nor,
    when they are to be ignored, "Will not fix"; and no entry at all for a
    document without a surviving state. *)
Theorem redhat_unfixed_narrowing major pkgName ignoreWillNotFix cn cveID :
  (GetUnfixedCvesRedhat major pkgName ignoreWillNotFix cn).1 !! cveID
  = Spec.selected (candidates (db cn) (zindRedHatPrefix +:+ pkgName))
      (loadRedhat (db cn)) (Spec.narrowedRedhat major pkgName ignoreWillNotFix) cveID.
Proof.
  unfold GetUnfixedCvesRedhat. unfold bind. rewrite do_cmd_read by done.
  destruct (exec_cmd (db cn) (ZRange (zindRedHatPrefix +:+ pkgName) 0 (-1))).2
    as [n|b|mm|ids|e] eqn:Hr; simpl;
    try (unfold candidates; rewrite Hr; simpl; unfold Spec.selected;
         by rewrite decide_False by apply not_elem_of_nil).
  set (cn1 := Conn _ _).
  edestruct (@forEach_reads string (gmap string RedhatCVE)
    (λ (m : gmap string RedhatCVE) cveID,
       red <- GetRedhat cveID ;;
       match red with
       | None => ret m
       | Some red =>
           let pkgStats :=
             narrowRedhat ("cpe:/o:redhat:enterprise_linux:" +:+ major) pkgName
               ignoreWillNotFix (PackageState red) in
           if (length pkgStats =? 0)%nat then ret m
           else ret (<[cveID := {| Name := Name red; PackageState := pkgStats |}]> m)
       end)
    (λ s m id,
       store_if (loadRedhat s id ≫= Spec.narrowedRedhat major pkgName ignoreWillNotFix) id m)
    ids) as [log Hrun]; [|rewrite Hrun].
  - intros m id c. unfold bind. rewrite GetRedhat_run.
    destruct (loadRedhat (db c) id) as [red|]; simpl; [|by eexists].
    unfold store_if, Spec.narrowedRedhat.
    change ("cpe:/o:redhat:enterprise_linux:" +:+ major) with (Spec.redhatCpe major).
    rewrite narrowRedhat_spec.
    destruct (filter _ _); simpl; by eexists.
  - simpl. rewrite selected_lookup. unfold candidates. by rewrite Hr.
Qed.

End filtered.

(** ** The point and multi readers *)

Section point_multi.

Context `{!JSON RedhatCVE, !JSON DebianCVE, !JSON UbuntuCVE, !JSON MicrosoftCVE}.
Variables debVerCodename ubuntuVerCodename : gmap string string.

(** What [HGetAll] answers in terms of the store's fields. *)
Lemma HGetAll_field s key field :
  reply_err (exec_cmd s (HGetAll key)).2 = None →
  map_val (exec_cmd s (HGetAll key)).2 !! field = hfield s key field.
Proof.
  unfold hfield. simpl. destruct (s !! key) as [[[h|z] t]|]; simpl; try done.
Qed.

(** The point readers with a zero value are [decodeOne] on a reply without
    error. *)
Lemma loadRedhat_decode s cveID :
  reply_err (exec_cmd s (HGetAll (hashKeyPrefix +:+ cveID))).2 = None →
  loadRedhat s cveID
  = decodeOne "RedHat" Unmarshal zeroRedhatCVE (exec_cmd s (HGetAll (hashKeyPrefix +:+ cveID))).2.
Proof.
  intros Hok. unfold loadRedhat, GetRedhat, bind, decodeOne.
  rewrite do_cmd_read by done. cbn [db fst snd]. rewrite Hok.
  destruct (map_val _ !! "RedHat"); [|done]. by destruct (Unmarshal _).
Qed.

Lemma loadMicrosoft_decode s cveID :
  reply_err (exec_cmd s (HGetAll (hashKeyPrefix +:+ cveID))).2 = None →
  loadMicrosoft s cveID
  = decodeOne "Microsoft" Unmarshal zeroMicrosoftCVE
      (exec_cmd s (HGetAll (hashKeyPrefix +:+ cveID))).2.
Proof.
  intros Hok. unfold loadMicrosoft, GetMicrosoft, bind, decodeOne.
  rewrite do_cmd_read by done. cbn [db fst snd]. rewrite Hok.
  destruct (map_val _ !! "Microsoft"); [|done]. by destruct (Unmarshal _).
Qed.

(** C5 (as amended). When the read of the primary record succeeds and the
    vendor's field is not in the hash, [GetRedhat] and [GetMicrosoft] return
    a zero-valued document, while [GetDebian] and [GetUbuntu] return no
    result. *)
Theorem absent_field_point_read cveID cn :
  reply_err (exec_cmd (db cn) (HGetAll (hashKeyPrefix +:+ cveID))).2 = None →
  (hfield (db cn) (hashKeyPrefix +:+ cveID) "RedHat" = None →
   (GetRedhat cveID cn).1 = Some zeroRedhatCVE) ∧
  (hfield (db cn) (hashKeyPrefix +:+ cveID) "Microsoft" = None →
   (GetMicrosoft cveID cn).1 = Some zeroMicrosoftCVE) ∧
  (hfield (db cn) (hashKeyPrefix +:+ cveID) "Debian" = None →
   (GetDebian cveID cn).1 = None) ∧
  (hfield (db cn) (hashKeyPrefix +:+ cveID) "Ubuntu" = None →
   (GetUbuntu cveID cn).1 = None).
Proof.
  intros Hok. repeat split; intros Habs;
    rewrite <- (HGetAll_field _ _ _ Hok) in Habs.
  - rewrite GetRedhat_run. cbn [fst]. rewrite loadRedhat_decode by done.
    unfold decodeOne. by rewrite Habs.
  - rewrite GetMicrosoft_run. cbn [fst]. rewrite loadMicrosoft_decode by done.
    unfold decodeOne. by rewrite Habs.
  - unfold GetDebian, bind. rewrite do_cmd_read by done. cbn [fst snd].
    rewrite Hok, Habs. done.
  - unfold GetUbuntu, bind. rewrite do_cmd_read by done. cbn [fst snd].
    rewrite Hok, Habs. done.
Qed.

(** The command objects a multi reader collects: one per identifier, each
    holding what [HGetAll] answers for it. *)
Lemma collect_lookup (h : string → reply) ids (acc : gmap string reply) id :
  foldl (λ rs p, <[p.1 := p.2]> rs) acc (zip ids (h <$> ids)) !! id
  = if decide (id ∈ ids) then Some (h id) else acc !! id.
Proof.
  revert acc. induction ids as [|x ids IH]; intros acc; cbn [fmap list_fmap zip zip_with foldl].
  - destruct (decide (id ∈ [])) as [Hin|_]; [by apply elem_of_nil in Hin|done].
  - change (zip_with pair ids (list_fmap _ _ h ids)) with (zip ids (h <$> ids)).
    rewrite IH. cbn [fst snd].
    destruct (decide (id ∈ ids)) as [Hin|Hin];
      destruct (decide (id ∈ x :: ids)) as [Hin'|Hin']; try done.
    + exfalso. apply Hin'. by right.
    + apply elem_of_cons in Hin' as [->|?]; [|done]. by rewrite lookup_insert_eq.
    + rewrite lookup_insert_ne; [done|]. intros ->. apply Hin'. left.
Qed.

Lemma decodeAll_Some {A} field (unmarshal : string → option A) zero rs m :
  decodeAll field unmarshal zero rs = Some m →
  ∀ id, m !! id = rs !! id ≫= decodeOne field unmarshal zero.
Proof.
  unfold decodeAll. revert m.
  apply (map_fold_weak_ind (λ acc rs, ∀ m, acc = Some m →
    ∀ id, m !! id = rs !! id ≫= decodeOne field unmarshal zero)).
  - intros m [= <-] id. by rewrite !lookup_empty.
  - intros i r rs' acc Hi IH m Hm id.
    destruct acc as [m0|]; [|done]. specialize (IH m0 eq_refl).
    assert (∃ doc, decodeOne field unmarshal zero r = Some doc ∧ m = <[i := doc]> m0)
      as (doc & Hdoc & ->).
    { unfold decodeOne. destruct (map_val r !! field) as [j|].
      - destruct (unmarshal j) as [doc|]; [|done]. exists doc. by simplify_eq.
      - exists zero. by simplify_eq. }
    destruct (decide (i = id)) as [->|Hne].
    + by rewrite !lookup_insert_eq.
    + by rewrite !lookup_insert_ne.
Qed.

Lemma getMulti_Some {A} field (unmarshal : string → option A) zero ids cn m :
  (getMulti field unmarshal zero ids cn).1 = Some m →
  ∀ id d, m !! id = Some d →
    id ∈ ids ∧
    reply_err (exec_cmd (db cn) (HGetAll (hashKeyPrefix +:+ id))).2 = None ∧
    decodeOne field unmarshal zero (exec_cmd (db cn) (HGetAll (hashKeyPrefix +:+ id))).2
    = Some d.
Proof.
  unfold getMulti, bind, pipe_exec.
  assert (Forall (λ c, read_only c = true)
    ((λ cveID, HGetAll (hashKeyPrefix +:+ cveID)) <$> ids)) as Hro.
  { apply Forall_fmap, Forall_true. done. }
  pose proof (exec_batch_not_nil
    ((λ cveID, HGetAll (hashKeyPrefix +:+ cveID)) <$> ids) (db cn)) as Hnil.
  rewrite (exec_batch_reads _ _ Hro) in *. cbn [fst snd] in *.
  rewrite <- list_fmap_compose in *.
  set (h := λ id, (exec_cmd (db cn) (HGetAll (hashKeyPrefix +:+ id))).2).
  change ((λ c, (exec_cmd (db cn) c).2) ∘ (λ cveID, HGetAll (hashKeyPrefix +:+ cveID)))
    with h in *.
  destruct (first_err (h <$> ids)) as [e|] eqn:Herr.
  - case_bool_decide as He; cbn [fst]; [done|].
    exfalso. destruct e; [by apply Hnil | done].
  - cbn [fst]. intros Hdec id d Hd.
    rewrite (decodeAll_Some _ _ _ _ _ Hdec) in Hd.
    unfold collect in Hd. rewrite collect_lookup, lookup_empty in Hd.
    destruct (decide (id ∈ ids)) as [Hin|]; [|done].
    cbn in Hd. split; [done|]. split; [|done].
    clear -Herr Hin. induction ids as [|x ids IH]; [by apply elem_of_nil in Hin|].
    cbn in Herr. destruct (reply_err (h x)) eqn:Hx; [done|].
    apply elem_of_cons in Hin as [->|Hin]; [done|by apply IH].
Qed.

Lemma getMulti_error {A} field (unmarshal : string → option A) zero ids cn e :
  first_err (exec_batch (db cn) (multiPipe ids)).2 = Some e → e ≠ Nil →
  (getMulti field unmarshal zero ids cn).1 = None.
Proof.
  unfold getMulti, bind, pipe_exec, multiPipe. intros Herr He.
  destruct (exec_batch _ _) as [s rs]. cbn [fst snd] in *. rewrite Herr.
  by rewrite bool_decide_true.
Qed.

(** C6. A multi reader answers with identifiers of its input only, and with
    the document the point reader returns for each of them; when the
    pipeline fails with anything but [Nil] it answers nothing at all. *)
Theorem multi_get_consistency cveIDs cn :
  (∀ m, (GetRedhatMulti cveIDs cn).1 = Some m →
     ∀ id d, m !! id = Some d → id ∈ cveIDs ∧ (GetRedhat id cn).1 = Some d) ∧
  (∀ m, (GetMicrosoftMulti cveIDs cn).1 = Some m →
     ∀ id d, m !! id = Some d → id ∈ cveIDs ∧ (GetMicrosoft id cn).1 = Some d) ∧
  (∀ e, first_err (exec_batch (db cn) (multiPipe cveIDs)).2 = Some e → e ≠ Nil →
     (GetRedhatMulti cveIDs cn).1 = None ∧ (GetMicrosoftMulti cveIDs cn).1 = None).
Proof.
  split; [|split].
  - intros m Hm id d Hid.
    destruct (getMulti_Some _ _ _ _ _ _ Hm id d Hid) as (Hin & Hok & Hd).
    split; [done|].
    rewrite GetRedhat_run. cbn [fst]. by rewrite loadRedhat_decode.
  - intros m Hm id d Hid.
    destruct (getMulti_Some _ _ _ _ _ _ Hm id d Hid) as (Hin & Hok & Hd).
    split; [done|].
    rewrite GetMicrosoft_run. cbn [fst]. by rewrite loadMicrosoft_decode.
  - intros e Herr He. split; by apply (getMulti_error _ _ _ _ _ e).
Qed.

(** C7. For a major version the codename table does not know, a filtered
    reader returns the empty map and sends nothing: the connection is as it
    was, and there is no error for the caller to handle. *)
Theorem unmapped_major_is_empty major pkgName cn :
  (debVerCodename !! major = None →
   ∀ fixStatus,
     getCvesDebianWithFixStatus debVerCodename major pkgName fixStatus cn = (∅, cn)) ∧
  (ubuntuVerCodename !! major = None →
   ∀ fixStatus,
     getCvesUbuntuWithFixStatus ubuntuVerCodename major pkgName fixStatus cn = (∅, cn)).
Proof.
  split; intros Hnone fixStatus.
  - unfold getCvesDebianWithFixStatus. by rewrite Hnone.
  - unfold getCvesUbuntuWithFixStatus. by rewrite Hnone.
Qed.

End point_multi.

(** ** The store under the driver's writes *)

Lemma exec_batch_cons s c cs :
  exec_batch s (c :: cs)
  = ((exec_batch (exec_cmd s c).1 cs).1,
     (exec_cmd s c).2 :: (exec_batch (exec_cmd s c).1 cs).2).
Proof.
  change (exec_batch s (c :: cs)) with
    (let '(s1, r) := exec_cmd s c in
     let '(s2, rs) := exec_batch s1 cs in (s2, r :: rs)).
  destruct (exec_cmd s c) as [s1 r]. cbn [fst snd].
  by destruct (exec_batch s1 cs).
Qed.

Lemma exec_batch_app s cs1 cs2 :
  exec_batch s (cs1 ++ cs2)
  = ((exec_batch (exec_batch s cs1).1 cs2).1,
     (exec_batch s cs1).2 ++ (exec_batch (exec_batch s cs1).1 cs2).2).
Proof.
  revert s. induction cs1 as [|c cs1 IH]; intros s.
  - cbn [app exec_batch fst snd]. by destruct (exec_batch s cs2).
  - rewrite <- app_comm_cons, !exec_batch_cons, IH. done.
Qed.

Lemma first_err_app rs1 rs2 :
  first_err (rs1 ++ rs2) = None ↔ first_err rs1 = None ∧ first_err rs2 = None.
Proof.
  induction rs1 as [|r rs1 IH]; simpl.
  - split; [done | by intros [_ ?]].
  - destruct (reply_err r); [|done]. split; [done | by intros [? _]].
Qed.

Lemma hfield_insert s k e k' f :
  hfield (<[k := e]> s) k' f
  = if decide (k = k') then match value e with RHash h => h !! f | RZSet _ => None end
    else hfield s k' f.
Proof.
  unfold hfield. destruct (decide (k = k')) as [->|Hne].
  - rewrite lookup_insert_eq. by destruct e as [[h|z] t].
  - by rewrite lookup_insert_ne.
Qed.

Lemma zscore_insert s k e k' m :
  zscore (<[k := e]> s) k' m
  = if decide (k = k') then match value e with RZSet z => z !! m | RHash _ => None end
    else zscore s k' m.
Proof.
  unfold zscore. destruct (decide (k = k')) as [->|Hne].
  - rewrite lookup_insert_eq. by destruct e as [[h|z] t].
  - by rewrite lookup_insert_ne.
Qed.

Lemma key_ttl_insert s k e k' :
  key_ttl (<[k := e]> s) k' = if decide (k = k') then Some (ttl e) else key_ttl s k'.
Proof.
  unfold key_ttl. destruct (decide (k = k')) as [->|Hne].
  - by rewrite lookup_insert_eq.
  - by rewrite lookup_insert_ne.
Qed.

(** Case analysis on what the addressed key holds. *)
Ltac key_cases s k H :=
  destruct (s !! k) as [[[?h|?z] [?t|]]|] eqn:H;
  try match goal with
      | Hkeep : keeps (Expire _ ?d) |- _ =>
          cbn [keeps] in Hkeep;
          rewrite (proj2 (Z.leb_gt (formatSec d) 0) Hkeep)
      end;
  cbn [fst snd value ttl].

(** A write to a hash leaves every other field of every hash as it was. *)
Lemma exec_cmd_hfield_frame s c k f :
  keeps c → (∀ key v, c ≠ HSet key f v) →
  hfield (exec_cmd s c).1 k f = hfield s k f.
Proof.
  intros Hkeep Hc. destruct c as [key f' v|key d|key|key sc m|key|key a b]; simpl;
    key_cases s key Hk; try done;
    rewrite hfield_insert; destruct (decide (key = k)) as [<-|]; try done;
    unfold hfield; rewrite Hk; cbn [value]; try done.
  all: destruct (decide (f' = f)) as [->|Hne]; [by destruct (Hc key v)|].
  all: by rewrite ?lookup_insert_ne, ?lookup_singleton_ne.
Qed.

(** Only [ZAdd] changes a sorted set, and only the one it addresses. *)
Lemma exec_cmd_zscore_frame s c k m :
  keeps c → (∀ sc m', c ≠ ZAdd k sc m') →
  zscore (exec_cmd s c).1 k m = zscore s k m.
Proof.
  intros Hkeep Hc. destruct c as [key f' v|key d|key|key sc m'|key|key a b]; simpl;
    key_cases s key Hk; try done;
    rewrite zscore_insert; destruct (decide (key = k)) as [<-|]; try done;
    unfold zscore; rewrite Hk; cbn [value]; try done.
  all: by destruct (Hc sc m').
Qed.

(** A member with score 0 stays one under writes that only add with score 0. *)
Lemma exec_cmd_zscore_zero s c k m :
  keeps c → (∀ key sc m', c = ZAdd key sc m' → sc = 0) →
  zscore s k m = Some 0 → zscore (exec_cmd s c).1 k m = Some 0.
Proof.
  intros Hkeep Hc Hz. destruct c as [key f' v|key d|key|key sc m'|key|key a b]; simpl;
    key_cases s key Hk; try done;
    rewrite zscore_insert; destruct (decide (key = k)) as [<-|]; try done;
    unfold zscore in Hz; rewrite Hk in Hz; cbn [value] in *; try done.
  all: rewrite (Hc _ _ _ eq_refl).
  all: destruct (decide (m' = m)) as [->|]; [by rewrite lookup_insert_eq|].
  all: by rewrite lookup_insert_ne.
Qed.

(** A field that is set stays set. *)
Lemma exec_cmd_hfield_mono s c k f :
  keeps c → is_Some (hfield s k f) → is_Some (hfield (exec_cmd s c).1 k f).
Proof.
  intros Hkeep Hf. destruct c as [key f' v|key d|key|key sc m'|key|key a b]; simpl;
    key_cases s key Hk; try done;
    rewrite hfield_insert; destruct (decide (key = k)) as [<-|]; try done;
    unfold hfield in Hf; rewrite Hk in Hf; cbn [value] in *; try done;
    try (by destruct Hf).
  all: destruct (decide (f' = f)) as [->|]; [by rewrite lookup_insert_eq|].
  all: by rewrite lookup_insert_ne.
Qed.

(** A command changes nothing under a key it does not address. *)
Lemma exec_cmd_other_key s c k :
  cmd_key c ≠ k → (exec_cmd s c).1 !! k = s !! k.
Proof.
  intros Hne. destruct c as [key f v|key d|key|key sc m|key|key a b]; simpl in *;
    destruct (s !! key) as [[[h|z] [t|]]|]; cbn [fst]; try done;
    try destruct (_ <=? _); cbn [fst];
    by rewrite ?lookup_insert_ne, ?lookup_delete_ne.
Qed.

Lemma expire_duration_in_range expire :
  0 ≤ expire ≤ GoInt.max_expire →
  GoInt.expire_duration expire = expire * GoInt.Second.
Proof.
  unfold GoInt.expire_duration, GoInt.to_int64, GoInt.uint_mul, GoInt.uint_mod,
    GoInt.uint_bits, GoInt.int64_mod, GoInt.int64_half, GoInt.Second, GoInt.max_expire.
  intros Hr.
  rewrite (Z.mod_small (expire * 1000000000) (2 ^ 64)) by lia.
  rewrite Z.mod_small by lia.
  destruct (Z.ltb_spec (expire * 1000000000) (2 ^ 63)); lia.
Qed.

Lemma in_range_no_wrap expire : 0 ≤ expire ≤ GoInt.max_expire → ¬ wraps expire.
Proof.
  intros Hr [Hpos Hw]. rewrite expire_duration_in_range in Hw by done.
  unfold formatSec, GoInt.Second in Hw.
  destruct (_ && _); [lia|]. rewrite Z.quot_mul in Hw by lia. lia.
Qed.

Lemma retention_keeps expire k : ¬ wraps expire → Forall keeps (retention expire k).
Proof.
  intros Hw. unfold retention. destruct (0 <? expire) eqn:E.
  - repeat constructor. cbn. apply Z.ltb_lt in E. unfold wraps in Hw. lia.
  - by repeat constructor.
Qed.

(** What a write that succeeds leaves behind. *)
Lemma exec_cmd_ZAdd_ok s k sc m :
  reply_err (exec_cmd s (ZAdd k sc m)).2 = None →
  zscore (exec_cmd s (ZAdd k sc m)).1 k m = Some sc.
Proof.
  simpl. key_cases s k Hk; try done; intros _;
    rewrite zscore_insert, decide_True by done; cbn [value];
    by rewrite ?lookup_insert_eq, ?lookup_singleton_eq.
Qed.

Lemma exec_cmd_HSet_ok s k f v :
  reply_err (exec_cmd s (HSet k f v)).2 = None →
  hfield (exec_cmd s (HSet k f v)).1 k f = Some v.
Proof.
  simpl. key_cases s k Hk; try done; intros _;
    rewrite hfield_insert, decide_True by done; cbn [value];
    by rewrite ?lookup_insert_eq, ?lookup_singleton_eq.
Qed.

(** *** Lifting facts about one command to batches and runs of batches *)

Section lifting.
Variables (P : cmd → Prop) (I : store → Prop).
Hypothesis step : ∀ s c, P c → I s → I (exec_cmd s c).1.

Lemma exec_batch_preserves cs s :
  Forall P cs → I s → I (exec_batch s cs).1.
Proof.
  intros Hcs. revert s. induction Hcs as [|c cs Hc _ IH]; intros s Hs; [done|].
  rewrite exec_batch_cons. cbn [fst]. by apply IH, step.
Qed.

Lemma exec_batch_establishes c0 cs s :
  (∀ s, reply_err (exec_cmd s c0).2 = None → I (exec_cmd s c0).1) →
  Forall P cs → c0 ∈ cs → first_err (exec_batch s cs).2 = None →
  I (exec_batch s cs).1.
Proof.
  intros Hc0 Hcs. revert s.
  induction Hcs as [|c cs Hc Hcs IH]; intros s Hin Hok; [by apply elem_of_nil in Hin|].
  rewrite exec_batch_cons in *. cbn [fst snd first_err] in *.
  destruct (reply_err (exec_cmd s c).2) eqn:Hr; [done|].
  apply elem_of_cons in Hin as [->|Hin].
  - apply exec_batch_preserves; [done|]. by apply Hc0.
  - by apply IH.
Qed.

End lifting.

(** ** Runs of batches *)

Lemma pipe_exec_eq b cn :
  pipe_exec b cn = ((exec_batch (db cn) b).2, Conn (exec_batch (db cn) b).1 (sent cn ++ [b])).
Proof. unfold pipe_exec. by destruct (exec_batch (db cn) b). Qed.

Lemma run_batches_cons b bs cn :
  run_batches (b :: bs) cn = run_batches bs (pipe_exec b cn).2.
Proof. done. Qed.

Lemma run_batches_app bs1 bs2 cn :
  run_batches (bs1 ++ bs2) cn = run_batches bs2 (run_batches bs1 cn).
Proof. unfold run_batches. by rewrite foldl_app. Qed.

Lemma run_batches_sent bs cn : sent (run_batches bs cn) = sent cn ++ bs.
Proof.
  revert cn. induction bs as [|b bs IH]; intros cn.
  - by rewrite app_nil_r.
  - rewrite run_batches_cons, IH, pipe_exec_eq. cbn [snd sent].
    by rewrite <- app_assoc.
Qed.

Lemma all_ok_cons b bs s :
  all_ok (b :: bs) s
  = if first_err (exec_batch s b).2 is Some _ then false else all_ok bs (exec_batch s b).1.
Proof. cbn [all_ok]. by destruct (exec_batch s b). Qed.

Section runs.
Variables (P : cmd → Prop) (I : store → Prop).
Hypothesis step : ∀ s c, P c → I s → I (exec_cmd s c).1.

Lemma run_batches_preserves bs cn :
  Forall (Forall P) bs → I (db cn) → I (db (run_batches bs cn)).
Proof.
  intros Hbs. revert cn. induction Hbs as [|b bs Hb _ IH]; intros cn Hs; [done|].
  rewrite run_batches_cons. apply IH. rewrite pipe_exec_eq. cbn [snd db].
  by apply (exec_batch_preserves P I step).
Qed.

Lemma run_batches_establishes c0 b bs cn :
  (∀ s, reply_err (exec_cmd s c0).2 = None → I (exec_cmd s c0).1) →
  Forall (Forall P) bs → b ∈ bs → c0 ∈ b → all_ok bs (db cn) = true →
  I (db (run_batches bs cn)).
Proof.
  intros Hc0 Hbs. revert cn.
  induction Hbs as [|b' bs Hb Hbs IH]; intros cn Hin Hc Hok;
    [by apply elem_of_nil in Hin|].
  rewrite run_batches_cons. rewrite all_ok_cons in Hok.
  destruct (first_err (exec_batch (db cn) b').2) eqn:Herr; [done|].
  apply elem_of_cons in Hin as [->|Hin].
  - apply run_batches_preserves; [done|]. rewrite pipe_exec_eq. cbn [snd db].
    by apply (exec_batch_establishes P I step c0).
  - apply IH; try done. by rewrite pipe_exec_eq.
Qed.

End runs.

(** ** The loop over the records *)

Section insertEach.
Context {A : Type}.
Variables (marshal : A → option string) (queue : A → string → list cmd).

Lemma queued_cons_Some cve j cves :
  marshal cve = Some j →
  queued marshal queue (cve :: cves) = queue cve j :: queued marshal queue cves.
Proof. unfold queued. cbn. by intros ->. Qed.

Lemma queued_app cves1 cves2 :
  queued marshal queue (cves1 ++ cves2)
  = queued marshal queue cves1 ++ queued marshal queue cves2.
Proof. unfold queued. apply omap_app. Qed.

Lemma elem_of_queued b cves :
  b ∈ queued marshal queue cves ↔ ∃ cve j, cve ∈ cves ∧ marshal cve = Some j ∧ b = queue cve j.
Proof.
  unfold queued. rewrite list_elem_of_omap. split.
  - intros (cve & Hin & Hb). destruct (marshal cve) as [j|] eqn:Hj; [|done].
    exists cve, j. by simplify_eq/=.
  - intros (cve & j & Hin & Hj & ->). exists cve. by rewrite Hj.
Qed.

(** The loop runs the batches of a prefix of the records, in order, and
    returns no error only when it has run them all and all went well. *)
Lemma insertEach_run cves cn :
  ∃ ran rest,
    cves = ran ++ rest ∧
    Forall (λ cve, is_Some (marshal cve)) ran ∧
    (insertEach marshal queue cves cn).2 = run_batches (queued marshal queue ran) cn ∧
    ((insertEach marshal queue cves cn).1 = None →
       rest = [] ∧ all_ok (queued marshal queue ran) (db cn) = true).
Proof.
  revert cn. induction cves as [|cve cves IH]; intros cn.
  - exists [], []. done.
  - cbn [insertEach]. destruct (marshal cve) as [j|] eqn:Hj.
    + unfold bind. rewrite pipe_exec_eq.
      destruct (first_err (exec_batch (db cn) (queue cve j)).2) as [e|] eqn:Herr.
      * exists [cve], cves. split; [done|]. split; [by repeat constructor|].
        split; [|done]. rewrite (queued_cons_Some _ j) by done.
        rewrite run_batches_cons, pipe_exec_eq. done.
      * set (cn1 := Conn _ _).
        destruct (IH cn1) as (ran & rest & -> & Hran & Hrun & Hok).
        exists (cve :: ran), rest. split; [done|].
        split; [by constructor|]. split.
        -- rewrite (queued_cons_Some _ j), run_batches_cons, pipe_exec_eq by done.
           apply Hrun.
        -- intros Hnone. destruct (Hok Hnone) as [-> Hall]. split; [done|].
           rewrite (queued_cons_Some _ j), all_ok_cons, Herr by done. apply Hall.
    + exists [], (cve :: cves). done.
Qed.

(** Records whose batches go well are passed over. *)
Lemma insertEach_app pre rest cn :
  Forall (λ cve, is_Some (marshal cve)) pre →
  all_ok (queued marshal queue pre) (db cn) = true →
  insertEach marshal queue (pre ++ rest) cn
  = insertEach marshal queue rest (run_batches (queued marshal queue pre) cn).
Proof.
  intros Hpre. revert cn. induction Hpre as [|cve pre [j Hj] _ IH]; intros cn Hok; [done|].
  rewrite (queued_cons_Some _ j) in * by done.
  rewrite all_ok_cons in Hok. rewrite run_batches_cons.
  cbn [app insertEach]. rewrite Hj. unfold bind. rewrite !pipe_exec_eq. cbn [fst snd].
  destruct (first_err (exec_batch (db cn) (queue cve j)).2); [done|].
  rewrite IH; [done|]. apply Hok.
Qed.

(** The record whose batch fails ends the loop. *)
Lemma insertEach_fail cve j e rest cn :
  marshal cve = Some j →
  first_err (exec_batch (db cn) (queue cve j)).2 = Some e →
  insertEach marshal queue (cve :: rest) cn
  = (Some (ExecFailed e), run_batches [queue cve j] cn).
Proof.
  intros Hj Herr. cbn [insertEach]. rewrite Hj. unfold bind.
  rewrite run_batches_cons, !pipe_exec_eq. cbn [fst snd]. by rewrite Herr.
Qed.

End insertEach.

(** ** The batches of the four vendors *)

Lemma flat_map_fmap {A B C} (f : B → list C) (g : A → B) (l : list A) :
  flat_map f (g <$> l) = flat_map (f ∘ g) l.
Proof. induction l as [|x l IH]; [done|]. cbn. by rewrite <- IH. Qed.

(** A record's batch: the primary write, then one index write per
    sub-entry, each followed by its retention block. *)
Lemma record_batch_shape {B} expire field prefix cveID j (name : B → string) subs :
  foldl (λ pipe x,
    pipe ++ [ZAdd (prefix +:+ name x) 0 cveID] ++ retention expire (prefix +:+ name x))
    ([HSet (hashKeyPrefix +:+ cveID) field j] ++ retention expire (hashKeyPrefix +:+ cveID))
    subs
  = touchBlocks expire (recordWrites field prefix cveID j (name <$> subs)).
Proof.
  rewrite (foldl_flat_map
    (λ x, [ZAdd (prefix +:+ name x) 0 cveID] ++ retention expire (prefix +:+ name x)))
    by done.
  unfold touchBlocks, recordWrites, indexWrites. cbn [flat_map cmd_key].
  f_equal. rewrite <- !list_fmap_compose, flat_map_fmap. done.
Qed.

Lemma queueRedhat_shape expire cve j :
  queueRedhat expire cve j
  = touchBlocks expire (recordWrites "RedHat" zindRedHatPrefix (Name cve) j
      (RedhatPackageName <$> PackageState cve)).
Proof. apply record_batch_shape. Qed.

Lemma queueDebian_shape expire cve j :
  queueDebian expire cve j
  = touchBlocks expire (recordWrites "Debian" zindDebianPrefix (DebianCveID cve) j
      (DebianPackageName <$> Package cve)).
Proof. apply record_batch_shape. Qed.

Lemma queueUbuntu_shape expire cve j :
  queueUbuntu expire cve j
  = touchBlocks expire (recordWrites "Ubuntu" zindUbuntuPrefix (Candidate cve) j
      (UbuntuPackageName <$> Patches cve)).
Proof. apply record_batch_shape. Qed.

Lemma queueMicrosoft_shape expire cve j :
  queueMicrosoft expire cve j
  = touchBlocks expire (recordWrites "Microsoft" zindMicrosoftKBIDPrefix
      (MicrosoftCveID cve) j (KBID <$> KBIDs cve)).
Proof. apply record_batch_shape. Qed.

Lemma queueProducts_shape expire products :
  queueProducts expire products
  = touchBlocks expire (indexWrites zindMicrosoftProductIDPrefix
      ((λ p, (ProductID p, MicrosoftProductName p)) <$> products)).
Proof.
  unfold queueProducts.
  rewrite (foldl_flat_map (λ p,
    [ZAdd (zindMicrosoftProductIDPrefix +:+ ProductID p) 0 (MicrosoftProductName p)]
    ++ retention expire (zindMicrosoftProductIDPrefix +:+ ProductID p))) by done.
  unfold touchBlocks, indexWrites.
  rewrite <- !list_fmap_compose, flat_map_fmap. done.
Qed.

Lemma elem_of_touchBlocks expire w ws : w ∈ ws → w ∈ touchBlocks expire ws.
Proof.
  intros Hin. unfold touchBlocks. apply list_elem_of_In, in_flat_map.
  exists w. split; [by apply list_elem_of_In|]. by left.
Qed.

Lemma elem_of_indexWrites prefix entries n m :
  (n, m) ∈ entries → ZAdd (prefix +:+ n) 0 m ∈ indexWrites prefix entries.
Proof.
  intros Hin. unfold indexWrites. apply list_elem_of_fmap. by exists (n, m).
Qed.

Lemma elem_of_recordWrites_index field prefix cveID j names n :
  n ∈ names → ZAdd (prefix +:+ n) 0 cveID ∈ recordWrites field prefix cveID j names.
Proof.
  intros Hin. unfold recordWrites. right. apply elem_of_indexWrites.
  apply list_elem_of_fmap. by exists n.
Qed.

(** *** The commands are the vendor's own *)

Lemma has_prefix_app p rest : has_prefix p (p +:+ rest).
Proof. by exists rest. Qed.

Lemma own_retention v expire k :
  ¬ wraps expire → Forall (own_cmd v) (retention expire k).
Proof.
  intros Hw. unfold retention. destruct (0 <? expire) eqn:E; repeat constructor.
  cbn. apply Z.ltb_lt in E. unfold wraps in Hw. lia.
Qed.

Lemma touchBlocks_own v expire ws :
  ¬ wraps expire →
  Forall (λ w, is_write w = true ∧ own_cmd v w) ws →
  Forall (own_cmd v) (touchBlocks expire ws).
Proof.
  intros Hexp. induction 1 as [|w ws [Hw Hown] _ IH]; [constructor|].
  unfold touchBlocks. cbn [flat_map]. rewrite <- app_assoc.
  apply Forall_app. split; [by repeat constructor|].
  apply Forall_app. split; [by apply own_retention|done].
Qed.

Lemma indexWrites_own v prefix entries :
  prefix ∈ vprefixes v →
  Forall (λ w, is_write w = true ∧ own_cmd v w) (indexWrites prefix entries).
Proof.
  intros Hp. unfold indexWrites. apply Forall_fmap, Forall_true.
  intros [n m]. cbn. split; [done|]. split; [|done].
  exists prefix. split; [done|]. apply has_prefix_app.
Qed.

Lemma recordWrites_own v prefix cveID j names :
  prefix ∈ vprefixes v →
  Forall (λ w, is_write w = true ∧ own_cmd v w)
    (recordWrites (vfield v) prefix cveID j names).
Proof.
  intros Hp. unfold recordWrites. constructor.
  - cbn. split; [done|]. split; [apply has_prefix_app|done].
  - by apply indexWrites_own.
Qed.

Section own.
Context `{!JSON RedhatCVE, !JSON DebianCVE, !JSON UbuntuCVE, !JSON MicrosoftCVE}.

Lemma queueRedhat_own expire cve j :
  ¬ wraps expire → Forall (own_cmd RedHat) (queueRedhat expire cve j).
Proof.
  intros Hexp. rewrite queueRedhat_shape. apply touchBlocks_own; [done|].
  apply (recordWrites_own RedHat). cbn. left.
Qed.

Lemma queueDebian_own expire cve j :
  ¬ wraps expire → Forall (own_cmd Debian) (queueDebian expire cve j).
Proof.
  intros Hexp. rewrite queueDebian_shape. apply touchBlocks_own; [done|].
  apply (recordWrites_own Debian). cbn. left.
Qed.

Lemma queueUbuntu_own expire cve j :
  ¬ wraps expire → Forall (own_cmd Ubuntu) (queueUbuntu expire cve j).
Proof.
  intros Hexp. rewrite queueUbuntu_shape. apply touchBlocks_own; [done|].
  apply (recordWrites_own Ubuntu). cbn. left.
Qed.

Lemma queueMicrosoft_own expire cve j :
  ¬ wraps expire → Forall (own_cmd Microsoft) (queueMicrosoft expire cve j).
Proof.
  intros Hexp. rewrite queueMicrosoft_shape. apply touchBlocks_own; [done|].
  apply (recordWrites_own Microsoft). cbn. left.
Qed.

Lemma queueProducts_own expire products :
  ¬ wraps expire → Forall (own_cmd Microsoft) (queueProducts expire products).
Proof.
  intros Hexp. rewrite queueProducts_shape. apply touchBlocks_own; [done|].
  apply (indexWrites_own Microsoft). cbn. right. left.
Qed.

Lemma queued_own {A} v (marshal : A → option string) queue cves :
  (∀ cve j, Forall (own_cmd v) (queue cve j)) →
  Forall (Forall (own_cmd v)) (queued marshal queue cves).
Proof.
  intros Hq. apply Forall_forall. intros b (cve & j & _ & _ & ->)%elem_of_queued.
  apply Hq.
Qed.

End own.

(** *** What the vendor's own commands leave alone *)

Lemma own_cmd_score v c key sc m : own_cmd v c → c = ZAdd key sc m → sc = 0.
Proof. intros Hown ->. by destruct Hown. Qed.

Lemma own_cmd_field v c f : own_cmd v c → f ≠ vfield v → ∀ key x, c ≠ HSet key f x.
Proof. intros Hown Hf key x ->. destruct Hown as [_ ?]. done. Qed.

Lemma own_cmd_keeps v c : own_cmd v c → keeps c.
Proof. by destruct c. Qed.

Lemma index_prefixes_disjoint p q k :
  p ∈ index_prefixes → q ∈ index_prefixes → has_prefix p k → has_prefix q k → p = q.
Proof.
  unfold index_prefixes. intros Hp Hq [r ->] [r' Heq].
  repeat (apply elem_of_cons in Hp as [->|Hp]);
    try (by apply elem_of_nil in Hp);
    repeat (apply elem_of_cons in Hq as [->|Hq]);
    try (by apply elem_of_nil in Hq);
    cbn in Heq; by simplify_eq.
Qed.

Lemma vprefixes_index v p :
  v ∈ [RedHat; Debian; Ubuntu; Microsoft] → p ∈ vprefixes v → p ∈ index_prefixes.
Proof.
  intros Hv Hp. unfold index_prefixes.
  repeat (apply elem_of_cons in Hv as [->|Hv]); try (by apply elem_of_nil in Hv);
    cbn in Hp;
    repeat (apply elem_of_cons in Hp as [->|Hp]); try (by apply elem_of_nil in Hp);
    set_solver.
Qed.

(** *** Batches of own writes *)

Lemma own_write_cmd v w : own_write v w → is_write w = true ∧ own_cmd v w.
Proof.
  destruct w as [k f x|k d|k|k sc m|k|k a b]; cbn; try done.
  intros (Hk & _ & Hf). done.
Qed.

Lemma own_batch_cmds expire v b :
  ¬ wraps expire → own_batch expire v b → Forall (own_cmd v) b.
Proof.
  intros Hexp (ws & Hws & ->). apply touchBlocks_own; [done|].
  eapply Forall_impl; [exact Hws|]. apply own_write_cmd.
Qed.

(** An own write does not address a key under another vendor's prefix. *)
Lemma own_write_key v w p key :
  v ∈ [RedHat; Debian; Ubuntu; Microsoft] →
  own_write v w → p ∈ index_prefixes → p ∉ vprefixes v → has_prefix p key →
  cmd_key w ≠ key.
Proof.
  intros Hv Hown Hp Hnot Hkey.
  destruct w as [k f x|k d|k|k sc m|k|k a b]; cbn in *; try done; intros ->.
  - destruct Hown as (_ & Hplain & _). apply Hplain. by exists p.
  - destruct Hown as [(q & Hq & Hqk) _].
    apply Hnot. rewrite (index_prefixes_disjoint p q key); try done.
    by apply (vprefixes_index v).
Qed.

Lemma elem_of_touchBlocks_key expire ws c :
  c ∈ touchBlocks expire ws → ∃ w, w ∈ ws ∧ cmd_key c = cmd_key w.
Proof.
  unfold touchBlocks. intros Hc%list_elem_of_In. apply in_flat_map in Hc as (w & Hw & Hc).
  exists w. split; [by apply list_elem_of_In|].
  apply in_app_or in Hc as [Hc|Hc].
  - destruct Hc as [<-|[]]. done.
  - unfold retention in Hc. destruct (0 <? expire); destruct Hc as [<-|[]]; done.
Qed.

Lemma own_batch_keys expire v b p key :
  v ∈ [RedHat; Debian; Ubuntu; Microsoft] →
  own_batch expire v b → p ∈ index_prefixes → p ∉ vprefixes v → has_prefix p key →
  Forall (λ c, cmd_key c ≠ key) b.
Proof.
  intros Hv (ws & Hws & ->) Hp Hnot Hkey. apply Forall_forall.
  intros c (w & Hw & ->)%elem_of_touchBlocks_key.
  apply (own_write_key v w p); try done.
  by apply (proj1 (Forall_forall _ _) Hws).
Qed.

(** Batches of a vendor's own writes frame the rest of the store. *)
Lemma run_batches_frames expire v bs cn :
  v ∈ [RedHat; Debian; Ubuntu; Microsoft] →
  Forall (own_batch expire v) bs → frames expire v cn (run_batches bs cn).
Proof.
  intros Hv Hbs. split.
  - exists bs. split; [apply run_batches_sent|done].
  - intros p key Hp Hnot Hk.
    apply (run_batches_preserves (λ c, cmd_key c ≠ key)
      (λ s, s !! key = db cn !! key)); try done.
    + intros s c Hc <-. by apply exec_cmd_other_key.
    + eapply Forall_impl; [exact Hbs|]. intros b Hb. by apply (own_batch_keys expire v b p).
Qed.

Lemma run_batches_other_fields expire v bs cn :
  ¬ wraps expire →
  Forall (own_batch expire v) bs → other_fields_kept v cn (run_batches bs cn).
Proof.
  intros Hexp Hbs key field Hf.
  apply (run_batches_preserves (own_cmd v)
    (λ s, hfield s key field = hfield (db cn) key field)); try done.
  - intros s c Hown <-. apply exec_cmd_hfield_frame; [by apply (own_cmd_keeps v)|].
    by apply (own_cmd_field v).
  - eapply Forall_impl; [exact Hbs|]. intros b. by apply own_batch_cmds.
Qed.

Lemma indexWrites_own_write v prefix entries :
  prefix ∈ vprefixes v → Forall (own_write v) (indexWrites prefix entries).
Proof.
  intros Hp. unfold indexWrites. apply Forall_fmap, Forall_true.
  intros [n m]. cbn. split; [|done].
  exists prefix. split; [done|]. apply has_prefix_app.
Qed.

Lemma recordWrites_own_write v prefix cveID j names :
  prefix ∈ vprefixes v → plain cveID →
  Forall (own_write v) (recordWrites (vfield v) prefix cveID j names).
Proof.
  intros Hp Hplain. unfold recordWrites. constructor.
  - cbn. split; [apply has_prefix_app|done].
  - by apply indexWrites_own_write.
Qed.

Lemma recordWrites_are_writes field prefix cveID j names :
  Forall (λ w, is_write w = true) (recordWrites field prefix cveID j names).
Proof.
  unfold recordWrites, indexWrites. constructor; [done|].
  apply Forall_fmap, Forall_true. done.
Qed.

Lemma indexWrites_are_writes prefix entries :
  Forall (λ w, is_write w = true) (indexWrites prefix entries).
Proof. unfold indexWrites. apply Forall_fmap, Forall_true. done. Qed.

(** ** The write pipeline *)

Section write_pipeline.

Context `{!JSON RedhatCVE, !JSON DebianCVE, !JSON UbuntuCVE, !JSON MicrosoftCVE}.
Context {RedhatCVEJSON DebianJSON UbuntuCVEJSON : Type}.
Context {MicrosoftXML MicrosoftBulletinSearch : Type}.
Variable ConvertRedhat : list RedhatCVEJSON → option (list RedhatCVE).
Variable ConvertDebian : DebianJSON → list DebianCVE.
Variable ConvertUbuntu : list UbuntuCVEJSON → list UbuntuCVE.
Variable ConvertMicrosoft :
  list MicrosoftXML → list MicrosoftBulletinSearch →
  list MicrosoftCVE * list MicrosoftProduct.

(** After a loop that went well, an index write of any record has left its
    member in the index, with score 0. *)
Lemma insertEach_index {A} v (marshal : A → option string) queue cves cn cn' cve k m :
  (∀ c j, Forall (own_cmd v) (queue c j)) →
  insertEach marshal queue cves cn = (None, cn') →
  cve ∈ cves → (∀ j, ZAdd k 0 m ∈ queue cve j) →
  zscore (db cn') k m = Some 0.
Proof.
  intros Hown Hins Hcve Hadd.
  destruct (insertEach_run marshal queue cves cn) as (ran & rest & -> & Hran & Hrun & Hok).
  rewrite Hins in Hrun, Hok. cbn [fst snd] in *.
  destruct (Hok eq_refl) as [-> Hall]. rewrite app_nil_r in Hcve. subst cn'.
  destruct (proj1 (Forall_forall _ _) Hran cve Hcve) as [j Hj].
  apply (run_batches_establishes (own_cmd v) (λ s, zscore s k m = Some 0))
    with (c0 := ZAdd k 0 m) (b := queue cve j); try done.
  - intros s c Hc. apply exec_cmd_zscore_zero; [by apply (own_cmd_keeps v)|].
    intros ???. by apply (own_cmd_score v c).
  - intros s. apply exec_cmd_ZAdd_ok.
  - by apply queued_own.
  - apply elem_of_queued. by exists cve, j.
Qed.

(** C3. For a retention setting whose duration fits (0 to 9223372036
    seconds): after an [Insert] that returns no error, the index of every
    package (KBID, product) a document of the input refers to holds the
    document's CVE identifier (the product's name, for the product index)
    as a member with score 0. *)
Theorem insert_index_consistency expire :
  0 ≤ expire ≤ GoInt.max_expire →
  (∀ cveJSONs cves cn cn',
     ConvertRedhat cveJSONs = Some cves →
     InsertRedhat ConvertRedhat expire cveJSONs cn = (None, cn') →
     ∀ cve pkg, cve ∈ cves → pkg ∈ PackageState cve →
       zscore (db cn') (zindRedHatPrefix +:+ RedhatPackageName pkg) (Name cve) = Some 0) ∧
  (∀ cveJSONs cn cn',
     InsertDebian ConvertDebian expire cveJSONs cn = (None, cn') →
     ∀ cve pkg, cve ∈ ConvertDebian cveJSONs → pkg ∈ Package cve →
       zscore (db cn') (zindDebianPrefix +:+ DebianPackageName pkg) (DebianCveID cve)
       = Some 0) ∧
  (∀ cveJSONs cn cn',
     InsertUbuntu ConvertUbuntu expire cveJSONs cn = (None, cn') →
     ∀ cve pkg, cve ∈ ConvertUbuntu cveJSONs → pkg ∈ Patches cve →
       zscore (db cn') (zindUbuntuPrefix +:+ UbuntuPackageName pkg) (Candidate cve)
       = Some 0) ∧
  (∀ cveXMLs xls cn cn',
     InsertMicrosoft ConvertMicrosoft expire cveXMLs xls cn = (None, cn') →
     (∀ cve msKBID, cve ∈ (ConvertMicrosoft cveXMLs xls).1 → msKBID ∈ KBIDs cve →
        zscore (db cn') (zindMicrosoftKBIDPrefix +:+ KBID msKBID) (MicrosoftCveID cve)
        = Some 0) ∧
     (∀ p, p ∈ (ConvertMicrosoft cveXMLs xls).2 →
        zscore (db cn') (zindMicrosoftProductIDPrefix +:+ ProductID p)
          (MicrosoftProductName p) = Some 0)).
Proof.
  intros Hexp%in_range_no_wrap. split; [|split; [|split]].
  - intros cveJSONs cves cn cn' Hconv Hins cve pkg Hcve Hpkg.
    unfold InsertRedhat in Hins. rewrite Hconv in Hins.
    apply (insertEach_index RedHat Marshal (queueRedhat expire) cves cn cn' cve); [intros; by apply queueRedhat_own|done|done|].
    intros j. rewrite queueRedhat_shape.
    apply elem_of_touchBlocks, elem_of_recordWrites_index, list_elem_of_fmap.
    by exists pkg.
  - intros cveJSONs cn cn' Hins cve pkg Hcve Hpkg. unfold InsertDebian in Hins.
    apply (insertEach_index Debian Marshal (queueDebian expire) (ConvertDebian cveJSONs)
      cn cn' cve); [intros; by apply queueDebian_own|done|done|].
    intros j. rewrite queueDebian_shape.
    apply elem_of_touchBlocks, elem_of_recordWrites_index, list_elem_of_fmap.
    by exists pkg.
  - intros cveJSONs cn cn' Hins cve pkg Hcve Hpkg. unfold InsertUbuntu in Hins.
    apply (insertEach_index Ubuntu Marshal (queueUbuntu expire) (ConvertUbuntu cveJSONs)
      cn cn' cve); [intros; by apply queueUbuntu_own|done|done|].
    intros j. rewrite queueUbuntu_shape.
    apply elem_of_touchBlocks, elem_of_recordWrites_index, list_elem_of_fmap.
    by exists pkg.
  - intros cveXMLs xls cn cn' Hins. unfold InsertMicrosoft in Hins.
    destruct (ConvertMicrosoft cveXMLs xls) as [cves products]. cbn [fst snd].
    unfold bind in Hins. rewrite pipe_exec_eq in Hins.
    destruct (first_err (exec_batch (db cn) (queueProducts expire products)).2)
      eqn:Herr; [done|].
    split.
    + intros cve msKBID Hcve Hkb.
      eapply (insertEach_index Microsoft Marshal (queueMicrosoft expire) cves _ cn' cve); [intros; by apply queueMicrosoft_own|done|done|].
      intros j. rewrite queueMicrosoft_shape.
      apply elem_of_touchBlocks, elem_of_recordWrites_index, list_elem_of_fmap.
      by exists msKBID.
    + intros p Hp.
      destruct (insertEach_run Marshal (queueMicrosoft expire) cves
        (Conn (exec_batch (db cn) (queueProducts expire products)).1
           (sent cn ++ [queueProducts expire products])))
        as (ran & rest & _ & _ & Hrun & _).
      rewrite Hins in Hrun. cbn [snd] in Hrun. subst cn'.
      apply (run_batches_preserves (own_cmd Microsoft)
        (λ s, zscore s (zindMicrosoftProductIDPrefix +:+ ProductID p)
                (MicrosoftProductName p) = Some 0)).
      * intros s c Hc. apply exec_cmd_zscore_zero; [by apply (own_cmd_keeps Microsoft)|].
        intros ???. by apply (own_cmd_score Microsoft c).
      * apply queued_own. intros. by apply queueMicrosoft_own.
      * cbn [db].
        apply (exec_batch_establishes (own_cmd Microsoft)
          (λ s, zscore s (zindMicrosoftProductIDPrefix +:+ ProductID p)
                  (MicrosoftProductName p) = Some 0))
          with (c0 := ZAdd (zindMicrosoftProductIDPrefix +:+ ProductID p) 0
                        (MicrosoftProductName p)); try done.
        -- intros s c Hc.
           apply exec_cmd_zscore_zero; [by apply (own_cmd_keeps Microsoft)|].
           intros ???. by apply (own_cmd_score Microsoft c).
        -- intros s. apply exec_cmd_ZAdd_ok.
        -- by apply queueProducts_own.
        -- rewrite queueProducts_shape.
           apply elem_of_touchBlocks, elem_of_indexWrites, list_elem_of_fmap.
           by exists p.
Qed.

(** *** Failure of a record's batch *)

(** With a retention setting that does not wrap, no command of a batch
    deletes anything. *)
Lemma touchBlocks_keeps expire ws :
  ¬ wraps expire → Forall (λ w, is_write w = true) ws →
  Forall keeps (touchBlocks expire ws).
Proof.
  intros Hexp. induction 1 as [|w ws Hw _ IH]; [constructor|].
  unfold touchBlocks. cbn [flat_map]. rewrite <- app_assoc.
  apply Forall_app. split; [constructor; [by destruct w|constructor]|].
  apply Forall_app. split; [by apply retention_keeps|done].
Qed.

Lemma settles_keeps expire b : ¬ wraps expire → settles expire b → Forall keeps b.
Proof. intros Hexp (ws & Hws & ->). by apply touchBlocks_keeps. Qed.

(** What a record whose batch went well has written is still there after
    any further batches of the vendor's own commands. *)
Lemma earlier_records_remain {A} v (marshal : A → option string) queue expire prefix
    (cveID : A → string) (names : A → list string) pre more cn :
  (∀ c j, queue c j
          = touchBlocks expire (recordWrites (vfield v) prefix (cveID c) j (names c))) →
  (∀ c j, Forall (own_cmd v) (queue c j)) → Forall (Forall (own_cmd v)) more →
  Forall (λ c, is_Some (marshal c)) pre →
  all_ok (queued marshal queue pre) (db cn) = true →
  still_stored (vfield v) prefix cveID names pre
    (db (run_batches (queued marshal queue pre ++ more) cn)).
Proof.
  intros Hshape Hown Hmore Hpre Hok cve Hcve. rewrite run_batches_app.
  destruct (proj1 (Forall_forall _ _) Hpre cve Hcve) as [j Hj].
  assert (Forall (Forall (own_cmd v)) (queued marshal queue pre)) as Hpreown
    by by apply queued_own.
  assert (queue cve j ∈ queued marshal queue pre) as Hb
    by (apply elem_of_queued; by exists cve, j).
  split.
  - apply (run_batches_preserves (own_cmd v)
      (λ s, is_Some (hfield s (hashKeyPrefix +:+ cveID cve) (vfield v)))); [|done|].
    { intros s c Hc. apply exec_cmd_hfield_mono. by apply (own_cmd_keeps v). }
    apply (run_batches_establishes (own_cmd v)
      (λ s, is_Some (hfield s (hashKeyPrefix +:+ cveID cve) (vfield v))))
      with (c0 := HSet (hashKeyPrefix +:+ cveID cve) (vfield v) j) (b := queue cve j);
      try done.
    + intros s c Hc. apply exec_cmd_hfield_mono. by apply (own_cmd_keeps v).
    + intros s Hs. rewrite exec_cmd_HSet_ok by done. by eexists.
    + rewrite Hshape. apply elem_of_touchBlocks. left.
  - intros n Hn.
    assert (∀ s c, own_cmd v c →
      zscore s (prefix +:+ n) (cveID cve) = Some 0 →
      zscore (exec_cmd s c).1 (prefix +:+ n) (cveID cve) = Some 0) as Hstep.
    { intros s c Hc. apply exec_cmd_zscore_zero; [by apply (own_cmd_keeps v)|].
      intros ???. by apply (own_cmd_score v c). }
    apply (run_batches_preserves (own_cmd v)
      (λ s, zscore s (prefix +:+ n) (cveID cve) = Some 0)); [done|done|].
    apply (run_batches_establishes (own_cmd v)
      (λ s, zscore s (prefix +:+ n) (cveID cve) = Some 0))
      with (c0 := ZAdd (prefix +:+ n) 0 (cveID cve)) (b := queue cve j); try done.
    + intros s. apply exec_cmd_ZAdd_ok.
    + rewrite Hshape. by apply elem_of_touchBlocks, elem_of_recordWrites_index.
Qed.

Lemma insertEach_aborts {A} (marshal : A → option string) queue pre cve post j e cn :
  Forall (λ c, is_Some (marshal c)) pre →
  marshal cve = Some j →
  all_ok (queued marshal queue pre) (db cn) = true →
  first_err (exec_batch (db (run_batches (queued marshal queue pre) cn))
               (queue cve j)).2 = Some e →
  stops_at marshal queue pre cve j e cn
    (insertEach marshal queue (pre ++ cve :: post) cn).
Proof.
  intros Hpre Hj Hok Herr.
  assert (insertEach marshal queue (pre ++ cve :: post) cn
    = (Some (ExecFailed e), run_batches (queued marshal queue pre ++ [queue cve j]) cn))
    as Hout.
  { rewrite insertEach_app by done.
    rewrite (insertEach_fail _ _ cve j e) by done.
    by rewrite run_batches_app. }
  unfold stops_at. rewrite Hout. cbn [snd]. split; [done|]. apply run_batches_sent.
Qed.

Lemma insertEach_batch_per_record {A} (marshal : A → option string) queue cves cn :
  batch_per_record marshal queue cves cn (insertEach marshal queue cves cn).
Proof.
  destruct (insertEach_run marshal queue cves cn) as (ran & rest & Hcves & _ & Hrun & Hok).
  exists ran, rest. split; [done|]. split.
  - rewrite Hrun. apply run_batches_sent.
  - intros Hnone. by destruct (Hok Hnone).
Qed.

Lemma record_settles expire field prefix cveID j names :
  settles expire (touchBlocks expire (recordWrites field prefix cveID j names)).
Proof. eexists. split; [apply recordWrites_are_writes|done]. Qed.

Lemma queueProducts_settles expire products :
  settles expire (queueProducts expire products).
Proof.
  rewrite queueProducts_shape. eexists. split; [apply indexWrites_are_writes|done].
Qed.

(** The writes of a record, spelled out. *)
Lemma recordWrites_spelled {B} field prefix cveID j (name : B → string) subs :
  recordWrites field prefix cveID j (name <$> subs)
  = HSet (hashKeyPrefix +:+ cveID) field j
    :: ((λ x, ZAdd (prefix +:+ name x) 0 cveID) <$> subs).
Proof.
  unfold recordWrites, indexWrites. f_equal. by rewrite <- !list_fmap_compose.
Qed.

(** C8. The batch an [Insert] sends for a record holds the record's writes
    and nothing else: the primary [HSet] and one [ZAdd] per package, each
    followed by the retention command on the key just written.  The batches
    sent are those of the records, one batch per record and in order.  When
    the records before [cve] have gone through and a command of [cve]'s
    batch fails, the call returns that error at once and nothing of the
    records behind [cve] is sent; for a retention setting whose duration
    fits (0 to 9223372036 seconds), what the earlier batches wrote, primary
    record and index entries, is still in the store. *)
Theorem insert_aborts_without_rollback expire :
  (∀ cve j,
     queueRedhat expire cve j
     = flat_map (λ w, [w] ++ retention expire (cmd_key w))
         (HSet (hashKeyPrefix +:+ Name cve) "RedHat" j
          :: ((λ pkg, ZAdd (zindRedHatPrefix +:+ RedhatPackageName pkg) 0 (Name cve))
              <$> PackageState cve))) ∧
  (∀ cve j,
     queueDebian expire cve j
     = flat_map (λ w, [w] ++ retention expire (cmd_key w))
         (HSet (hashKeyPrefix +:+ DebianCveID cve) "Debian" j
          :: ((λ pkg, ZAdd (zindDebianPrefix +:+ DebianPackageName pkg) 0
                        (DebianCveID cve))
              <$> Package cve))) ∧
  (∀ cveJSONs cves cn,
     ConvertRedhat cveJSONs = Some cves →
     batch_per_record Marshal (queueRedhat expire) cves cn
       (InsertRedhat ConvertRedhat expire cveJSONs cn)) ∧
  (∀ cveJSONs cn,
     batch_per_record Marshal (queueDebian expire) (ConvertDebian cveJSONs) cn
       (InsertDebian ConvertDebian expire cveJSONs cn)) ∧
  (∀ cveJSONs pre cve post j e cn,
     ConvertRedhat cveJSONs = Some (pre ++ cve :: post) →
     Forall (λ c, is_Some (Marshal c)) pre → Marshal cve = Some j →
     all_ok (queued Marshal (queueRedhat expire) pre) (db cn) = true →
     first_err (exec_batch
       (db (run_batches (queued Marshal (queueRedhat expire) pre) cn))
       (queueRedhat expire cve j)).2 = Some e →
     stops_at Marshal (queueRedhat expire) pre cve j e cn
       (InsertRedhat ConvertRedhat expire cveJSONs cn) ∧
     (0 ≤ expire ≤ GoInt.max_expire →
      still_stored "RedHat" zindRedHatPrefix Name
        (λ c, RedhatPackageName <$> PackageState c) pre
        (db (InsertRedhat ConvertRedhat expire cveJSONs cn).2))) ∧
  (∀ cveJSONs pre cve post j e cn,
     ConvertDebian cveJSONs = pre ++ cve :: post →
     Forall (λ c, is_Some (Marshal c)) pre → Marshal cve = Some j →
     all_ok (queued Marshal (queueDebian expire) pre) (db cn) = true →
     first_err (exec_batch
       (db (run_batches (queued Marshal (queueDebian expire) pre) cn))
       (queueDebian expire cve j)).2 = Some e →
     stops_at Marshal (queueDebian expire) pre cve j e cn
       (InsertDebian ConvertDebian expire cveJSONs cn) ∧
     (0 ≤ expire ≤ GoInt.max_expire →
      still_stored "Debian" zindDebianPrefix DebianCveID
        (λ c, DebianPackageName <$> Package c) pre
        (db (InsertDebian ConvertDebian expire cveJSONs cn).2))).
Proof.
  split; [|split; [|split; [|split; [|split]]]].
  - intros cve j. rewrite queueRedhat_shape, recordWrites_spelled. done.
  - intros cve j. rewrite queueDebian_shape, recordWrites_spelled. done.
  - intros cveJSONs cves cn Hconv. unfold InsertRedhat. rewrite Hconv.
    apply insertEach_batch_per_record.
  - intros cveJSONs cn. apply insertEach_batch_per_record.
  - intros cveJSONs pre cve post j e cn Hconv Hpre Hj Hok Herr.
    unfold InsertRedhat. rewrite Hconv.
    pose proof (insertEach_aborts Marshal (queueRedhat expire) pre cve post j e cn
      Hpre Hj Hok Herr) as Hstop.
    split; [done|]. intros Hexp%in_range_no_wrap.
    destruct Hstop as [-> _]. cbn [snd].
    apply (earlier_records_remain RedHat Marshal (queueRedhat expire) expire); try done.
    + apply queueRedhat_shape.
    + intros. by apply queueRedhat_own.
    + repeat constructor. by apply queueRedhat_own.
  - intros cveJSONs pre cve post j e cn Hconv Hpre Hj Hok Herr.
    unfold InsertDebian. rewrite Hconv.
    pose proof (insertEach_aborts Marshal (queueDebian expire) pre cve post j e cn
      Hpre Hj Hok Herr) as Hstop.
    split; [done|]. intros Hexp%in_range_no_wrap.
    destruct Hstop as [-> _]. cbn [snd].
    apply (earlier_records_remain Debian Marshal (queueDebian expire) expire); try done.
    + apply queueDebian_shape.
    + intros. by apply queueDebian_own.
    + repeat constructor. by apply queueDebian_own.
Qed.

(** *** The order of the Microsoft batches *)

Lemma InsertMicrosoft_run expire cveXMLs xls cn :
  let cves := (ConvertMicrosoft cveXMLs xls).1 in
  let first := queueProducts expire (ConvertMicrosoft cveXMLs xls).2 in
  match first_err (exec_batch (db cn) first).2 with
  | Some e =>
      InsertMicrosoft ConvertMicrosoft expire cveXMLs xls cn
      = (Some (ExecFailed e), run_batches [first] cn)
  | None =>
      ∃ ran rest,
        cves = ran ++ rest ∧
        (InsertMicrosoft ConvertMicrosoft expire cveXMLs xls cn).2
        = run_batches (first :: queued Marshal (queueMicrosoft expire) ran) cn
  end.
Proof.
  unfold InsertMicrosoft.
  destruct (ConvertMicrosoft cveXMLs xls) as [cves products]. cbn [fst snd].
  unfold bind. rewrite run_batches_cons, !pipe_exec_eq. cbn [fst snd].
  destruct (first_err (exec_batch (db cn) (queueProducts expire products)).2) eqn:Herr.
  - done.
  - set (cn1 := Conn _ _).
    destruct (insertEach_run Marshal (queueMicrosoft expire) cves cn1)
      as (ran & rest & Hcves & _ & Hrun & _).
    exists ran, rest. split; [done|]. rewrite run_batches_cons, pipe_exec_eq. done.
Qed.

(** C9. [InsertMicrosoft] first runs one batch that holds the product index
    entries of every product and no other write; when that batch fails the
    call ends with nothing else sent, and otherwise the batches of the CVE
    records (primary record and KBID index entries) follow it, one per
    record. *)
Theorem microsoft_products_first expire cveXMLs xls cn :
  let cves := (ConvertMicrosoft cveXMLs xls).1 in
  let products := (ConvertMicrosoft cveXMLs xls).2 in
  let first := queueProducts expire products in
  let cn' := (InsertMicrosoft ConvertMicrosoft expire cveXMLs xls cn).2 in
  first = touchBlocks expire (indexWrites zindMicrosoftProductIDPrefix
            ((λ p, (ProductID p, MicrosoftProductName p)) <$> products)) ∧
  match first_err (exec_batch (db cn) first).2 with
  | Some e =>
      (InsertMicrosoft ConvertMicrosoft expire cveXMLs xls cn).1 = Some (ExecFailed e) ∧
      sent cn' = sent cn ++ [first]
  | None =>
      ∃ ran rest,
        cves = ran ++ rest ∧
        sent cn' = sent cn ++ first :: queued Marshal (queueMicrosoft expire) ran
  end.
Proof.
  intros cves products first cn'. split; [apply queueProducts_shape|].
  pose proof (InsertMicrosoft_run expire cveXMLs xls cn) as Hrun. cbn zeta in Hrun.
  subst cves products first cn'.
  destruct (first_err _).
  - rewrite Hrun. cbn [fst snd]. split; [done|]. apply run_batches_sent.
  - destruct Hrun as (ran & rest & Hcves & ->). exists ran, rest.
    split; [done|]. apply run_batches_sent.
Qed.

(** *** The frame of an [Insert] *)

Lemma record_own_batch expire v prefix cveID j names :
  prefix ∈ vprefixes v → plain cveID →
  own_batch expire v (touchBlocks expire (recordWrites (vfield v) prefix cveID j names)).
Proof. intros Hp Hplain. eexists. split; [by apply recordWrites_own_write|done]. Qed.

(** The batches of an [Insert] of records with plain identifiers are the
    vendor's own, whatever its outcome. *)
Lemma insertEach_own_batches {A} expire v (marshal : A → option string) queue cves cn :
  (∀ c j, c ∈ cves → own_batch expire v (queue c j)) →
  ∃ bs, (insertEach marshal queue cves cn).2 = run_batches bs cn ∧
        Forall (own_batch expire v) bs.
Proof.
  intros Hown.
  destruct (insertEach_run marshal queue cves cn) as (ran & rest & -> & _ & Hrun & _).
  exists (queued marshal queue ran). split; [done|].
  apply Forall_forall. intros b (c & j & Hc & _ & ->)%elem_of_queued.
  apply Hown. apply elem_of_app. by left.
Qed.

Lemma insert_own_batches expire cn :
  (∀ cveJSONs,
     (∀ cves, ConvertRedhat cveJSONs = Some cves →
        Forall (λ cve, plain (Name cve)) cves) →
     ∃ bs, (InsertRedhat ConvertRedhat expire cveJSONs cn).2 = run_batches bs cn ∧
           Forall (own_batch expire RedHat) bs) ∧
  (∀ cveJSONs,
     Forall (λ cve, plain (DebianCveID cve)) (ConvertDebian cveJSONs) →
     ∃ bs, (InsertDebian ConvertDebian expire cveJSONs cn).2 = run_batches bs cn ∧
           Forall (own_batch expire Debian) bs) ∧
  (∀ cveJSONs,
     Forall (λ cve, plain (Candidate cve)) (ConvertUbuntu cveJSONs) →
     ∃ bs, (InsertUbuntu ConvertUbuntu expire cveJSONs cn).2 = run_batches bs cn ∧
           Forall (own_batch expire Ubuntu) bs) ∧
  (∀ cveXMLs xls,
     Forall (λ cve, plain (MicrosoftCveID cve)) (ConvertMicrosoft cveXMLs xls).1 →
     ∃ bs, (InsertMicrosoft ConvertMicrosoft expire cveXMLs xls cn).2 = run_batches bs cn ∧
           Forall (own_batch expire Microsoft) bs).
Proof.
  split; [|split; [|split]].
  - intros cveJSONs Hplain. unfold InsertRedhat.
    destruct (ConvertRedhat cveJSONs) as [cves|]; [|by exists []].
    apply insertEach_own_batches.
    intros c j Hc. rewrite queueRedhat_shape.
    apply (record_own_batch expire RedHat); [left|].
    by apply (proj1 (Forall_forall _ _) (Hplain cves eq_refl)).
  - intros cveJSONs Hplain. apply insertEach_own_batches.
    intros c j Hc. rewrite queueDebian_shape.
    apply (record_own_batch expire Debian); [left|].
    by apply (proj1 (Forall_forall _ _) Hplain).
  - intros cveJSONs Hplain. apply insertEach_own_batches.
    intros c j Hc. rewrite queueUbuntu_shape.
    apply (record_own_batch expire Ubuntu); [left|].
    by apply (proj1 (Forall_forall _ _) Hplain).
  - intros cveXMLs xls Hplain.
    assert (own_batch expire Microsoft
      (queueProducts expire (ConvertMicrosoft cveXMLs xls).2)) as Hfirst.
    { rewrite queueProducts_shape. eexists. split; [|done].
      apply (indexWrites_own_write Microsoft). right. left. }
    pose proof (InsertMicrosoft_run expire cveXMLs xls cn) as Hrun. cbn zeta in Hrun.
    destruct (first_err _).
    + rewrite Hrun. cbn [snd]. eexists. split; [done|]. by repeat constructor.
    + destruct Hrun as (ran & rest & Hcves & ->). eexists. split; [done|].
      constructor; [done|].
      apply Forall_forall. intros b (c & j & Hc & _ & ->)%elem_of_queued.
      rewrite queueMicrosoft_shape.
      apply (record_own_batch expire Microsoft); [left|].
      apply (proj1 (Forall_forall _ _) Hplain). rewrite Hcves.
      apply elem_of_app. by left.
Qed.

(** C10. For records whose identifiers do not lead into the index part of
    the key space: an [Insert] of one vendor sends only batches made of
    writes of that vendor's field of a primary hash and of additions with
    score 0 under that vendor's index prefixes, each followed by the
    retention command on the key just written; whatever its outcome, every
    key under an index prefix of another vendor is as it was, and, for a
    retention setting whose duration fits (0 to 9223372036 seconds), so
    are the fields of the other vendors in every hash. *)
Theorem insert_frames_other_vendors expire cn :
  (∀ cveJSONs,
     (∀ cves, ConvertRedhat cveJSONs = Some cves →
        Forall (λ cve, plain (Name cve)) cves) →
     frames expire RedHat cn (InsertRedhat ConvertRedhat expire cveJSONs cn).2 ∧
     (0 ≤ expire ≤ GoInt.max_expire →
      other_fields_kept RedHat cn (InsertRedhat ConvertRedhat expire cveJSONs cn).2)) ∧
  (∀ cveJSONs,
     Forall (λ cve, plain (DebianCveID cve)) (ConvertDebian cveJSONs) →
     frames expire Debian cn (InsertDebian ConvertDebian expire cveJSONs cn).2 ∧
     (0 ≤ expire ≤ GoInt.max_expire →
      other_fields_kept Debian cn (InsertDebian ConvertDebian expire cveJSONs cn).2)) ∧
  (∀ cveJSONs,
     Forall (λ cve, plain (Candidate cve)) (ConvertUbuntu cveJSONs) →
     frames expire Ubuntu cn (InsertUbuntu ConvertUbuntu expire cveJSONs cn).2 ∧
     (0 ≤ expire ≤ GoInt.max_expire →
      other_fields_kept Ubuntu cn (InsertUbuntu ConvertUbuntu expire cveJSONs cn).2)) ∧
  (∀ cveXMLs xls,
     Forall (λ cve, plain (MicrosoftCveID cve)) (ConvertMicrosoft cveXMLs xls).1 →
     frames expire Microsoft cn
       (InsertMicrosoft ConvertMicrosoft expire cveXMLs xls cn).2 ∧
     (0 ≤ expire ≤ GoInt.max_expire →
      other_fields_kept Microsoft cn
        (InsertMicrosoft ConvertMicrosoft expire cveXMLs xls cn).2)).
Proof.
  destruct (insert_own_batches expire cn) as (HR & HD & HU & HM).
  split; [|split; [|split]].
  - intros cveJSONs Hplain. destruct (HR cveJSONs Hplain) as (bs & -> & Hbs). split.
    + apply run_batches_frames; [set_solver|done].
    + intros Hexp%in_range_no_wrap. by apply (run_batches_other_fields expire).
  - intros cveJSONs Hplain. destruct (HD cveJSONs Hplain) as (bs & -> & Hbs). split.
    + apply run_batches_frames; [set_solver|done].
    + intros Hexp%in_range_no_wrap. by apply (run_batches_other_fields expire).
  - intros cveJSONs Hplain. destruct (HU cveJSONs Hplain) as (bs & -> & Hbs). split.
    + apply run_batches_frames; [set_solver|done].
    + intros Hexp%in_range_no_wrap. by apply (run_batches_other_fields expire).
  - intros cveXMLs xls Hplain.
    destruct (HM cveXMLs xls Hplain) as (bs & -> & Hbs). split.
    + apply run_batches_frames; [set_solver|done].
    + intros Hexp%in_range_no_wrap. by apply (run_batches_other_fields expire).
Qed.

End write_pipeline.

(** ** Retention *)

(** A retention setting whose duration fits [time.Duration] is requested as
    it is; zero asks for no expiry. *)
Lemma target_ttl_in_range expire :
  0 < expire ≤ GoInt.max_expire → target_ttl expire = Some expire.
Proof.
  intros Hr. unfold target_ttl.
  rewrite (proj2 (Z.ltb_lt 0 expire)) by lia.
  rewrite expire_duration_in_range by lia.
  unfold formatSec, GoInt.Second.
  destruct (Z.ltb_spec 0 (expire * 1000000000)); [|lia].
  destruct (Z.ltb_spec (expire * 1000000000) 1000000000); [lia|].
  cbn [andb]. f_equal. apply Z.quot_mul. lia.
Qed.

Lemma target_ttl_zero : target_ttl 0 = None.
Proof. done. Qed.

(** Past that range the duration wraps around. *)
Lemma target_ttl_wraps : target_ttl (GoInt.max_expire + 1) = Some (- GoInt.max_expire).
Proof. done. Qed.

(** A write leaves its key in the store and no other key's time-to-live
    changed. *)
Lemma write_ttl s w :
  is_write w = true →
  is_Some ((exec_cmd s w).1 !! cmd_key w) ∧
  ∀ k, k ≠ cmd_key w → key_ttl (exec_cmd s w).1 k = key_ttl s k.
Proof.
  intros Hw. destruct w as [key f v|key d|key|key sc m|key|key a b]; try discriminate;
    cbn [exec_cmd cmd_key]; destruct (s !! key) as [[[h|z] t]|] eqn:Hk; cbn [fst];
    rewrite ?lookup_insert_eq, ?Hk; (split; [by eexists|]);
    intros k Hne; by rewrite ?key_ttl_insert, ?decide_False by done.
Qed.

(** The retention block on a key of the store sets its time-to-live and no
    other. *)
Lemma retention_ttl expire s k :
  ¬ wraps expire →
  is_Some (s !! k) →
  key_ttl (exec_batch s (retention expire k)).1 k = Some (target_ttl expire) ∧
  ∀ k', k' ≠ k → key_ttl (exec_batch s (retention expire k)).1 k' = key_ttl s k'.
Proof.
  intros Hexp [[v t] Hk]. unfold retention, target_ttl.
  destruct (0 <? expire) eqn:E; rewrite exec_batch_cons; cbn [exec_batch exec_cmd fst];
    rewrite Hk.
  - assert ((formatSec (GoInt.expire_duration expire) <=? 0) = false) as ->.
    { apply Z.leb_gt. apply Z.ltb_lt in E. unfold wraps in Hexp. lia. }
    cbn [fst]. split; [by rewrite key_ttl_insert, decide_True|].
    intros k' Hne. by rewrite key_ttl_insert, decide_False.
  - destruct t as [t|]; cbn [fst].
    + split; [by rewrite key_ttl_insert, decide_True|].
      intros k' Hne. by rewrite key_ttl_insert, decide_False.
    + split; [|done]. unfold key_ttl. by rewrite Hk.
Qed.

Lemma touch_block_ttl expire s w :
  ¬ wraps expire →
  is_write w = true →
  key_ttl (exec_batch s ([w] ++ retention expire (cmd_key w))).1 (cmd_key w)
  = Some (target_ttl expire) ∧
  ∀ k, k ≠ cmd_key w →
    key_ttl (exec_batch s ([w] ++ retention expire (cmd_key w))).1 k = key_ttl s k.
Proof.
  intros Hexp Hw. cbn [app]. rewrite exec_batch_cons. cbn [fst].
  destruct (write_ttl s w Hw) as [Hin Hother].
  destruct (retention_ttl expire _ _ Hexp Hin) as [Hset Hrest].
  split; [done|]. intros k Hne. by rewrite Hrest, Hother.
Qed.

Lemma retention_keys expire k c : c ∈ retention expire k → cmd_key c = k.
Proof.
  unfold retention. destruct (0 <? expire); by intros ->%list_elem_of_singleton.
Qed.

Lemma touchBlocks_keys expire ws k :
  k ∈ cmd_key <$> touchBlocks expire ws ↔ k ∈ cmd_key <$> ws.
Proof.
  rewrite !list_elem_of_fmap. split.
  - intros (c & -> & Hc). unfold touchBlocks in Hc.
    apply list_elem_of_In, in_flat_map in Hc as (w & Hw & Hc).
    exists w. split; [|by apply list_elem_of_In].
    apply list_elem_of_In in Hc. cbn [app] in Hc.
    apply elem_of_cons in Hc as [->|Hc]; [done|]. by apply (retention_keys expire).
  - intros (w & -> & Hw). exists w. split; [done|]. by apply elem_of_touchBlocks.
Qed.

Lemma touchBlocks_ttl expire ws s k :
  ¬ wraps expire →
  Forall (λ w, is_write w = true) ws →
  (k ∈ cmd_key <$> ws →
     key_ttl (exec_batch s (touchBlocks expire ws)).1 k = Some (target_ttl expire)) ∧
  (k ∉ cmd_key <$> ws →
     key_ttl (exec_batch s (touchBlocks expire ws)).1 k = key_ttl s k).
Proof.
  intros Hexp Hws. revert s. induction Hws as [|w ws Hw _ IH]; intros s.
  - split; [|done]. by intros ?%elem_of_nil.
  - change (touchBlocks expire (w :: ws))
      with (([w] ++ retention expire (cmd_key w)) ++ touchBlocks expire ws).
    rewrite exec_batch_app. cbn [fst].
    destruct (touch_block_ttl expire s w Hexp Hw) as [Hset Hrest].
    destruct (IH (exec_batch s ([w] ++ retention expire (cmd_key w))).1) as [IH1 IH2].
    rewrite fmap_cons. split.
    + intros Hin. destruct (decide (k ∈ cmd_key <$> ws)) as [Hlater|Hnot].
      * by apply IH1.
      * rewrite IH2 by done.
        apply elem_of_cons in Hin as [->|Hin]; done.
    + intros Hnone. apply not_elem_of_cons in Hnone as [Hne Hnot].
      rewrite IH2 by done. by apply Hrest.
Qed.

Lemma batch_ttl expire b s k :
  ¬ wraps expire →
  settles expire b →
  (k ∈ cmd_key <$> b → key_ttl (exec_batch s b).1 k = Some (target_ttl expire)) ∧
  (k ∉ cmd_key <$> b → key_ttl (exec_batch s b).1 k = key_ttl s k).
Proof.
  intros Hexp (ws & Hws & ->). rewrite touchBlocks_keys. by apply touchBlocks_ttl.
Qed.

Lemma run_batches_retained expire bs cn :
  ¬ wraps expire →
  Forall (settles expire) bs → retained expire cn (run_batches bs cn).
Proof.
  intros Hexp Hbs. exists bs. split; [apply run_batches_sent|].
  induction bs as [|b bs IH] using rev_ind; [by intros ?? ?%elem_of_nil|].
  apply Forall_app in Hbs as [Hbs Hb]. apply Forall_inv in Hb.
  intros b' c Hb' Hc. rewrite run_batches_app. cbn [run_batches foldl].
  rewrite pipe_exec_eq. cbn [snd db].
  destruct (decide (cmd_key c ∈ cmd_key <$> b)) as [Hlast|Hnot].
  - by apply (batch_ttl expire b).
  - rewrite (proj2 (batch_ttl expire b _ (cmd_key c) Hexp Hb)) by done.
    apply elem_of_app in Hb' as [Hb'|Hb'%list_elem_of_singleton].
    + by apply (IH Hbs b').
    + subst b'. exfalso. apply Hnot. by apply list_elem_of_fmap_2.
Qed.


(** *** Retention of the keys an [Insert] touches *)

Section retention.

Context `{!JSON RedhatCVE, !JSON DebianCVE, !JSON UbuntuCVE, !JSON MicrosoftCVE}.
Context {RedhatCVEJSON DebianJSON UbuntuCVEJSON : Type}.
Context {MicrosoftXML MicrosoftBulletinSearch : Type}.
Variable ConvertRedhat : list RedhatCVEJSON → option (list RedhatCVE).
Variable ConvertDebian : DebianJSON → list DebianCVE.
Variable ConvertUbuntu : list UbuntuCVEJSON → list UbuntuCVE.
Variable ConvertMicrosoft :
  list MicrosoftXML → list MicrosoftBulletinSearch →
  list MicrosoftCVE * list MicrosoftProduct.

Lemma insertEach_retained {A} expire (marshal : A → option string) queue cves cn :
  ¬ wraps expire →
  (∀ c j, settles expire (queue c j)) →
  retained expire cn (insertEach marshal queue cves cn).2.
Proof.
  intros Hexp Hq.
  destruct (insertEach_run marshal queue cves cn) as (ran & rest & _ & _ & -> & _).
  apply run_batches_retained; [done|]. apply Forall_forall.
  intros b (cve & j & _ & _ & ->)%elem_of_queued. apply Hq.
Qed.

Lemma retained_refl expire cn : retained expire cn cn.
Proof.
  exists []. split; [by rewrite app_nil_r|]. by intros ?? ?%elem_of_nil.
Qed.

(** For a setting whose retention block deletes nothing, every key an
    [Insert] touches ends with the time-to-live that block requests. *)
Lemma insert_applies_retention expire cn :
  ¬ wraps expire →
  (∀ cveJSONs, retained expire cn (InsertRedhat ConvertRedhat expire cveJSONs cn).2) ∧
  (∀ cveJSONs, retained expire cn (InsertDebian ConvertDebian expire cveJSONs cn).2) ∧
  (∀ cveJSONs, retained expire cn (InsertUbuntu ConvertUbuntu expire cveJSONs cn).2) ∧
  (∀ cveXMLs xls,
     retained expire cn (InsertMicrosoft ConvertMicrosoft expire cveXMLs xls cn).2).
Proof.
  intros Hexp. split; [|split; [|split]].
  - intros cveJSONs. unfold InsertRedhat.
    destruct (ConvertRedhat cveJSONs) as [cves|]; [|apply retained_refl].
    apply insertEach_retained; [done|]. intros c j. rewrite queueRedhat_shape.
    apply record_settles.
  - intros cveJSONs. apply insertEach_retained; [done|]. intros c j.
    rewrite queueDebian_shape. apply record_settles.
  - intros cveJSONs. apply insertEach_retained; [done|]. intros c j.
    rewrite queueUbuntu_shape. apply record_settles.
  - intros cveXMLs xls.
    pose proof (InsertMicrosoft_run ConvertMicrosoft expire cveXMLs xls cn) as Hrun.
    cbn zeta in Hrun. destruct (first_err _).
    + rewrite Hrun. cbn [snd]. apply run_batches_retained; [done|].
      repeat constructor. apply queueProducts_settles.
    + destruct Hrun as (ran & rest & _ & ->). apply run_batches_retained; [done|].
      constructor; [apply queueProducts_settles|].
      apply Forall_forall. intros b (cve & j & _ & _ & ->)%elem_of_queued.
      rewrite queueMicrosoft_shape. apply record_settles.
Qed.

(** For a setting of [N] seconds that fits, that time-to-live is [N]
    seconds, and for the setting zero it is none. *)
Lemma retained_in_range expire cn cn' :
  0 ≤ expire ≤ GoInt.max_expire →
  retained expire cn cn' →
  ∃ bs, sent cn' = sent cn ++ bs ∧
    ∀ b c, b ∈ bs → c ∈ b →
      key_ttl (db cn') (cmd_key c)
      = Some (if decide (expire = 0) then None else Some expire).
Proof.
  intros Hr (bs & Hsent & Httl).
  exists bs. split; [done|]. intros b c Hb Hc. rewrite (Httl b c Hb Hc).
  destruct (decide (expire = 0)) as [->|Hne]; [done|].
  by rewrite target_ttl_in_range by lia.
Qed.

End retention.

(** * Further facts *)

(** ** One key at a time *)

Lemma key_kind_insert s k e k' :
  key_kind (<[k := e]> s) k'
  = if decide (k = k')
    then Some (match value e with RHash _ => KHash | RZSet _ => KZSet end)
    else key_kind s k'.
Proof.
  unfold key_kind. destruct (decide (k = k')) as [->|Hne].
  - rewrite lookup_insert_eq. by destruct e as [[h|z] t].
  - by rewrite lookup_insert_ne.
Qed.

(** A key that is there keeps its kind under every command that deletes
    nothing. *)
Lemma exec_cmd_kind_stable s c k x :
  keeps c → key_kind s k = Some x → key_kind (exec_cmd s c).1 k = Some x.
Proof.
  intros Hkeep Hx. destruct c as [key f v|key d|key|key sc m|key|key a b]; simpl;
    key_cases s key Hk; try done;
    rewrite key_kind_insert; destruct (decide (key = k)) as [<-|]; try done;
    unfold key_kind in Hx; rewrite Hk in Hx; done.
Qed.

(** Only a write to a key that is not there yet brings a key in. *)
Lemma exec_cmd_kind_other s c k :
  keeps c → (∀ f v, c ≠ HSet k f v) → (∀ sc m, c ≠ ZAdd k sc m) →
  key_kind (exec_cmd s c).1 k = key_kind s k.
Proof.
  intros Hkeep Hh Hz. destruct c as [key f v|key d|key|key sc m|key|key a b]; simpl;
    key_cases s key Hk; try done;
    rewrite key_kind_insert; destruct (decide (key = k)) as [<-|]; try done;
    unfold key_kind; rewrite ?Hk; try done.
  all: try (by destruct (Hh f v)); by destruct (Hz sc m).
Qed.

Lemma exec_cmd_kind_HSet s k f v :
  key_kind (exec_cmd s (HSet k f v)).1 k
  = Some (default KHash (key_kind s k)).
Proof.
  simpl. unfold key_kind at 2. key_cases s k Hk; cbn [default];
    rewrite ?key_kind_insert, ?decide_True by done; try done;
    unfold key_kind; by rewrite Hk.
Qed.

Lemma exec_cmd_kind_ZAdd s k sc m :
  key_kind (exec_cmd s (ZAdd k sc m)).1 k
  = Some (default KZSet (key_kind s k)).
Proof.
  simpl. unfold key_kind at 2. key_cases s k Hk; cbn [default];
    rewrite ?key_kind_insert, ?decide_True by done; try done;
    unfold key_kind; by rewrite Hk.
Qed.

(** A write fails on a key of the other kind, and only then; the other
    commands of the driver's batches do not fail. *)
Lemma exec_cmd_HSet_err s k f v :
  reply_err (exec_cmd s (HSet k f v)).2 = None ↔ key_kind s k ≠ Some KZSet.
Proof. simpl. unfold key_kind. key_cases s k Hk; cbn [reply_err]; naive_solver. Qed.

Lemma exec_cmd_ZAdd_err s k sc m :
  reply_err (exec_cmd s (ZAdd k sc m)).2 = None ↔ key_kind s k ≠ Some KHash.
Proof. simpl. unfold key_kind. key_cases s k Hk; cbn [reply_err]; naive_solver. Qed.

Lemma exec_cmd_retention_ok s c :
  (∃ k d, c = Expire k d) ∨ (∃ k, c = Persist k) → reply_err (exec_cmd s c).2 = None.
Proof.
  intros [(k & d & ->)|(k & ->)]; simpl; key_cases s k Hk;
    try destruct (_ <=? _); done.
Qed.

(** A field of a hash changes only under a write of that field of that
    hash. *)
Lemma exec_cmd_hfield_key s c k f :
  keeps c → (∀ v, c ≠ HSet k f v) →
  hfield (exec_cmd s c).1 k f = hfield s k f.
Proof.
  intros Hkeep Hc. destruct c as [key f' v|key d|key|key sc m|key|key a b]; simpl;
    key_cases s key Hk; try done;
    rewrite hfield_insert; destruct (decide (key = k)) as [<-|]; try done;
    unfold hfield; rewrite Hk; cbn [value]; try done.
  all: destruct (decide (f' = f)) as [->|Hne]; [by destruct (Hc v)|].
  all: by rewrite ?lookup_insert_ne, ?lookup_singleton_ne.
Qed.

(** A member of a sorted set stays one. *)
Lemma exec_cmd_zscore_mono s c k m :
  keeps c → is_Some (zscore s k m) → is_Some (zscore (exec_cmd s c).1 k m).
Proof.
  intros Hkeep Hz. destruct c as [key f' v|key d|key|key sc m'|key|key a b]; simpl;
    key_cases s key Hk; try done;
    rewrite zscore_insert; destruct (decide (key = k)) as [<-|]; try done;
    unfold zscore in Hz; rewrite Hk in Hz; cbn [value] in *; try done;
    try (by destruct Hz).
  all: destruct (decide (m' = m)) as [->|]; [by rewrite lookup_insert_eq|].
  all: by rewrite lookup_insert_ne.
Qed.

(** What a key holds, seen through [HGetAll]. *)
Lemma hfield_HGetAll s k f j :
  hfield s k f = Some j →
  reply_err (exec_cmd s (HGetAll k)).2 = None ∧
  map_val (exec_cmd s (HGetAll k)).2 !! f = Some j.
Proof.
  unfold hfield. simpl. destruct (s !! k) as [[[h|z] t]|]; try done.
Qed.

Lemma HGetAll_kind s k :
  (exec_cmd s (HGetAll k)).2
  = match s !! k with
    | None => RMap ∅
    | Some (Entry (RHash h) _) => RMap h
    | Some (Entry (RZSet _) _) => RErr WrongType
    end.
Proof. simpl. by destruct (s !! k) as [[[h|z] t]|]. Qed.

(** ** Batches as one run of blocks *)

Lemma touchBlocks_cons expire w ws :
  touchBlocks expire (w :: ws)
  = ([w] ++ retention expire (cmd_key w)) ++ touchBlocks expire ws.
Proof. done. Qed.

Lemma touchBlocks_app expire ws1 ws2 :
  touchBlocks expire (ws1 ++ ws2) = touchBlocks expire ws1 ++ touchBlocks expire ws2.
Proof. unfold touchBlocks. apply flat_map_app. Qed.

Lemma run_batches_db bs cn :
  db (run_batches bs cn) = (exec_batch (db cn) (concat bs)).1.
Proof.
  revert cn. induction bs as [|b bs IH]; intros cn; [done|].
  rewrite run_batches_cons, IH, pipe_exec_eq. cbn [snd db concat].
  by rewrite exec_batch_app.
Qed.

Lemma all_ok_concat bs s :
  all_ok bs s = true ↔ first_err (exec_batch s (concat bs)).2 = None.
Proof.
  revert s. induction bs as [|b bs IH]; intros s; [by cbn|].
  rewrite all_ok_cons. cbn [concat]. rewrite exec_batch_app. cbn [snd].
  rewrite first_err_app, <- IH.
  destruct (first_err (exec_batch s b).2).
  - split; [done | by intros [? _]].
  - split; [done | by intros [_ ?]].
Qed.

Lemma settles_concat expire bs :
  Forall (settles expire) bs → settles expire (concat bs).
Proof.
  induction 1 as [|b bs (ws & Hws & ->) _ (wss & Hwss & IH)].
  - by exists [].
  - exists (ws ++ wss). split; [by apply Forall_app|].
    cbn [concat]. by rewrite IH, touchBlocks_app.
Qed.

(** ** A retention setting that wraps

    When the duration computed from the setting is sent as zero seconds or
    less, the retention command that follows a write deletes the key just
    written, whether the write went through or not. *)

Lemma retention_wraps expire k :
  wraps expire → retention expire k = [Expire k (GoInt.expire_duration expire)].
Proof.
  intros [Hpos _]. unfold retention. by rewrite (proj2 (Z.ltb_lt 0 expire)).
Qed.

Lemma exec_cmd_Expire_wraps expire s k :
  wraps expire → is_Some (s !! k) →
  (exec_cmd s (Expire k (GoInt.expire_duration expire))).1 = delete k s.
Proof.
  intros [_ Hle] [[v t] Hk]. cbn [exec_cmd]. rewrite Hk.
  by rewrite (proj2 (Z.leb_le _ 0) Hle).
Qed.

Lemma touch_block_wraps expire s w :
  wraps expire → is_write w = true →
  (exec_batch s ([w] ++ retention expire (cmd_key w))).1 = delete (cmd_key w) s ∧
  first_err (exec_batch s ([w] ++ retention expire (cmd_key w))).2
  = reply_err (exec_cmd s w).2.
Proof.
  intros Hexp Hw. rewrite retention_wraps by done. cbn [app].
  rewrite !exec_batch_cons. cbn [exec_batch fst snd first_err].
  destruct (write_ttl s w Hw) as [Hin _]. split.
  - rewrite exec_cmd_Expire_wraps by done. apply map_eq. intros k.
    destruct (decide (k = cmd_key w)) as [->|Hne].
    + by rewrite !lookup_delete_eq.
    + rewrite !lookup_delete_ne by done. by apply exec_cmd_other_key.
  - destruct (reply_err (exec_cmd s w).2); [done|].
    destruct Hin as [[v t] Hk]. cbn [exec_cmd]. rewrite Hk.
    by destruct (_ <=? _).
Qed.

(** After the blocks of the writes [ws] every key they address is gone and
    the other keys are as they were. *)
Lemma touchBlocks_wraps expire ws s k :
  wraps expire → Forall (λ w, is_write w = true) ws →
  (exec_batch s (touchBlocks expire ws)).1 !! k
  = if decide (k ∈ cmd_key <$> ws) then None else s !! k.
Proof.
  intros Hexp Hws. revert s. induction Hws as [|w ws Hw _ IH]; intros s.
  - cbn. by rewrite decide_False by apply not_elem_of_nil.
  - rewrite touchBlocks_cons, exec_batch_app. cbn [fst]. rewrite IH.
    rewrite (proj1 (touch_block_wraps expire s w Hexp Hw)). rewrite fmap_cons.
    destruct (decide (k ∈ cmd_key <$> ws)) as [Hin|Hnot].
    + rewrite decide_True; [done|]. by right.
    + destruct (decide (k = cmd_key w)) as [->|Hne].
      * rewrite decide_True by left. apply lookup_delete_eq.
      * rewrite decide_False; [by rewrite lookup_delete_ne|].
        intros [?|?]%elem_of_cons; done.
Qed.

(** On a store that holds none of their keys the blocks go through and
    leave the store as it is. *)
Lemma touchBlocks_wraps_absent expire ws s :
  wraps expire → Forall (λ w, is_write w = true) ws →
  (∀ k, k ∈ cmd_key <$> ws → s !! k = None) →
  first_err (exec_batch s (touchBlocks expire ws)).2 = None ∧
  (exec_batch s (touchBlocks expire ws)).1 = s.
Proof.
  intros Hexp Hws. induction Hws as [|w ws Hw _ IH]; intros Habs; [done|].
  rewrite touchBlocks_cons, exec_batch_app. cbn [fst snd].
  destruct (touch_block_wraps expire s w Hexp Hw) as [-> Herr].
  assert (s !! cmd_key w = None) as Hk by (apply Habs; rewrite fmap_cons; left).
  rewrite delete_id by done.
  destruct IH as [IHerr IHs].
  { intros k Hin. apply Habs. rewrite fmap_cons. by right. }
  split; [|done]. apply first_err_app. split; [|done].
  rewrite Herr. destruct w as [key f v|key d|key|key sc m|key|key a b];
    try discriminate; cbn [cmd_key] in Hk; cbn [exec_cmd]; by rewrite Hk.
Qed.

Lemma run_batches_wraps expire bs cn k :
  wraps expire → Forall (settles expire) bs →
  db (run_batches bs cn) !! k
  = if decide (k ∈ cmd_key <$> concat bs) then None else db cn !! k.
Proof.
  intros Hexp (ws & Hws & Hbs)%settles_concat.
  rewrite run_batches_db, Hbs, touchBlocks_wraps by done.
  destruct (decide (k ∈ cmd_key <$> ws)) as [Hin|Hnot].
  - rewrite decide_True; [done|]. by apply touchBlocks_keys.
  - rewrite decide_False; [done|]. by rewrite touchBlocks_keys.
Qed.

Lemma run_batches_touched_gone expire bs cn :
  wraps expire → Forall (settles expire) bs → touched_gone cn (run_batches bs cn).
Proof.
  intros Hexp Hbs. exists bs. split; [apply run_batches_sent|].
  intros b c Hb Hc. rewrite (run_batches_wraps expire) by done.
  rewrite decide_True; [done|]. apply list_elem_of_fmap. exists c. split; [done|].
  apply list_elem_of_In, in_concat. exists b. by rewrite <- !list_elem_of_In.
Qed.

(** With a wrapping setting, batches run a second time go through and leave
    the store the first run made. *)
Lemma rerun_batches_wraps expire bs cn :
  wraps expire → Forall (settles expire) bs →
  all_ok bs (db (run_batches bs cn)) = true ∧
  db (run_batches bs (run_batches bs cn)) = db (run_batches bs cn).
Proof.
  intros Hexp Hbs. pose proof (settles_concat _ _ Hbs) as (ws & Hws & Hcat).
  rewrite all_ok_concat, !run_batches_db, Hcat.
  apply touchBlocks_wraps_absent; [done|done|].
  intros k Hin. rewrite touchBlocks_wraps by done. by rewrite decide_True.
Qed.

(** ** The members of an index, as [ZRange] lists them *)

Lemma zrange_all l : zrange l 0 (-1) = l.
Proof.
  unfold zrange. cbn [Z.ltb Z.compare].
  destruct l as [|x l]; [done|].
  set (n := Z.of_nat (length (x :: l))).
  assert (1 ≤ n) as Hn by (subst n; cbn [length]; lia).
  rewrite (Z.min_l (n + -1) (n - 1)) by lia.
  destruct (Z.ltb_spec (n + -1) 0) as [?|_]; [lia|].
  destruct (Z.leb_spec n 0) as [?|_]; [lia|]. cbn [orb].
  replace (Z.to_nat (n + -1 - 0 + 1)) with (length (x :: l)) by (subst n; lia).
  change (Z.to_nat 0) with 0%nat. by rewrite drop_0, firstn_all.
Qed.

Lemma elem_of_ranked z m : m ∈ ranked z ↔ is_Some (z !! m).
Proof.
  unfold ranked. rewrite list_elem_of_fmap. split.
  - intros ([m' sc] & -> & Hin). rewrite merge_sort_Permutation in Hin.
    apply elem_of_map_to_list in Hin. by exists sc.
  - intros [sc Hsc]. exists (m, sc). split; [done|].
    rewrite merge_sort_Permutation. by apply elem_of_map_to_list.
Qed.

Lemma elem_of_candidates s key m : m ∈ candidates s key ↔ is_Some (zscore s key m).
Proof.
  unfold candidates, zscore. simpl.
  destruct (s !! key) as [[[h|z] t]|]; cbn [snd list_val].
  - split; [by intros ?%elem_of_nil | by intros [? ?]].
  - by rewrite zrange_all, elem_of_ranked.
  - split; [by intros ?%elem_of_nil | by intros [? ?]].
Qed.

(** ** Insert, then read *)

Lemma primary_key_inj a b : hashKeyPrefix +:+ a = hashKeyPrefix +:+ b → a = b.
Proof. unfold hashKeyPrefix. simpl. intros Heq. by simplify_eq. Qed.

Lemma all_ok_app bs1 bs2 cn :
  all_ok (bs1 ++ bs2) (db cn) = true ↔
  all_ok bs1 (db cn) = true ∧ all_ok bs2 (db (run_batches bs1 cn)) = true.
Proof.
  revert cn. induction bs1 as [|b bs1 IH]; intros cn.
  - cbn. split; [done | by intros [_ ?]].
  - rewrite <- app_comm_cons, !all_ok_cons, run_batches_cons.
    destruct (first_err (exec_batch (db cn) b).2) eqn:Herr.
    + split; [done | by intros [? _]].
    + specialize (IH (pipe_exec b cn).2). rewrite pipe_exec_eq in IH.
      cbn [snd db] in IH. rewrite pipe_exec_eq. apply IH.
Qed.

Lemma last_with_snoc {A} (ident : A → string) cveID cves cve :
  last_with ident cveID (cves ++ [cve])
  = if decide (ident cve = cveID) then Some cve else last_with ident cveID cves.
Proof.
  unfold last_with. rewrite filter_app, filter_cons, filter_nil.
  destruct (decide (ident cve = cveID)).
  - by rewrite last_snoc.
  - by rewrite app_nil_r.
Qed.

Lemma last_with_elem {A} (ident : A → string) cveID cves cve :
  last_with ident cveID cves = Some cve → cve ∈ cves ∧ ident cve = cveID.
Proof.
  unfold last_with. intros Hl.
  assert (cve ∈ filter (λ c, ident c = cveID) cves) as Hin.
  { apply last_Some in Hl as [l' ->]. apply elem_of_app. right. left. }
  apply list_elem_of_filter in Hin as [? ?]. done.
Qed.

(** Of the commands of a record's batch only the first writes a field. *)
Lemma touchBlocks_no_HSet expire ws k f :
  Forall (λ w, ∀ v, w ≠ HSet k f v) ws →
  Forall (λ c, ∀ v, c ≠ HSet k f v) (touchBlocks expire ws).
Proof.
  intros Hws. apply Forall_forall. intros c Hc.
  unfold touchBlocks in Hc. apply list_elem_of_In, in_flat_map in Hc as (w & Hw & Hc).
  apply list_elem_of_In in Hw, Hc. cbn [app] in Hc.
  apply elem_of_cons in Hc as [->|Hc].
  - by apply (proj1 (Forall_forall _ _) Hws).
  - unfold retention in Hc.
    destruct (0 <? expire); apply list_elem_of_singleton in Hc as ->; done.
Qed.

Lemma indexWrites_no_HSet prefix entries k f :
  Forall (λ w, ∀ v, w ≠ HSet k f v) (indexWrites prefix entries).
Proof. unfold indexWrites. apply Forall_fmap, Forall_true. done. Qed.

(** The field a record's batch leaves in its primary hash, when the batch
    goes well, and the fields it leaves alone. *)
Lemma record_batch_field expire field prefix cveID j names s :
  ¬ wraps expire →
  first_err (exec_batch s (touchBlocks expire (recordWrites field prefix cveID j names))).2
  = None →
  hfield (exec_batch s (touchBlocks expire (recordWrites field prefix cveID j names))).1
    (hashKeyPrefix +:+ cveID) field = Some j.
Proof.
  intros Hexp Hok.
  assert (Forall keeps
    (retention expire (hashKeyPrefix +:+ cveID)
     ++ touchBlocks expire (indexWrites prefix ((λ n, (n, cveID)) <$> names)))) as Hkeep.
  { apply Forall_app. split; [by apply retention_keeps|].
    apply touchBlocks_keeps; [done|]. apply indexWrites_are_writes. }
  change (touchBlocks expire (recordWrites field prefix cveID j names))
    with ([HSet (hashKeyPrefix +:+ cveID) field j]
          ++ (retention expire (hashKeyPrefix +:+ cveID)
              ++ touchBlocks expire (indexWrites prefix ((λ n, (n, cveID)) <$> names))))
    in *.
  rewrite exec_batch_app in *. cbn [fst snd] in *.
  apply first_err_app in Hok as [Hset _].
  rewrite exec_batch_cons in *. cbn [exec_batch fst snd first_err] in *.
  apply (exec_batch_preserves
    (λ c, keeps c ∧ ∀ v, c ≠ HSet (hashKeyPrefix +:+ cveID) field v)
    (λ s, hfield s (hashKeyPrefix +:+ cveID) field = Some j)).
  - intros s' c [Hk Hc] <-. by apply exec_cmd_hfield_key.
  - apply Forall_and. split; [done|]. apply Forall_app. split.
    + unfold retention. destruct (0 <? expire); by repeat constructor.
    + apply touchBlocks_no_HSet, indexWrites_no_HSet.
  - apply exec_cmd_HSet_ok.
    by destruct (reply_err (exec_cmd s (HSet (hashKeyPrefix +:+ cveID) field j)).2).
Qed.

Lemma record_batch_other_field expire field prefix cveID j names s k f :
  ¬ wraps expire →
  (k, f) ≠ (hashKeyPrefix +:+ cveID, field) →
  hfield (exec_batch s (touchBlocks expire (recordWrites field prefix cveID j names))).1 k f
  = hfield s k f.
Proof.
  intros Hexp Hne.
  apply (exec_batch_preserves (λ c, keeps c ∧ ∀ v, c ≠ HSet k f v)
    (λ s', hfield s' k f = hfield s k f)); [| |done].
  - intros s' c [Hk Hc] <-. by apply exec_cmd_hfield_key.
  - apply Forall_and. split.
    { apply touchBlocks_keeps; [done|]. apply recordWrites_are_writes. }
    apply touchBlocks_no_HSet. unfold recordWrites. constructor.
    + intros v [= Hk Hf _]. apply Hne. congruence.
    + apply indexWrites_no_HSet.
Qed.

Section last_write.
Context {A : Type}.
Variables (marshal : A → option string) (queue : A → string → list cmd).
Variables (expire : Z) (field prefix : string) (ident : A → string).
Variable names : A → list string.
Hypothesis no_wrap : ¬ wraps expire.
Hypothesis queue_shape : ∀ cve j,
  queue cve j = touchBlocks expire (recordWrites field prefix (ident cve) j (names cve)).

(** After batches that all went well, the primary field of an identifier
    holds the encoding of the last record with that identifier. *)
Lemma run_batches_last_write cves cn cveID :
  Forall (λ cve, is_Some (marshal cve)) cves →
  all_ok (queued marshal queue cves) (db cn) = true →
  hfield (db (run_batches (queued marshal queue cves) cn)) (hashKeyPrefix +:+ cveID) field
  = match last_with ident cveID cves with
    | Some cve => marshal cve
    | None => hfield (db cn) (hashKeyPrefix +:+ cveID) field
    end.
Proof.
  induction cves as [|cve cves IH] using rev_ind; intros Hm Hok; [done|].
  apply Forall_app in Hm as [Hm Hcve]. apply Forall_inv in Hcve as [j Hj].
  rewrite queued_app in *. apply all_ok_app in Hok as [Hok Hlast].
  rewrite run_batches_app. specialize (IH Hm Hok).
  unfold queued in Hlast |- * at 1. cbn [omap list_omap] in Hlast |- *.
  rewrite Hj in Hlast |- *. cbn [fmap option_fmap option_map] in Hlast |- *.
  rewrite all_ok_cons in Hlast. rewrite run_batches_cons, pipe_exec_eq. cbn [run_batches foldl snd db].
  rewrite queue_shape in *.
  destruct (first_err _) eqn:Herr in Hlast; [done|].
  rewrite last_with_snoc. destruct (decide (ident cve = cveID)) as [<-|Hne].
  - rewrite Hj. by apply record_batch_field.
  - rewrite record_batch_other_field; [done|done|].
    intros Heq. injection Heq as Hk. change (cveID = ident cve) in Hk. by apply Hne.
Qed.

Lemma insertEach_last_write cves cn cn' cveID cve :
  insertEach marshal queue cves cn = (None, cn') →
  last_with ident cveID cves = Some cve →
  ∃ j, marshal cve = Some j ∧
       hfield (db cn') (hashKeyPrefix +:+ cveID) field = Some j.
Proof.
  intros Hins Hlast.
  destruct (insertEach_run marshal queue cves cn) as (ran & rest & -> & Hran & Hrun & Hok).
  rewrite Hins in Hrun, Hok. cbn [fst snd] in *.
  destruct (Hok eq_refl) as [-> Hall]. rewrite app_nil_r in Hlast. subst cn'.
  destruct (last_with_elem _ _ _ _ Hlast) as [Hin _].
  destruct (proj1 (Forall_forall _ _) Hran cve Hin) as [j Hj].
  exists j. split; [done|]. by rewrite run_batches_last_write, Hlast.
Qed.

End last_write.

(** ** The driver as its callers see it *)

Section driver_facts.

Context `{!JSON RedhatCVE, !JSON DebianCVE, !JSON UbuntuCVE, !JSON MicrosoftCVE}.
Context {RedhatCVEJSON DebianJSON UbuntuCVEJSON : Type}.
Context {MicrosoftXML MicrosoftBulletinSearch : Type}.
Variables debVerCodename ubuntuVerCodename : gmap string string.
Variable ConvertRedhat : list RedhatCVEJSON → option (list RedhatCVE).
Variable ConvertDebian : DebianJSON → list DebianCVE.
Variable ConvertUbuntu : list UbuntuCVEJSON → list UbuntuCVE.
Variable ConvertMicrosoft :
  list MicrosoftXML → list MicrosoftBulletinSearch →
  list MicrosoftCVE * list MicrosoftProduct.

(** What the point readers make of a field that is there. *)
Lemma loadRedhat_field s cveID j :
  hfield s (hashKeyPrefix +:+ cveID) "RedHat" = Some j → loadRedhat s cveID = Unmarshal j.
Proof.
  intros [Hok Hj]%hfield_HGetAll. rewrite loadRedhat_decode by done.
  unfold decodeOne. by rewrite Hj.
Qed.

Lemma loadMicrosoft_field s cveID j :
  hfield s (hashKeyPrefix +:+ cveID) "Microsoft" = Some j →
  loadMicrosoft s cveID = Unmarshal j.
Proof.
  intros [Hok Hj]%hfield_HGetAll. rewrite loadMicrosoft_decode by done.
  unfold decodeOne. by rewrite Hj.
Qed.

Lemma loadDebian_field s cveID j :
  hfield s (hashKeyPrefix +:+ cveID) "Debian" = Some j → loadDebian s cveID = Unmarshal j.
Proof.
  intros [Hok Hj]%hfield_HGetAll. unfold loadDebian, GetDebian, bind.
  rewrite do_cmd_read by done. cbn [fst snd db]. rewrite Hok, Hj.
  by destruct (Unmarshal j).
Qed.

Lemma loadUbuntu_field s cveID j :
  hfield s (hashKeyPrefix +:+ cveID) "Ubuntu" = Some j → loadUbuntu s cveID = Unmarshal j.
Proof.
  intros [Hok Hj]%hfield_HGetAll. unfold loadUbuntu, GetUbuntu, bind.
  rewrite do_cmd_read by done. cbn [fst snd db]. rewrite Hok, Hj.
  by destruct (Unmarshal j).
Qed.

(** What a successful [Insert] leaves for the point reader: the last record
    of the input with the identifier, encoded and decoded again. *)
Lemma InsertRedhat_load expire cveJSONs cves cn cn' cve :
  ¬ wraps expire →
  ConvertRedhat cveJSONs = Some cves →
  InsertRedhat ConvertRedhat expire cveJSONs cn = (None, cn') →
  last_with Name (Name cve) cves = Some cve →
  loadRedhat (db cn') (Name cve) = Marshal cve ≫= Unmarshal.
Proof.
  intros Hexp Hconv Hins Hlast. unfold InsertRedhat in Hins. rewrite Hconv in Hins.
  destruct (insertEach_last_write Marshal (queueRedhat expire) expire "RedHat"
    zindRedHatPrefix Name (λ cve, RedhatPackageName <$> PackageState cve)
    Hexp (queueRedhat_shape expire) cves cn cn' (Name cve) cve Hins Hlast)
    as (j & Hj & Hf).
  rewrite Hj. by apply loadRedhat_field.
Qed.

Lemma InsertDebian_load expire cveJSONs cn cn' cve :
  ¬ wraps expire →
  InsertDebian ConvertDebian expire cveJSONs cn = (None, cn') →
  last_with DebianCveID (DebianCveID cve) (ConvertDebian cveJSONs) = Some cve →
  loadDebian (db cn') (DebianCveID cve) = Marshal cve ≫= Unmarshal.
Proof.
  intros Hexp Hins Hlast. unfold InsertDebian in Hins.
  destruct (insertEach_last_write Marshal (queueDebian expire) expire "Debian"
    zindDebianPrefix DebianCveID (λ cve, DebianPackageName <$> Package cve)
    Hexp (queueDebian_shape expire) _ cn cn' (DebianCveID cve) cve Hins Hlast)
    as (j & Hj & Hf).
  rewrite Hj. by apply loadDebian_field.
Qed.

Lemma InsertUbuntu_load expire cveJSONs cn cn' cve :
  ¬ wraps expire →
  InsertUbuntu ConvertUbuntu expire cveJSONs cn = (None, cn') →
  last_with Candidate (Candidate cve) (ConvertUbuntu cveJSONs) = Some cve →
  loadUbuntu (db cn') (Candidate cve) = Marshal cve ≫= Unmarshal.
Proof.
  intros Hexp Hins Hlast. unfold InsertUbuntu in Hins.
  destruct (insertEach_last_write Marshal (queueUbuntu expire) expire "Ubuntu"
    zindUbuntuPrefix Candidate (λ cve, UbuntuPackageName <$> Patches cve)
    Hexp (queueUbuntu_shape expire) _ cn cn' (Candidate cve) cve Hins Hlast)
    as (j & Hj & Hf).
  rewrite Hj. by apply loadUbuntu_field.
Qed.

Lemma InsertMicrosoft_load expire cveXMLs xls cn cn' cve :
  ¬ wraps expire →
  InsertMicrosoft ConvertMicrosoft expire cveXMLs xls cn = (None, cn') →
  last_with MicrosoftCveID (MicrosoftCveID cve) (ConvertMicrosoft cveXMLs xls).1 = Some cve →
  loadMicrosoft (db cn') (MicrosoftCveID cve) = Marshal cve ≫= Unmarshal.
Proof.
  intros Hexp Hins Hlast. unfold InsertMicrosoft in Hins.
  destruct (ConvertMicrosoft cveXMLs xls) as [cves products]. cbn [fst] in Hlast.
  unfold bind in Hins. rewrite pipe_exec_eq in Hins.
  destruct (first_err _) in Hins; [done|].
  destruct (insertEach_last_write Marshal (queueMicrosoft expire) expire "Microsoft"
    zindMicrosoftKBIDPrefix MicrosoftCveID (λ cve, KBID <$> KBIDs cve)
    Hexp (queueMicrosoft_shape expire) _ _ cn' (MicrosoftCveID cve) cve Hins Hlast)
    as (j & Hj & Hf).
  rewrite Hj. by apply loadMicrosoft_field.
Qed.

(** X1. For a retention setting whose duration fits (0 to 9223372036
    seconds): after an [Insert] that returns no error, the point reader of
    the vendor returns, for the identifier of a record of the input, the
    last record of the input with that identifier, as its encoding decodes:
    the record itself when the codec round-trips. *)
Theorem insert_then_get expire :
  0 ≤ expire ≤ GoInt.max_expire →
  (∀ cveJSONs cves cn cn' cve,
     ConvertRedhat cveJSONs = Some cves →
     InsertRedhat ConvertRedhat expire cveJSONs cn = (None, cn') →
     last_with Name (Name cve) cves = Some cve →
     (GetRedhat (Name cve) cn').1 = Marshal cve ≫= Unmarshal) ∧
  (∀ cveJSONs cn cn' cve,
     InsertDebian ConvertDebian expire cveJSONs cn = (None, cn') →
     last_with DebianCveID (DebianCveID cve) (ConvertDebian cveJSONs) = Some cve →
     (GetDebian (DebianCveID cve) cn').1 = Marshal cve ≫= Unmarshal) ∧
  (∀ cveJSONs cn cn' cve,
     InsertUbuntu ConvertUbuntu expire cveJSONs cn = (None, cn') →
     last_with Candidate (Candidate cve) (ConvertUbuntu cveJSONs) = Some cve →
     (GetUbuntu (Candidate cve) cn').1 = Marshal cve ≫= Unmarshal) ∧
  (∀ cveXMLs xls cn cn' cve,
     InsertMicrosoft ConvertMicrosoft expire cveXMLs xls cn = (None, cn') →
     last_with MicrosoftCveID (MicrosoftCveID cve) (ConvertMicrosoft cveXMLs xls).1
     = Some cve →
     (GetMicrosoft (MicrosoftCveID cve) cn').1 = Marshal cve ≫= Unmarshal).
Proof.
  intros Hexp%in_range_no_wrap. split; [|split; [|split]].
  - intros cveJSONs cves cn cn' cve Hconv Hins Hlast.
    rewrite GetRedhat_run. cbn [fst]. by eapply InsertRedhat_load.
  - intros cveJSONs cn cn' cve Hins Hlast.
    rewrite GetDebian_run. cbn [fst]. by eapply InsertDebian_load.
  - intros cveJSONs cn cn' cve Hins Hlast.
    rewrite GetUbuntu_run. cbn [fst]. by eapply InsertUbuntu_load.
  - intros cveXMLs xls cn cn' cve Hins Hlast.
    rewrite GetMicrosoft_run. cbn [fst]. by eapply InsertMicrosoft_load.
Qed.

(** *** The commands of a filtered reader *)

(** A loop whose body reads with one batch per round. *)
Lemma forEach_reads_sent {A S} (body : S → A → Client S) (step : store → S → A → S)
    (batch : A → list cmd) l :
  (∀ acc x cn, body acc x cn = (step (db cn) acc x, Conn (db cn) (sent cn ++ [batch x]))) →
  ∀ acc cn,
    forEach body l acc cn
    = (foldl (step (db cn)) acc l, Conn (db cn) (sent cn ++ (batch <$> l))).
Proof.
  intros Hbody. induction l as [|x l IH]; intros acc cn; cbn [forEach foldl fmap list_fmap].
  - rewrite app_nil_r. by destruct cn.
  - unfold bind. rewrite Hbody, IH. cbn [db sent]. by rewrite <- app_assoc.
Qed.

Lemma GetUnfixedCvesRedhat_run major pkgName i cn :
  GetUnfixedCvesRedhat major pkgName i cn
  = (foldl (λ m id, store_if (loadRedhat (db cn) id ≫= Spec.narrowedRedhat major pkgName i) id m)
       ∅ (candidates (db cn) (zindRedHatPrefix +:+ pkgName)),
     Conn (db cn) (sent cn ++ filtered_batches (db cn) (zindRedHatPrefix +:+ pkgName))).
Proof.
  unfold GetUnfixedCvesRedhat, filtered_batches, candidates, bind.
  rewrite do_cmd_read by done.
  destruct (reply_err _) eqn:Herr.
  { by destruct (exec_cmd _ _).2. }
  rewrite (forEach_reads_sent _
    (λ s m id, store_if (loadRedhat s id ≫= Spec.narrowedRedhat major pkgName i) id m)
    (λ cveID, [HGetAll (hashKeyPrefix +:+ cveID)])).
  - cbn [db sent]. by rewrite <- app_assoc.
  - intros m id c. unfold bind. rewrite GetRedhat_run.
    destruct (loadRedhat (db c) id) as [red|]; [|done]. cbn.
    unfold store_if, Spec.narrowedRedhat.
    change ("cpe:/o:redhat:enterprise_linux:" +:+ major) with (Spec.redhatCpe major).
    rewrite narrowRedhat_spec. by destruct (filter _ _).
Qed.

Lemma getCvesDebianWithFixStatus_run major codeName pkgName fixStatus cn :
  debVerCodename !! major = Some codeName →
  getCvesDebianWithFixStatus debVerCodename major pkgName fixStatus cn
  = (foldl (λ m id,
       store_if (loadDebian (db cn) id ≫= Spec.narrowedDebian codeName pkgName [fixStatus])
         id m) ∅ (candidates (db cn) (zindDebianPrefix +:+ pkgName)),
     Conn (db cn) (sent cn ++ filtered_batches (db cn) (zindDebianPrefix +:+ pkgName))).
Proof.
  intros Hcode. unfold getCvesDebianWithFixStatus, filtered_batches, candidates, bind.
  rewrite Hcode, do_cmd_read by done.
  destruct (reply_err _) eqn:Herr.
  { by destruct (exec_cmd _ _).2. }
  rewrite (forEach_reads_sent _
    (λ s m id,
       store_if (loadDebian s id ≫= Spec.narrowedDebian codeName pkgName [fixStatus]) id m)
    (λ cveID, [HGetAll (hashKeyPrefix +:+ cveID)])).
  - cbn [db sent]. by rewrite <- app_assoc.
  - intros m id c. unfold bind. rewrite GetDebian_run.
    destruct (loadDebian (db c) id) as [deb|]; [|done]. cbn.
    unfold store_if, Spec.narrowedDebian. rewrite narrowDebian_spec.
    by destruct (Spec.keptDebian _ _ _ _).
Qed.

Lemma getCvesUbuntuWithFixStatus_run major codeName pkgName fixStatus cn :
  ubuntuVerCodename !! major = Some codeName →
  NoDup fixStatus →
  getCvesUbuntuWithFixStatus ubuntuVerCodename major pkgName fixStatus cn
  = (foldl (λ m id,
       store_if (loadUbuntu (db cn) id ≫= Spec.narrowedUbuntu codeName pkgName fixStatus)
         id m) ∅ (candidates (db cn) (zindUbuntuPrefix +:+ pkgName)),
     Conn (db cn) (sent cn ++ filtered_batches (db cn) (zindUbuntuPrefix +:+ pkgName))).
Proof.
  intros Hcode Hnd. unfold getCvesUbuntuWithFixStatus, filtered_batches, candidates, bind.
  rewrite Hcode, do_cmd_read by done.
  destruct (reply_err _) eqn:Herr.
  { by destruct (exec_cmd _ _).2. }
  rewrite (forEach_reads_sent _
    (λ s m id,
       store_if (loadUbuntu s id ≫= Spec.narrowedUbuntu codeName pkgName fixStatus) id m)
    (λ cveID, [HGetAll (hashKeyPrefix +:+ cveID)])).
  - cbn [db sent]. by rewrite <- app_assoc.
  - intros m id c. unfold bind. rewrite GetUbuntu_run.
    destruct (loadUbuntu (db c) id) as [cve|]; [|done]. cbn.
    unfold store_if, Spec.narrowedUbuntu. rewrite narrowUbuntu_spec by done.
    by destruct (Spec.keptUbuntu _ _ _ _).
Qed.

(** X5. A filtered reader leaves the store as it is and sends one range
    read of the index key followed by one read of the primary record per
    candidate, in the order of the range; for a major version without
    codename the Debian and Ubuntu readers send nothing. *)
Theorem filtered_readers_only_read major pkgName cn :
  (∀ i,
     (GetUnfixedCvesRedhat major pkgName i cn).2
     = Conn (db cn) (sent cn ++ filtered_batches (db cn) (zindRedHatPrefix +:+ pkgName))) ∧
  (∀ fixStatus,
     (getCvesDebianWithFixStatus debVerCodename major pkgName fixStatus cn).2
     = Conn (db cn)
         (sent cn ++ if debVerCodename !! major is Some _
                     then filtered_batches (db cn) (zindDebianPrefix +:+ pkgName)
                     else [])) ∧
  (∀ fixStatus,
     (getCvesUbuntuWithFixStatus ubuntuVerCodename major pkgName fixStatus cn).2
     = Conn (db cn)
         (sent cn ++ if ubuntuVerCodename !! major is Some _
                     then filtered_batches (db cn) (zindUbuntuPrefix +:+ pkgName)
                     else [])).
Proof.
  split; [|split].
  - intros i. by rewrite GetUnfixedCvesRedhat_run.
  - intros fixStatus. destruct (debVerCodename !! major) as [codeName|] eqn:Hcode.
    + by rewrite (getCvesDebianWithFixStatus_run major codeName).
    + unfold getCvesDebianWithFixStatus. rewrite Hcode, app_nil_r. by destruct cn.
  - intros fixStatus. destruct (ubuntuVerCodename !! major) as [codeName|] eqn:Hcode.
    + unfold getCvesUbuntuWithFixStatus, filtered_batches, candidates, bind.
      rewrite Hcode, do_cmd_read by done.
      destruct (reply_err _) eqn:Herr.
      { by destruct (exec_cmd _ _).2. }
      rewrite (forEach_reads_sent _
        (λ s m id,
           match loadUbuntu s id with
           | None => m
           | Some cve =>
               if negb (length (narrowUbuntu codeName pkgName fixStatus (Patches cve)) =? 0)%nat
               then <[id := {| Candidate := Candidate cve;
                               Patches := narrowUbuntu codeName pkgName fixStatus
                                            (Patches cve) |}]> m
               else m
           end)
        (λ cveID, [HGetAll (hashKeyPrefix +:+ cveID)])).
      * cbn [snd db sent]. by rewrite <- app_assoc.
      * intros m id c. unfold bind. rewrite GetUbuntu_run.
        destruct (loadUbuntu (db c) id) as [cve|]; [|done]. cbn.
        by destruct (negb _).
    + unfold getCvesUbuntuWithFixStatus. rewrite Hcode, app_nil_r. by destruct cn.
Qed.

(** X6. The point readers and the multi readers leave the store as it is,
    whatever the key holds: a point reader sends one read of the primary
    record, a multi reader one pipeline with a read per requested
    identifier. *)
Theorem point_multi_readers_only_read cn :
  (∀ cveID,
     (GetRedhat cveID cn).2 = Conn (db cn) (sent cn ++ [[HGetAll (hashKeyPrefix +:+ cveID)]]) ∧
     (GetDebian cveID cn).2 = Conn (db cn) (sent cn ++ [[HGetAll (hashKeyPrefix +:+ cveID)]]) ∧
     (GetUbuntu cveID cn).2 = Conn (db cn) (sent cn ++ [[HGetAll (hashKeyPrefix +:+ cveID)]]) ∧
     (GetMicrosoft cveID cn).2
     = Conn (db cn) (sent cn ++ [[HGetAll (hashKeyPrefix +:+ cveID)]])) ∧
  (∀ cveIDs,
     (GetRedhatMulti cveIDs cn).2 = Conn (db cn) (sent cn ++ [multiPipe cveIDs]) ∧
     (GetMicrosoftMulti cveIDs cn).2 = Conn (db cn) (sent cn ++ [multiPipe cveIDs])).
Proof.
  split.
  - intros cveID.
    by rewrite GetRedhat_run, GetDebian_run, GetUbuntu_run, GetMicrosoft_run.
  - intros cveIDs.
    assert (∀ {A} field (unmarshal : string → option A) zero,
      (getMulti field unmarshal zero cveIDs cn).2
      = Conn (db cn) (sent cn ++ [multiPipe cveIDs])) as Hmulti.
    { intros A field unmarshal zero. unfold getMulti, bind, multiPipe.
      rewrite pipe_exec_eq, exec_batch_reads by (apply Forall_fmap, Forall_true; done).
      cbn [fst snd]. destruct (first_err _) as [e|]; [|done].
      by destruct (bool_decide (e ≠ Nil)). }
    split; apply Hmulti.
Qed.

(** *** The multi readers, identifier by identifier *)

Lemma decodeAll_None_iff {A} field (unmarshal : string → option A) zero rs :
  decodeAll field unmarshal zero rs = None ↔
  ∃ id r, rs !! id = Some r ∧ decodeOne field unmarshal zero r = None.
Proof.
  unfold decodeAll.
  apply (map_fold_weak_ind (λ acc rs, acc = None ↔
    ∃ id r, rs !! id = Some r ∧ decodeOne field unmarshal zero r = None)).
  - split; [done|]. intros (id & r & Hr & _). by rewrite lookup_empty in Hr.
  - intros i r rs' acc Hi IH.
    assert (match acc with
            | None => None
            | Some results =>
                match map_val r !! field with
                | Some j =>
                    match unmarshal j with
                    | None => None
                    | Some doc => Some (<[i := doc]> results)
                    end
                | None => Some (<[i := zero]> results)
                end
            end = None ↔ acc = None ∨ decodeOne field unmarshal zero r = None) as ->.
    { unfold decodeOne. destruct acc as [results|]; [|by split; [left|]].
      destruct (map_val r !! field) as [j|]; [destruct (unmarshal j)|];
        split; try done; try (by right); by intros [?|?]. }
    rewrite IH. split.
    + intros [(id & r' & Hr' & Hd)|Hd].
      * exists id, r'. split; [|done]. rewrite lookup_insert_ne; [done|].
        intros ->. by rewrite Hi in Hr'.
      * exists i, r. by rewrite lookup_insert_eq.
    + intros (id & r' & Hr' & Hd). destruct (decide (i = id)) as [->|Hne].
      * rewrite lookup_insert_eq in Hr'. right. by simplify_eq.
      * rewrite lookup_insert_ne in Hr' by done. left. by exists id, r'.
Qed.

Lemma first_err_fmap_None {B} (h : B → reply) l :
  first_err (h <$> l) = None ↔ ∀ x, x ∈ l → reply_err (h x) = None.
Proof.
  induction l as [|x l IH]; cbn [fmap list_fmap first_err].
  - split; [by intros _ ? ?%elem_of_nil | done].
  - change (list_fmap B reply h l) with (h <$> l).
    destruct (reply_err (h x)) eqn:Hx.
    + split; [done|]. intros Hall. rewrite <- Hx. apply Hall. left.
    + rewrite IH. split.
      * intros Hall y [->|Hy]%elem_of_cons; [done | by apply Hall].
      * intros Hall y Hy. apply Hall. by right.
Qed.

(** What a point reader with a zero value finds, from the reply. *)
Lemma loadRedhat_reply s cveID :
  loadRedhat s cveID
  = match reply_err (exec_cmd s (HGetAll (hashKeyPrefix +:+ cveID))).2 with
    | Some _ => None
    | None => decodeOne "RedHat" Unmarshal zeroRedhatCVE
                (exec_cmd s (HGetAll (hashKeyPrefix +:+ cveID))).2
    end.
Proof.
  destruct (reply_err _) eqn:Herr; [|by apply loadRedhat_decode].
  unfold loadRedhat, GetRedhat, bind. rewrite do_cmd_read by done.
  cbn [fst snd db]. by rewrite Herr.
Qed.

Lemma loadMicrosoft_reply s cveID :
  loadMicrosoft s cveID
  = match reply_err (exec_cmd s (HGetAll (hashKeyPrefix +:+ cveID))).2 with
    | Some _ => None
    | None => decodeOne "Microsoft" Unmarshal zeroMicrosoftCVE
                (exec_cmd s (HGetAll (hashKeyPrefix +:+ cveID))).2
    end.
Proof.
  destruct (reply_err _) eqn:Herr; [|by apply loadMicrosoft_decode].
  unfold loadMicrosoft, GetMicrosoft, bind. rewrite do_cmd_read by done.
  cbn [fst snd db]. by rewrite Herr.
Qed.

Lemma getMulti_pointwise {A} field (unmarshal : string → option A) zero cveIDs cn
    (load : string → option A) :
  (∀ cveID, load cveID
     = match reply_err (exec_cmd (db cn) (HGetAll (hashKeyPrefix +:+ cveID))).2 with
       | Some _ => None
       | None => decodeOne field unmarshal zero
                   (exec_cmd (db cn) (HGetAll (hashKeyPrefix +:+ cveID))).2
       end) →
  ((∀ cveID, cveID ∈ cveIDs → is_Some (load cveID)) →
   ∃ m, (getMulti field unmarshal zero cveIDs cn).1 = Some m ∧
        ∀ cveID, m !! cveID = if decide (cveID ∈ cveIDs) then load cveID else None) ∧
  (∀ cveID, cveID ∈ cveIDs → load cveID = None →
   (getMulti field unmarshal zero cveIDs cn).1 = None).
Proof.
  intros Hload. unfold getMulti, bind.
  rewrite pipe_exec_eq, exec_batch_reads by (apply Forall_fmap, Forall_true; done).
  cbn [fst snd]. rewrite <- list_fmap_compose.
  set (h := λ id, (exec_cmd (db cn) (HGetAll (hashKeyPrefix +:+ id))).2).
  change ((λ c, (exec_cmd (db cn) c).2) ∘ (λ cveID, HGetAll (hashKeyPrefix +:+ cveID)))
    with h.
  assert (∀ id, collect cveIDs (h <$> cveIDs) !! id
    = if decide (id ∈ cveIDs) then Some (h id) else None) as Hcollect.
  { intros id. unfold collect. by rewrite collect_lookup, lookup_empty. }
  split.
  - intros Hall.
    assert (first_err (h <$> cveIDs) = None) as ->.
    { apply first_err_fmap_None. intros id Hid. destruct (Hall id Hid) as [d Hd].
      rewrite Hload in Hd. fold (h id) in Hd. by destruct (reply_err (h id)). }
    cbn [fst].
    destruct (decodeAll field unmarshal zero (collect cveIDs (h <$> cveIDs)))
      as [m|] eqn:Hdec.
    + exists m. split; [done|]. intros id.
      rewrite (decodeAll_Some _ _ _ _ _ Hdec), Hcollect.
      destruct (decide (id ∈ cveIDs)) as [Hid|]; [|done]. cbn.
      destruct (Hall id Hid) as [d Hd]. rewrite Hload in *. fold (h id) in *.
      by destruct (reply_err (h id)).
    + exfalso. apply decodeAll_None_iff in Hdec as (id & r & Hr & Hd).
      rewrite Hcollect in Hr. destruct (decide (id ∈ cveIDs)) as [Hid|]; [|done].
      injection Hr as <-. destruct (Hall id Hid) as [d Hd'].
      rewrite Hload in Hd'. fold (h id) in Hd'.
      destruct (reply_err (h id)); congruence.
  - intros id Hid Hnone. rewrite Hload in Hnone. fold (h id) in Hnone.
    destruct (first_err (h <$> cveIDs)) as [e|] eqn:Herr.
    + case_bool_decide as He; [done|]. exfalso. subst e.
      pose proof (exec_batch_not_nil
        ((λ cveID, HGetAll (hashKeyPrefix +:+ cveID)) <$> cveIDs) (db cn)) as Hnil.
      rewrite exec_batch_reads in Hnil by (apply Forall_fmap, Forall_true; done).
      cbn [snd] in Hnil. by rewrite <- list_fmap_compose in Hnil.
    + cbn [fst]. apply decodeAll_None_iff. exists id, (h id).
      rewrite Hcollect, decide_True by done. split; [done|].
      rewrite (proj1 (first_err_fmap_None h cveIDs) Herr id Hid) in Hnone. done.
Qed.

(** X7. A multi reader answers exactly when the point reader does for every
    requested identifier, and then with precisely the point reader's
    document for each of them (the zero-valued document where the record or
    the vendor's field is missing); one identifier the point reader has no
    result for makes the whole call return nothing. *)
Theorem multi_get_pointwise cveIDs cn :
  ((∀ cveID, cveID ∈ cveIDs → is_Some (GetRedhat cveID cn).1) →
   ∃ m, (GetRedhatMulti cveIDs cn).1 = Some m ∧
        ∀ cveID, m !! cveID
                 = if decide (cveID ∈ cveIDs) then (GetRedhat cveID cn).1 else None) ∧
  (∀ cveID, cveID ∈ cveIDs → (GetRedhat cveID cn).1 = None →
   (GetRedhatMulti cveIDs cn).1 = None) ∧
  ((∀ cveID, cveID ∈ cveIDs → is_Some (GetMicrosoft cveID cn).1) →
   ∃ m, (GetMicrosoftMulti cveIDs cn).1 = Some m ∧
        ∀ cveID, m !! cveID
                 = if decide (cveID ∈ cveIDs) then (GetMicrosoft cveID cn).1 else None) ∧
  (∀ cveID, cveID ∈ cveIDs → (GetMicrosoft cveID cn).1 = None →
   (GetMicrosoftMulti cveIDs cn).1 = None).
Proof.
  destruct (getMulti_pointwise "RedHat" Unmarshal zeroRedhatCVE cveIDs cn
    (λ id, (GetRedhat id cn).1)) as [HR1 HR2].
  { intros id. rewrite GetRedhat_run. apply loadRedhat_reply. }
  destruct (getMulti_pointwise "Microsoft" Unmarshal zeroMicrosoftCVE cveIDs cn
    (λ id, (GetMicrosoft id cn).1)) as [HM1 HM2].
  { intros id. rewrite GetMicrosoft_run. apply loadMicrosoft_reply. }
  done.
Qed.

(** *** Insert, then query by package *)

Lemma InsertRedhat_candidate expire cveJSONs cves cn cn' cve pkg :
  ConvertRedhat cveJSONs = Some cves →
  InsertRedhat ConvertRedhat expire cveJSONs cn = (None, cn') →
  ¬ wraps expire →
  cve ∈ cves → pkg ∈ PackageState cve →
  Name cve ∈ candidates (db cn') (zindRedHatPrefix +:+ RedhatPackageName pkg).
Proof.
  intros Hconv Hins Hexp Hcve Hpkg. unfold InsertRedhat in Hins. rewrite Hconv in Hins.
  apply elem_of_candidates. exists 0.
  apply (insertEach_index RedHat Marshal (queueRedhat expire) cves cn cn' cve);
    [intros; by apply queueRedhat_own|done|done|].
  intros j. rewrite queueRedhat_shape.
  apply elem_of_touchBlocks, elem_of_recordWrites_index, list_elem_of_fmap.
  by exists pkg.
Qed.

Lemma InsertDebian_candidate expire cveJSONs cn cn' cve pkg :
  InsertDebian ConvertDebian expire cveJSONs cn = (None, cn') →
  ¬ wraps expire →
  cve ∈ ConvertDebian cveJSONs → pkg ∈ Package cve →
  DebianCveID cve ∈ candidates (db cn') (zindDebianPrefix +:+ DebianPackageName pkg).
Proof.
  intros Hins Hexp Hcve Hpkg. unfold InsertDebian in Hins.
  apply elem_of_candidates. exists 0.
  apply (insertEach_index Debian Marshal (queueDebian expire) (ConvertDebian cveJSONs)
    cn cn' cve); [intros; by apply queueDebian_own|done|done|].
  intros j. rewrite queueDebian_shape.
  apply elem_of_touchBlocks, elem_of_recordWrites_index, list_elem_of_fmap.
  by exists pkg.
Qed.

Lemma InsertUbuntu_candidate expire cveJSONs cn cn' cve pkg :
  InsertUbuntu ConvertUbuntu expire cveJSONs cn = (None, cn') →
  ¬ wraps expire →
  cve ∈ ConvertUbuntu cveJSONs → pkg ∈ Patches cve →
  Candidate cve ∈ candidates (db cn') (zindUbuntuPrefix +:+ UbuntuPackageName pkg).
Proof.
  intros Hins Hexp Hcve Hpkg. unfold InsertUbuntu in Hins.
  apply elem_of_candidates. exists 0.
  apply (insertEach_index Ubuntu Marshal (queueUbuntu expire) (ConvertUbuntu cveJSONs)
    cn cn' cve); [intros; by apply queueUbuntu_own|done|done|].
  intros j. rewrite queueUbuntu_shape.
  apply elem_of_touchBlocks, elem_of_recordWrites_index, list_elem_of_fmap.
  by exists pkg.
Qed.

(** X2. For a retention setting whose duration fits (0 to 9223372036
    seconds): after an [InsertRedhat] that returns no error, and for a
    record that is the last of the input with its identifier and that the
    codec round-trips, [GetUnfixedCvesRedhat] answers for the record's
    identifier with the record narrowed to the queried platform and
    package, and with nothing when no package state of the record
    survives. *)
Theorem insert_then_unfixed_redhat expire cveJSONs cves cn cn' cve major pkgName i :
  0 ≤ expire ≤ GoInt.max_expire →
  ConvertRedhat cveJSONs = Some cves →
  InsertRedhat ConvertRedhat expire cveJSONs cn = (None, cn') →
  last_with Name (Name cve) cves = Some cve →
  Marshal cve ≫= Unmarshal = Some cve →
  (GetUnfixedCvesRedhat major pkgName i cn').1 !! Name cve
  = Spec.narrowedRedhat major pkgName i cve.
Proof.
  intros Hexp%in_range_no_wrap Hconv Hins Hlast Hrt.
  rewrite GetUnfixedCvesRedhat_run. cbn [fst]. rewrite selected_lookup.
  unfold Spec.selected.
  rewrite (InsertRedhat_load expire cveJSONs cves cn cn' cve) by done. rewrite Hrt.
  destruct (decide (Name cve ∈ _)) as [Hin|Hnot]; [done|]. symmetry.
  destruct (Spec.narrowedRedhat major pkgName i cve) as [kept|] eqn:Hkept; [|done].
  exfalso. apply Hnot. unfold Spec.narrowedRedhat in Hkept.
  destruct (filter _ _) as [|ps l] eqn:Hf; [done|].
  assert (ps ∈ filter (Spec.survives major pkgName i) (PackageState cve)) as Hps
    by (rewrite Hf; left).
  apply list_elem_of_filter in Hps as [(_ & <- & _) Hps].
  eapply InsertRedhat_candidate; try done.
  by destruct (last_with_elem _ _ _ _ Hlast).
Qed.

(** X3. For a retention setting whose duration fits (0 to 9223372036
    seconds): after an [InsertDebian] that returns no error, and for a
    record that is the last of the input with its identifier and that the
    codec round-trips, the Debian filtered reader answers for the record's
    identifier with the record narrowed to the queried package, codename and
    status, and with nothing when that narrowing is empty. *)
Theorem insert_then_filtered_debian expire cveJSONs cn cn' cve major codeName pkgName
    fixStatus :
  0 ≤ expire ≤ GoInt.max_expire →
  InsertDebian ConvertDebian expire cveJSONs cn = (None, cn') →
  last_with DebianCveID (DebianCveID cve) (ConvertDebian cveJSONs) = Some cve →
  Marshal cve ≫= Unmarshal = Some cve →
  debVerCodename !! major = Some codeName →
  (getCvesDebianWithFixStatus debVerCodename major pkgName fixStatus cn').1
    !! DebianCveID cve
  = Spec.narrowedDebian codeName pkgName [fixStatus] cve.
Proof.
  intros Hexp%in_range_no_wrap Hins Hlast Hrt Hcode.
  rewrite (getCvesDebianWithFixStatus_run major codeName) by done. cbn [fst].
  rewrite selected_lookup. unfold Spec.selected.
  rewrite (InsertDebian_load expire cveJSONs cn cn' cve) by done. rewrite Hrt.
  destruct (decide (DebianCveID cve ∈ _)) as [Hin|Hnot]; [done|]. symmetry.
  destruct (Spec.narrowedDebian codeName pkgName [fixStatus] cve) as [kept|] eqn:Hkept;
    [|done].
  exfalso. apply Hnot. unfold Spec.narrowedDebian in Hkept.
  destruct (Spec.keptDebian _ _ _ _) as [|p' l] eqn:Hk; [done|].
  assert (p' ∈ Spec.keptDebian codeName pkgName [fixStatus] (Package cve)) as Hp'
    by (rewrite Hk; left).
  apply elem_of_keptDebian in Hp' as (p & Hp & <- & _).
  eapply InsertDebian_candidate; try done.
  by destruct (last_with_elem _ _ _ _ Hlast).
Qed.

(** X4. The same for Ubuntu, for a list of wanted statuses without
    repetition: for a retention setting whose duration fits, after an
    [InsertUbuntu] that returns no error the Ubuntu filtered reader answers
    for the identifier of a record (the last of the input with that
    identifier, round-tripping through the codec) with the record narrowed
    to the queried package, codename and statuses, and with nothing when
    that narrowing is empty. *)
Theorem insert_then_filtered_ubuntu expire cveJSONs cn cn' cve major codeName pkgName
    fixStatus :
  0 ≤ expire ≤ GoInt.max_expire →
  InsertUbuntu ConvertUbuntu expire cveJSONs cn = (None, cn') →
  last_with Candidate (Candidate cve) (ConvertUbuntu cveJSONs) = Some cve →
  Marshal cve ≫= Unmarshal = Some cve →
  ubuntuVerCodename !! major = Some codeName →
  NoDup fixStatus →
  (getCvesUbuntuWithFixStatus ubuntuVerCodename major pkgName fixStatus cn').1
    !! Candidate cve
  = Spec.narrowedUbuntu codeName pkgName fixStatus cve.
Proof.
  intros Hexp%in_range_no_wrap Hins Hlast Hrt Hcode Hnd.
  rewrite (getCvesUbuntuWithFixStatus_run major codeName) by done. cbn [fst].
  rewrite selected_lookup. unfold Spec.selected.
  rewrite (InsertUbuntu_load expire cveJSONs cn cn' cve) by done. rewrite Hrt.
  destruct (decide (Candidate cve ∈ _)) as [Hin|Hnot]; [done|]. symmetry.
  destruct (Spec.narrowedUbuntu codeName pkgName fixStatus cve) as [kept|] eqn:Hkept;
    [|done].
  exfalso. apply Hnot. unfold Spec.narrowedUbuntu in Hkept.
  destruct (Spec.keptUbuntu _ _ _ _) as [|p' l] eqn:Hk; [done|].
  assert (p' ∈ Spec.keptUbuntu codeName pkgName fixStatus (Patches cve)) as Hp'
    by (rewrite Hk; left).
  apply elem_of_keptUbuntu in Hp' as (p & Hp & <- & _).
  eapply InsertUbuntu_candidate; try done.
  by destruct (last_with_elem _ _ _ _ Hlast).
Qed.

(** *** What an [Insert] removes *)

Lemma run_batches_nothing_removed bs cn :
  Forall (Forall keeps) bs → nothing_removed cn (run_batches bs cn).
Proof.
  intros Hbs. split; [|split].
  - intros k x Hx.
    apply (run_batches_preserves keeps (λ s, key_kind s k = Some x)); try done.
    intros s c Hc. by apply exec_cmd_kind_stable.
  - intros k f Hf.
    apply (run_batches_preserves keeps (λ s, is_Some (hfield s k f))); try done.
    intros s c Hc. by apply exec_cmd_hfield_mono.
  - intros k m Hm.
    apply (run_batches_preserves keeps (λ s, is_Some (zscore s k m))); try done.
    intros s c Hc. by apply exec_cmd_zscore_mono.
Qed.

(** The batches of each [Insert], whatever its outcome. *)
Lemma insert_runs_settled expire cn :
  (∀ cveJSONs, ∃ bs,
     (InsertRedhat ConvertRedhat expire cveJSONs cn).2 = run_batches bs cn ∧
     Forall (settles expire) bs) ∧
  (∀ cveJSONs, ∃ bs,
     (InsertDebian ConvertDebian expire cveJSONs cn).2 = run_batches bs cn ∧
     Forall (settles expire) bs) ∧
  (∀ cveJSONs, ∃ bs,
     (InsertUbuntu ConvertUbuntu expire cveJSONs cn).2 = run_batches bs cn ∧
     Forall (settles expire) bs) ∧
  (∀ cveXMLs xls, ∃ bs,
     (InsertMicrosoft ConvertMicrosoft expire cveXMLs xls cn).2 = run_batches bs cn ∧
     Forall (settles expire) bs).
Proof.
  assert (∀ {A} (marshal : A → option string) queue cves cn0,
    (∀ c j, settles expire (queue c j)) →
    ∃ bs, (insertEach marshal queue cves cn0).2 = run_batches bs cn0 ∧
          Forall (settles expire) bs) as Heach.
  { intros A marshal queue cves cn0 Hq.
    destruct (insertEach_run marshal queue cves cn0) as (ran & rest & _ & _ & Hrun & _).
    exists (queued marshal queue ran). split; [done|].
    apply Forall_forall. intros b (c & j & _ & _ & ->)%elem_of_queued. apply Hq. }
  split; [|split; [|split]].
  - intros cveJSONs. unfold InsertRedhat.
    destruct (ConvertRedhat cveJSONs) as [cves|]; [|by exists []].
    apply Heach. intros c j. rewrite queueRedhat_shape. apply record_settles.
  - intros cveJSONs. apply Heach. intros c j. rewrite queueDebian_shape.
    apply record_settles.
  - intros cveJSONs. apply Heach. intros c j. rewrite queueUbuntu_shape.
    apply record_settles.
  - intros cveXMLs xls.
    pose proof (InsertMicrosoft_run ConvertMicrosoft expire cveXMLs xls cn) as Hrun.
    cbn zeta in Hrun. destruct (first_err _).
    + rewrite Hrun. eexists. split; [done|]. repeat constructor.
      apply queueProducts_settles.
    + destruct Hrun as (ran & rest & _ & ->). eexists. split; [done|].
      constructor; [apply queueProducts_settles|].
      apply Forall_forall. intros b (c & j & _ & _ & ->)%elem_of_queued.
      rewrite queueMicrosoft_shape. apply record_settles.
Qed.

(** X8. Whatever its outcome, an [Insert] removes nothing unless the
    retention setting wraps: every key of the store is still there and
    holds the same kind of value, every field of a hash is still set and
    every member of an index is still a member (so a record that no longer
    refers to a package stays in that package's index).  With a setting
    whose duration wraps to zero seconds or less, every key the call
    addressed is gone from the store afterwards, with all it held. *)
Theorem insert_removes_only_when_wrapped expire cn :
  (¬ wraps expire →
   (∀ cveJSONs, nothing_removed cn (InsertRedhat ConvertRedhat expire cveJSONs cn).2) ∧
   (∀ cveJSONs, nothing_removed cn (InsertDebian ConvertDebian expire cveJSONs cn).2) ∧
   (∀ cveJSONs, nothing_removed cn (InsertUbuntu ConvertUbuntu expire cveJSONs cn).2) ∧
   (∀ cveXMLs xls,
      nothing_removed cn (InsertMicrosoft ConvertMicrosoft expire cveXMLs xls cn).2)) ∧
  (wraps expire →
   (∀ cveJSONs, touched_gone cn (InsertRedhat ConvertRedhat expire cveJSONs cn).2) ∧
   (∀ cveJSONs, touched_gone cn (InsertDebian ConvertDebian expire cveJSONs cn).2) ∧
   (∀ cveJSONs, touched_gone cn (InsertUbuntu ConvertUbuntu expire cveJSONs cn).2) ∧
   (∀ cveXMLs xls,
      touched_gone cn (InsertMicrosoft ConvertMicrosoft expire cveXMLs xls cn).2)).
Proof.
  destruct (insert_runs_settled expire cn) as (HR & HD & HU & HM).
  split; intros Hexp.
  - assert (∀ bs, Forall (settles expire) bs → nothing_removed cn (run_batches bs cn))
      as Hkeep.
    { intros bs Hbs. apply run_batches_nothing_removed.
      eapply Forall_impl; [exact Hbs|]. intros b. by apply settles_keeps. }
    split; [|split; [|split]].
    + intros cveJSONs. destruct (HR cveJSONs) as (bs & -> & Hbs). by apply Hkeep.
    + intros cveJSONs. destruct (HD cveJSONs) as (bs & -> & Hbs). by apply Hkeep.
    + intros cveJSONs. destruct (HU cveJSONs) as (bs & -> & Hbs). by apply Hkeep.
    + intros cveXMLs xls. destruct (HM cveXMLs xls) as (bs & -> & Hbs). by apply Hkeep.
  - split; [|split; [|split]].
    + intros cveJSONs. destruct (HR cveJSONs) as (bs & -> & Hbs).
      by apply (run_batches_touched_gone expire).
    + intros cveJSONs. destruct (HD cveJSONs) as (bs & -> & Hbs).
      by apply (run_batches_touched_gone expire).
    + intros cveJSONs. destruct (HU cveJSONs) as (bs & -> & Hbs).
      by apply (run_batches_touched_gone expire).
    + intros cveXMLs xls. destruct (HM cveXMLs xls) as (bs & -> & Hbs).
      by apply (run_batches_touched_gone expire).
Qed.

(** X9. For a retention setting of [N] seconds with [0 < N <= 9223372036]
    every key an [Insert] touches, primary or index, ends with a
    time-to-live of [N] seconds, and for the setting 0 with none, whatever
    time-to-live it had and whatever the outcome of the call. *)
Theorem insert_retention_in_range expire cn :
  0 ≤ expire ≤ GoInt.max_expire →
  (∀ cveJSONs,
     retained_with (if decide (expire = 0) then None else Some expire) cn
       (InsertRedhat ConvertRedhat expire cveJSONs cn).2) ∧
  (∀ cveJSONs,
     retained_with (if decide (expire = 0) then None else Some expire) cn
       (InsertDebian ConvertDebian expire cveJSONs cn).2) ∧
  (∀ cveJSONs,
     retained_with (if decide (expire = 0) then None else Some expire) cn
       (InsertUbuntu ConvertUbuntu expire cveJSONs cn).2) ∧
  (∀ cveXMLs xls,
     retained_with (if decide (expire = 0) then None else Some expire) cn
       (InsertMicrosoft ConvertMicrosoft expire cveXMLs xls cn).2).
Proof.
  intros Hr.
  destruct (insert_applies_retention ConvertRedhat ConvertDebian ConvertUbuntu
    ConvertMicrosoft expire cn (in_range_no_wrap expire Hr)) as (HR & HD & HU & HM).
  split; [|split; [|split]]; intros; by apply retained_in_range.
Qed.

(** *** The other ways an [Insert] ends *)

Lemma InsertMicrosoft_records expire cveXMLs xls cn :
  first_err (exec_batch (db cn)
    (queueProducts expire (ConvertMicrosoft cveXMLs xls).2)).2 = None →
  InsertMicrosoft ConvertMicrosoft expire cveXMLs xls cn
  = insertEach Marshal (queueMicrosoft expire) (ConvertMicrosoft cveXMLs xls).1
      (run_batches [queueProducts expire (ConvertMicrosoft cveXMLs xls).2] cn).
Proof.
  intros Hok. unfold InsertMicrosoft.
  destruct (ConvertMicrosoft cveXMLs xls) as [cves products]. cbn [fst snd] in *.
  unfold bind. rewrite run_batches_cons, !pipe_exec_eq. cbn [fst snd run_batches foldl].
  by rewrite Hok.
Qed.

(** X10. [InsertUbuntu] and, once its product batch has gone through,
    [InsertMicrosoft] send one batch per record, in order; when the records
    before [cve] have gone through and a command of [cve]'s batch fails, the
    call returns that error at once and sends nothing of the records behind
    [cve]; for a retention setting whose duration fits (0 to 9223372036
    seconds), what the earlier batches wrote, primary record and index
    entries, is still in the store. *)
Theorem ubuntu_microsoft_abort_without_rollback expire :
  (∀ cveJSONs cn,
     batch_per_record Marshal (queueUbuntu expire) (ConvertUbuntu cveJSONs) cn
       (InsertUbuntu ConvertUbuntu expire cveJSONs cn)) ∧
  (∀ cveJSONs pre cve post j e cn,
     ConvertUbuntu cveJSONs = pre ++ cve :: post →
     Forall (λ c, is_Some (Marshal c)) pre → Marshal cve = Some j →
     all_ok (queued Marshal (queueUbuntu expire) pre) (db cn) = true →
     first_err (exec_batch
       (db (run_batches (queued Marshal (queueUbuntu expire) pre) cn))
       (queueUbuntu expire cve j)).2 = Some e →
     stops_at Marshal (queueUbuntu expire) pre cve j e cn
       (InsertUbuntu ConvertUbuntu expire cveJSONs cn) ∧
     (0 ≤ expire ≤ GoInt.max_expire →
      still_stored "Ubuntu" zindUbuntuPrefix Candidate
        (λ c, UbuntuPackageName <$> Patches c) pre
        (db (InsertUbuntu ConvertUbuntu expire cveJSONs cn).2))) ∧
  (∀ cveXMLs xls cn,
     first_err (exec_batch (db cn)
       (queueProducts expire (ConvertMicrosoft cveXMLs xls).2)).2 = None →
     batch_per_record Marshal (queueMicrosoft expire) (ConvertMicrosoft cveXMLs xls).1
       (run_batches [queueProducts expire (ConvertMicrosoft cveXMLs xls).2] cn)
       (InsertMicrosoft ConvertMicrosoft expire cveXMLs xls cn)) ∧
  (∀ cveXMLs xls pre cve post j e cn,
     first_err (exec_batch (db cn)
       (queueProducts expire (ConvertMicrosoft cveXMLs xls).2)).2 = None →
     (ConvertMicrosoft cveXMLs xls).1 = pre ++ cve :: post →
     Forall (λ c, is_Some (Marshal c)) pre → Marshal cve = Some j →
     all_ok (queued Marshal (queueMicrosoft expire) pre)
       (db (run_batches [queueProducts expire (ConvertMicrosoft cveXMLs xls).2] cn))
     = true →
     first_err (exec_batch
       (db (run_batches (queued Marshal (queueMicrosoft expire) pre)
              (run_batches [queueProducts expire (ConvertMicrosoft cveXMLs xls).2] cn)))
       (queueMicrosoft expire cve j)).2 = Some e →
     stops_at Marshal (queueMicrosoft expire) pre cve j e
       (run_batches [queueProducts expire (ConvertMicrosoft cveXMLs xls).2] cn)
       (InsertMicrosoft ConvertMicrosoft expire cveXMLs xls cn) ∧
     (0 ≤ expire ≤ GoInt.max_expire →
      still_stored "Microsoft" zindMicrosoftKBIDPrefix MicrosoftCveID
        (λ c, KBID <$> KBIDs c) pre
        (db (InsertMicrosoft ConvertMicrosoft expire cveXMLs xls cn).2))).
Proof.
  split; [|split; [|split]].
  - intros cveJSONs cn. apply insertEach_batch_per_record.
  - intros cveJSONs pre cve post j e cn Hconv Hpre Hj Hok Herr.
    unfold InsertUbuntu. rewrite Hconv.
    pose proof (insertEach_aborts Marshal (queueUbuntu expire) pre cve post j e cn
      Hpre Hj Hok Herr) as Hstop.
    split; [done|]. intros Hexp%in_range_no_wrap.
    destruct Hstop as [-> _]. cbn [snd].
    apply (earlier_records_remain Ubuntu Marshal (queueUbuntu expire) expire); try done.
    + apply queueUbuntu_shape.
    + intros. by apply queueUbuntu_own.
    + repeat constructor. by apply queueUbuntu_own.
  - intros cveXMLs xls cn Hfirst. rewrite InsertMicrosoft_records by done.
    apply insertEach_batch_per_record.
  - intros cveXMLs xls pre cve post j e cn Hfirst Hconv Hpre Hj Hok Herr.
    rewrite InsertMicrosoft_records by done. rewrite Hconv.
    pose proof (insertEach_aborts Marshal (queueMicrosoft expire) pre cve post j e _
      Hpre Hj Hok Herr) as Hstop.
    split; [done|]. intros Hexp%in_range_no_wrap.
    destruct Hstop as [-> _]. cbn [snd].
    apply (earlier_records_remain Microsoft Marshal (queueMicrosoft expire) expire);
      try done.
    + apply queueMicrosoft_shape.
    + intros. by apply queueMicrosoft_own.
    + repeat constructor. by apply queueMicrosoft_own.
Qed.

Lemma insertEach_marshal_fails {A} (marshal : A → option string) queue pre cve post cn :
  Forall (λ c, is_Some (marshal c)) pre →
  marshal cve = None →
  all_ok (queued marshal queue pre) (db cn) = true →
  stops_before marshal queue pre cn (insertEach marshal queue (pre ++ cve :: post) cn).
Proof.
  intros Hpre Hnone Hok. unfold stops_before.
  rewrite insertEach_app by done. cbn [insertEach]. rewrite Hnone. cbn [ret snd].
  split; [done|]. apply run_batches_sent.
Qed.

(** X11. A record that does not marshal ends the [Insert] with the marshal
    error before anything of it is queued: the batches sent are those of
    the records before it, which stay in the store.  A conversion error
    ends [InsertRedhat] before anything is sent. *)
Theorem insert_stops_at_marshal_error expire :
  (∀ cveJSONs cn,
     ConvertRedhat cveJSONs = None →
     InsertRedhat ConvertRedhat expire cveJSONs cn = (Some ConvertFailed, cn)) ∧
  (∀ cveJSONs pre cve post cn,
     ConvertRedhat cveJSONs = Some (pre ++ cve :: post) →
     Forall (λ c, is_Some (Marshal c)) pre → Marshal cve = None →
     all_ok (queued Marshal (queueRedhat expire) pre) (db cn) = true →
     stops_before Marshal (queueRedhat expire) pre cn
       (InsertRedhat ConvertRedhat expire cveJSONs cn)) ∧
  (∀ cveJSONs pre cve post cn,
     ConvertDebian cveJSONs = pre ++ cve :: post →
     Forall (λ c, is_Some (Marshal c)) pre → Marshal cve = None →
     all_ok (queued Marshal (queueDebian expire) pre) (db cn) = true →
     stops_before Marshal (queueDebian expire) pre cn
       (InsertDebian ConvertDebian expire cveJSONs cn)) ∧
  (∀ cveJSONs pre cve post cn,
     ConvertUbuntu cveJSONs = pre ++ cve :: post →
     Forall (λ c, is_Some (Marshal c)) pre → Marshal cve = None →
     all_ok (queued Marshal (queueUbuntu expire) pre) (db cn) = true →
     stops_before Marshal (queueUbuntu expire) pre cn
       (InsertUbuntu ConvertUbuntu expire cveJSONs cn)).
Proof.
  split; [|split; [|split]].
  - intros cveJSONs cn Hconv. unfold InsertRedhat. by rewrite Hconv.
  - intros cveJSONs pre cve post cn Hconv Hpre Hnone Hok.
    unfold InsertRedhat. rewrite Hconv. by apply insertEach_marshal_fails.
  - intros cveJSONs pre cve post cn Hconv Hpre Hnone Hok.
    unfold InsertDebian. rewrite Hconv. by apply insertEach_marshal_fails.
  - intros cveJSONs pre cve post cn Hconv Hpre Hnone Hok.
    unfold InsertUbuntu. rewrite Hconv. by apply insertEach_marshal_fails.
Qed.

(** *** The key schema as an invariant *)

Lemma exec_cmd_schema s c :
  well_typed s → schema_cmd c →
  well_typed (exec_cmd s c).1 ∧ reply_err (exec_cmd s c).2 = None.
Proof.
  intros Hwt Hc. destruct c as [k f v|k d|k|k sc m|k|k a b]; try done.
  - split.
    + intros k'. destruct (decide (k' = k)) as [->|Hne].
      * rewrite exec_cmd_kind_HSet. specialize (Hwt k).
        by destruct (key_kind s k) as [[|]|].
      * rewrite exec_cmd_kind_other; [apply Hwt|done|congruence|congruence].
    + apply exec_cmd_HSet_err. intros Hk. specialize (Hwt k). by rewrite Hk in Hwt.
  - split; [|apply exec_cmd_retention_ok; left; by exists k, d].
    intros k'. specialize (Hwt k'). cbn [exec_cmd].
    destruct (s !! k) as [[v t]|] eqn:Hk; cbn [fst]; [|done].
    destruct (_ <=? _); cbn [fst].
    + unfold key_kind in *. destruct (decide (k' = k)) as [->|Hne].
      * by rewrite lookup_delete_eq.
      * by rewrite lookup_delete_ne.
    + rewrite key_kind_insert. destruct (decide (k = k')) as [<-|Hne]; [|done].
      unfold key_kind in Hwt. rewrite Hk in Hwt. cbn [value]. by destruct v.
  - split; [|apply exec_cmd_retention_ok; right; by exists k].
    intros k'. rewrite exec_cmd_kind_other by done. apply Hwt.
  - split.
    + intros k'. destruct (decide (k' = k)) as [->|Hne].
      * rewrite exec_cmd_kind_ZAdd. specialize (Hwt k).
        by destruct (key_kind s k) as [[|]|].
      * rewrite exec_cmd_kind_other; [apply Hwt|done|congruence|congruence].
    + apply exec_cmd_ZAdd_err. intros Hk. specialize (Hwt k). by rewrite Hk in Hwt.
Qed.

Lemma exec_batch_schema cs s :
  well_typed s → Forall schema_cmd cs →
  well_typed (exec_batch s cs).1 ∧ first_err (exec_batch s cs).2 = None.
Proof.
  intros Hwt Hcs. revert s Hwt.
  induction Hcs as [|c cs Hc _ IH]; intros s Hwt; [done|].
  rewrite exec_batch_cons. cbn [fst snd first_err].
  destruct (exec_cmd_schema s c Hwt Hc) as [Hwt1 ->]. by apply IH.
Qed.

Lemma insertEach_schema {A} (marshal : A → option string) queue cves cn :
  (∀ cve j, cve ∈ cves → Forall schema_cmd (queue cve j)) →
  Forall (λ cve, is_Some (marshal cve)) cves →
  well_typed (db cn) →
  (insertEach marshal queue cves cn).1 = None ∧
  well_typed (db (insertEach marshal queue cves cn).2).
Proof.
  intros Hq Hm. revert cn. induction Hm as [|cve cves [j Hj] _ IH]; intros cn Hwt; [done|].
  cbn [insertEach]. rewrite Hj. unfold bind. rewrite pipe_exec_eq.
  destruct (exec_batch_schema (queue cve j) (db cn) Hwt) as [Hwt1 ->].
  { apply Hq. left. }
  apply IH; [|done]. intros c j' Hc. apply Hq. by right.
Qed.

Lemma index_prefix_indexed p n : p ∈ index_prefixes → indexed (p +:+ n).
Proof. intros Hp. exists p. split; [done|]. apply has_prefix_app. Qed.

Lemma touchBlocks_schema expire ws :
  Forall schema_cmd ws → Forall schema_cmd (touchBlocks expire ws).
Proof.
  intros Hws. apply Forall_forall. intros c Hc.
  unfold touchBlocks in Hc. apply list_elem_of_In, in_flat_map in Hc as (w & Hw & Hc).
  apply list_elem_of_In in Hw, Hc. cbn [app] in Hc.
  apply elem_of_cons in Hc as [->|Hc].
  - by apply (proj1 (Forall_forall _ _) Hws).
  - unfold retention in Hc.
    destruct (0 <? expire); apply list_elem_of_singleton in Hc as ->; done.
Qed.

Lemma indexWrites_schema prefix entries :
  prefix ∈ index_prefixes → Forall schema_cmd (indexWrites prefix entries).
Proof.
  intros Hp. unfold indexWrites. apply Forall_fmap, Forall_true.
  intros [n m]. by apply index_prefix_indexed.
Qed.

Lemma record_batch_schema expire field prefix cveID j names :
  prefix ∈ index_prefixes → plain cveID →
  Forall schema_cmd (touchBlocks expire (recordWrites field prefix cveID j names)).
Proof.
  intros Hp Hplain. apply touchBlocks_schema. unfold recordWrites.
  constructor; [done|]. by apply indexWrites_schema.
Qed.

(** X12. On a store that keeps to the key schema (sorted sets under the
    index prefixes, hashes elsewhere), an [Insert] of records that marshal
    and whose identifiers do not lead into the index part of the key space
    returns no error, and the store it leaves keeps to the schema. *)
Theorem insert_keeps_schema expire cn :
  well_typed (db cn) →
  (∀ cveJSONs cves,
     ConvertRedhat cveJSONs = Some cves →
     Forall (λ cve, is_Some (Marshal cve) ∧ plain (Name cve)) cves →
     (InsertRedhat ConvertRedhat expire cveJSONs cn).1 = None ∧
     well_typed (db (InsertRedhat ConvertRedhat expire cveJSONs cn).2)) ∧
  (∀ cveJSONs,
     Forall (λ cve, is_Some (Marshal cve) ∧ plain (DebianCveID cve))
       (ConvertDebian cveJSONs) →
     (InsertDebian ConvertDebian expire cveJSONs cn).1 = None ∧
     well_typed (db (InsertDebian ConvertDebian expire cveJSONs cn).2)) ∧
  (∀ cveJSONs,
     Forall (λ cve, is_Some (Marshal cve) ∧ plain (Candidate cve))
       (ConvertUbuntu cveJSONs) →
     (InsertUbuntu ConvertUbuntu expire cveJSONs cn).1 = None ∧
     well_typed (db (InsertUbuntu ConvertUbuntu expire cveJSONs cn).2)) ∧
  (∀ cveXMLs xls,
     Forall (λ cve, is_Some (Marshal cve) ∧ plain (MicrosoftCveID cve))
       (ConvertMicrosoft cveXMLs xls).1 →
     (InsertMicrosoft ConvertMicrosoft expire cveXMLs xls cn).1 = None ∧
     well_typed (db (InsertMicrosoft ConvertMicrosoft expire cveXMLs xls cn).2)).
Proof.
  intros Hwt.
  assert (zindRedHatPrefix ∈ index_prefixes) as HR by left.
  assert (zindDebianPrefix ∈ index_prefixes) as HD by (right; left).
  assert (zindUbuntuPrefix ∈ index_prefixes) as HU by (do 2 right; left).
  assert (zindMicrosoftKBIDPrefix ∈ index_prefixes) as HK by (do 3 right; left).
  assert (zindMicrosoftProductIDPrefix ∈ index_prefixes) as HP by (do 4 right; left).
  split; [|split; [|split]].
  - intros cveJSONs cves Hconv Hcves. unfold InsertRedhat. rewrite Hconv.
    apply insertEach_schema; [|by eapply Forall_impl; [done|intros ? []]|done].
    intros cve j Hcve. rewrite queueRedhat_shape.
    apply record_batch_schema; [done|].
    by destruct (proj1 (Forall_forall _ _) Hcves cve Hcve).
  - intros cveJSONs Hcves. unfold InsertDebian.
    apply insertEach_schema; [|by eapply Forall_impl; [done|intros ? []]|done].
    intros cve j Hcve. rewrite queueDebian_shape.
    apply record_batch_schema; [done|].
    by destruct (proj1 (Forall_forall _ _) Hcves cve Hcve).
  - intros cveJSONs Hcves. unfold InsertUbuntu.
    apply insertEach_schema; [|by eapply Forall_impl; [done|intros ? []]|done].
    intros cve j Hcve. rewrite queueUbuntu_shape.
    apply record_batch_schema; [done|].
    by destruct (proj1 (Forall_forall _ _) Hcves cve Hcve).
  - intros cveXMLs xls Hcves.
    destruct (exec_batch_schema
      (queueProducts expire (ConvertMicrosoft cveXMLs xls).2) (db cn) Hwt)
      as [Hwt1 Hfirst].
    { rewrite queueProducts_shape. by apply touchBlocks_schema, indexWrites_schema. }
    rewrite InsertMicrosoft_records by done.
    apply insertEach_schema; [|by eapply Forall_impl; [done|intros ? []]|].
    + intros cve j Hcve. rewrite queueMicrosoft_shape.
      apply record_batch_schema; [done|].
      by destruct (proj1 (Forall_forall _ _) Hcves cve Hcve).
    + rewrite run_batches_cons, pipe_exec_eq. apply Hwt1.
Qed.

(** *** One vendor's writes and the other vendors' readers *)

Lemma exec_cmd_zset_status s c k :
  keeps c → (∀ sc m, c ≠ ZAdd k sc m) →
  key_kind (exec_cmd s c).1 k = Some KZSet ↔ key_kind s k = Some KZSet.
Proof.
  intros Hkeep Hz. destruct c as [key f v|key d|key|key sc m|key|key a b];
    try (by rewrite exec_cmd_kind_other).
  - destruct (decide (key = k)) as [->|Hne].
    + rewrite exec_cmd_kind_HSet. by destruct (key_kind s k) as [[|]|].
    + rewrite exec_cmd_kind_other; [done|done| |done]. congruence.
Qed.

Lemma HGetAll_views s k :
  reply_err (exec_cmd s (HGetAll k)).2
  = (if decide (key_kind s k = Some KZSet) then Some WrongType else None) ∧
  ∀ f, map_val (exec_cmd s (HGetAll k)).2 !! f = hfield s k f.
Proof.
  simpl. unfold key_kind, hfield. by destruct (s !! k) as [[[h|z] t]|].
Qed.

(** A point reader sees of the store whether the primary key holds a sorted
    set and, if not, its own field. *)
Lemma point_readers_views s s' cveID :
  (key_kind s' (hashKeyPrefix +:+ cveID) = Some KZSet ↔
   key_kind s (hashKeyPrefix +:+ cveID) = Some KZSet) →
  (hfield s' (hashKeyPrefix +:+ cveID) "RedHat"
   = hfield s (hashKeyPrefix +:+ cveID) "RedHat" →
   loadRedhat s' cveID = loadRedhat s cveID) ∧
  (hfield s' (hashKeyPrefix +:+ cveID) "Debian"
   = hfield s (hashKeyPrefix +:+ cveID) "Debian" →
   loadDebian s' cveID = loadDebian s cveID) ∧
  (hfield s' (hashKeyPrefix +:+ cveID) "Ubuntu"
   = hfield s (hashKeyPrefix +:+ cveID) "Ubuntu" →
   loadUbuntu s' cveID = loadUbuntu s cveID) ∧
  (hfield s' (hashKeyPrefix +:+ cveID) "Microsoft"
   = hfield s (hashKeyPrefix +:+ cveID) "Microsoft" →
   loadMicrosoft s' cveID = loadMicrosoft s cveID).
Proof.
  intros Hkind.
  destruct (HGetAll_views s (hashKeyPrefix +:+ cveID)) as [Herr Hval].
  destruct (HGetAll_views s' (hashKeyPrefix +:+ cveID)) as [Herr' Hval'].
  assert (reply_err (exec_cmd s' (HGetAll (hashKeyPrefix +:+ cveID))).2
    = reply_err (exec_cmd s (HGetAll (hashKeyPrefix +:+ cveID))).2) as Hsame.
  { rewrite Herr, Herr'. destruct (decide _) as [H1|H1]; destruct (decide _) as [H2|H2];
      try done; exfalso; [apply H2, Hkind, H1 | apply H1, Hkind, H2]. }
  unfold loadRedhat, loadDebian, loadUbuntu, loadMicrosoft,
    GetRedhat, GetDebian, GetUbuntu, GetMicrosoft, bind.
  rewrite !do_cmd_read by done. cbn [fst snd db].
  rewrite Hsame, !Hval, !Hval'.
  repeat split; intros ->; (destruct (reply_err _); [done|]);
    (destruct (hfield s _ _) as [j|]; [|done]); by destruct (Unmarshal j).
Qed.

Lemma run_own_point_readers v bs cn cveID :
  v ∈ [RedHat; Debian; Ubuntu; Microsoft] →
  Forall (Forall (own_cmd v)) bs →
  plain cveID →
  (key_kind (db (run_batches bs cn)) (hashKeyPrefix +:+ cveID) = Some KZSet ↔
   key_kind (db cn) (hashKeyPrefix +:+ cveID) = Some KZSet) ∧
  ∀ field, field ≠ vfield v →
    hfield (db (run_batches bs cn)) (hashKeyPrefix +:+ cveID) field
    = hfield (db cn) (hashKeyPrefix +:+ cveID) field.
Proof.
  intros Hv Hbs Hplain. split.
  - apply (run_batches_preserves (own_cmd v)
      (λ s, key_kind s (hashKeyPrefix +:+ cveID) = Some KZSet ↔
            key_kind (db cn) (hashKeyPrefix +:+ cveID) = Some KZSet)); try done.
    intros s c Hown <-. apply exec_cmd_zset_status; [by apply (own_cmd_keeps v)|].
    intros sc m ->. destruct Hown as [(p & Hp & Hk) _].
    apply Hplain. exists p. split; [|done]. by apply (vprefixes_index v).
  - intros field Hf.
    apply (run_batches_preserves (own_cmd v)
      (λ s, hfield s (hashKeyPrefix +:+ cveID) field
            = hfield (db cn) (hashKeyPrefix +:+ cveID) field)); try done.
    intros s c Hown <-. apply exec_cmd_hfield_frame; [by apply (own_cmd_keeps v)|].
    by apply (own_cmd_field v).
Qed.

(** With a retention setting that does not wrap, every [Insert] runs
    batches of its vendor's own commands. *)
Lemma insert_runs_own expire cn :
  ¬ wraps expire →
  (∀ cveJSONs, ∃ bs,
     (InsertRedhat ConvertRedhat expire cveJSONs cn).2 = run_batches bs cn ∧
     Forall (Forall (own_cmd RedHat)) bs) ∧
  (∀ cveJSONs, ∃ bs,
     (InsertDebian ConvertDebian expire cveJSONs cn).2 = run_batches bs cn ∧
     Forall (Forall (own_cmd Debian)) bs) ∧
  (∀ cveJSONs, ∃ bs,
     (InsertUbuntu ConvertUbuntu expire cveJSONs cn).2 = run_batches bs cn ∧
     Forall (Forall (own_cmd Ubuntu)) bs) ∧
  (∀ cveXMLs xls, ∃ bs,
     (InsertMicrosoft ConvertMicrosoft expire cveXMLs xls cn).2 = run_batches bs cn ∧
     Forall (Forall (own_cmd Microsoft)) bs).
Proof.
  intros Hexp.
  assert (∀ {A} v (marshal : A → option string) queue cves,
    (∀ c j, Forall (own_cmd v) (queue c j)) →
    ∃ bs, (insertEach marshal queue cves cn).2 = run_batches bs cn ∧
          Forall (Forall (own_cmd v)) bs) as Heach.
  { intros A v marshal queue cves Hq.
    destruct (insertEach_run marshal queue cves cn) as (ran & rest & _ & _ & -> & _).
    eexists. split; [done|]. by apply queued_own. }
  split; [|split; [|split]].
  - intros cveJSONs. unfold InsertRedhat.
    destruct (ConvertRedhat cveJSONs); [apply Heach; intros; by apply queueRedhat_own|].
    by exists [].
  - intros cveJSONs. apply Heach. intros. by apply queueDebian_own.
  - intros cveJSONs. apply Heach. intros. by apply queueUbuntu_own.
  - intros cveXMLs xls.
    pose proof (InsertMicrosoft_run ConvertMicrosoft expire cveXMLs xls cn) as Hrun.
    cbn zeta in Hrun. destruct (first_err _).
    + rewrite Hrun. eexists. split; [done|]. repeat constructor.
      by apply queueProducts_own.
    + destruct Hrun as (ran & rest & _ & ->). eexists. split; [done|].
      constructor; [by apply queueProducts_own|]. apply queued_own.
      intros. by apply queueMicrosoft_own.
Qed.

(** X13. For a retention setting whose duration fits (0 to 9223372036
    seconds): an [Insert] of one vendor, whatever its outcome, does not
    change what the point readers of the other vendors return for an
    identifier whose primary key stays clear of the index part of the key
    space. *)
Theorem insert_leaves_other_readers expire cn cveID :
  0 ≤ expire ≤ GoInt.max_expire →
  plain cveID →
  (∀ cveJSONs,
     (GetDebian cveID (InsertRedhat ConvertRedhat expire cveJSONs cn).2).1
     = (GetDebian cveID cn).1 ∧
     (GetUbuntu cveID (InsertRedhat ConvertRedhat expire cveJSONs cn).2).1
     = (GetUbuntu cveID cn).1 ∧
     (GetMicrosoft cveID (InsertRedhat ConvertRedhat expire cveJSONs cn).2).1
     = (GetMicrosoft cveID cn).1) ∧
  (∀ cveJSONs,
     (GetRedhat cveID (InsertDebian ConvertDebian expire cveJSONs cn).2).1
     = (GetRedhat cveID cn).1 ∧
     (GetUbuntu cveID (InsertDebian ConvertDebian expire cveJSONs cn).2).1
     = (GetUbuntu cveID cn).1 ∧
     (GetMicrosoft cveID (InsertDebian ConvertDebian expire cveJSONs cn).2).1
     = (GetMicrosoft cveID cn).1) ∧
  (∀ cveJSONs,
     (GetRedhat cveID (InsertUbuntu ConvertUbuntu expire cveJSONs cn).2).1
     = (GetRedhat cveID cn).1 ∧
     (GetDebian cveID (InsertUbuntu ConvertUbuntu expire cveJSONs cn).2).1
     = (GetDebian cveID cn).1 ∧
     (GetMicrosoft cveID (InsertUbuntu ConvertUbuntu expire cveJSONs cn).2).1
     = (GetMicrosoft cveID cn).1) ∧
  (∀ cveXMLs xls,
     (GetRedhat cveID (InsertMicrosoft ConvertMicrosoft expire cveXMLs xls cn).2).1
     = (GetRedhat cveID cn).1 ∧
     (GetDebian cveID (InsertMicrosoft ConvertMicrosoft expire cveXMLs xls cn).2).1
     = (GetDebian cveID cn).1 ∧
     (GetUbuntu cveID (InsertMicrosoft ConvertMicrosoft expire cveXMLs xls cn).2).1
     = (GetUbuntu cveID cn).1).
Proof.
  intros Hexp%in_range_no_wrap Hplain.
  destruct (insert_runs_own expire cn Hexp) as (HR & HD & HU & HM).
  assert (∀ v bs, v ∈ [RedHat; Debian; Ubuntu; Microsoft] →
    Forall (Forall (own_cmd v)) bs →
    (vfield v ≠ "RedHat" →
       loadRedhat (db (run_batches bs cn)) cveID = loadRedhat (db cn) cveID) ∧
    (vfield v ≠ "Debian" →
       loadDebian (db (run_batches bs cn)) cveID = loadDebian (db cn) cveID) ∧
    (vfield v ≠ "Ubuntu" →
       loadUbuntu (db (run_batches bs cn)) cveID = loadUbuntu (db cn) cveID) ∧
    (vfield v ≠ "Microsoft" →
       loadMicrosoft (db (run_batches bs cn)) cveID = loadMicrosoft (db cn) cveID))
    as Hsame.
  { intros v bs Hv Hbs.
    destruct (run_own_point_readers v bs cn cveID Hv Hbs Hplain) as [Hkind Hfield].
    destruct (point_readers_views (db cn) (db (run_batches bs cn)) cveID Hkind)
      as (H1 & H2 & H3 & H4).
    repeat split; intros Hne; [apply H1|apply H2|apply H3|apply H4];
      apply Hfield; congruence. }
  rewrite !GetRedhat_run, !GetDebian_run, !GetUbuntu_run, !GetMicrosoft_run. cbn [fst].
  split; [|split; [|split]].
  - intros cveJSONs. destruct (HR cveJSONs) as (bs & -> & Hbs).
    destruct (Hsame RedHat bs) as (_ & H2 & H3 & H4); [left|done|].
    rewrite !GetDebian_run, !GetUbuntu_run, !GetMicrosoft_run. cbn [fst].
    split; [by apply H2|]. split; [by apply H3 | by apply H4].
  - intros cveJSONs. destruct (HD cveJSONs) as (bs & -> & Hbs).
    destruct (Hsame Debian bs) as (H1 & _ & H3 & H4); [right; left|done|].
    rewrite !GetRedhat_run, !GetUbuntu_run, !GetMicrosoft_run. cbn [fst].
    split; [by apply H1|]. split; [by apply H3 | by apply H4].
  - intros cveJSONs. destruct (HU cveJSONs) as (bs & -> & Hbs).
    destruct (Hsame Ubuntu bs) as (H1 & H2 & _ & H4); [do 2 right; left|done|].
    rewrite !GetRedhat_run, !GetDebian_run, !GetMicrosoft_run. cbn [fst].
    split; [by apply H1|]. split; [by apply H2 | by apply H4].
  - intros cveXMLs xls. destruct (HM cveXMLs xls) as (bs & -> & Hbs).
    destruct (Hsame Microsoft bs) as (H1 & H2 & H3 & _); [do 3 right; left|done|].
    rewrite !GetRedhat_run, !GetDebian_run, !GetUbuntu_run. cbn [fst].
    split; [by apply H1|]. split; [by apply H2 | by apply H3].
Qed.

End driver_facts.

(** ** Running the same batches again *)

(** Two stores with the same views are the same store. *)
Lemma store_ext (s s' : store) :
  (∀ k, key_kind s k = key_kind s' k) →
  (∀ k, key_ttl s k = key_ttl s' k) →
  (∀ k f, hfield s k f = hfield s' k f) →
  (∀ k m, zscore s k m = zscore s' k m) →
  s = s'.
Proof.
  intros Hkind Httl Hh Hz. apply map_eq. intros k.
  specialize (Hkind k). specialize (Httl k). specialize (Hh k). specialize (Hz k).
  unfold key_kind, key_ttl, hfield, zscore in *.
  destruct (s !! k) as [[[h|z] t]|]; destruct (s' !! k) as [[[h'|z'] t']|];
    cbn in *; try done; injection Httl as ->; do 3 f_equal; by apply map_eq.
Qed.

Lemma exec_cmd_zscore_key s c k m :
  keeps c → (∀ sc, c ≠ ZAdd k sc m) →
  zscore (exec_cmd s c).1 k m = zscore s k m.
Proof.
  intros Hkeep Hc. destruct c as [key f' v|key d|key|key sc m'|key|key a b]; simpl;
    key_cases s key Hk; try done;
    rewrite zscore_insert; destruct (decide (key = k)) as [<-|]; try done;
    unfold zscore; rewrite Hk; cbn [value]; try done.
  all: destruct (decide (m' = m)) as [->|Hne]; [by destruct (Hc sc)|].
  all: by rewrite ?lookup_insert_ne, ?lookup_singleton_ne.
Qed.

Lemma exec_cmd_write_kind s w :
  is_write w = true → reply_err (exec_cmd s w).2 = None →
  is_Some (key_kind (exec_cmd s w).1 (cmd_key w)).
Proof.
  intros Hw _. destruct w as [k f v|k d|k|k sc m|k|k a b]; try discriminate;
    cbn [cmd_key]; rewrite ?exec_cmd_kind_HSet, ?exec_cmd_kind_ZAdd; by eexists.
Qed.

(** Whether a write goes through depends on the kind of its key only. *)
Lemma exec_cmd_write_ok s s' w :
  is_write w = true →
  key_kind s' (cmd_key w) = key_kind s (cmd_key w) →
  reply_err (exec_cmd s w).2 = None → reply_err (exec_cmd s' w).2 = None.
Proof.
  intros Hw Hkind. destruct w as [k f v|k d|k|k sc m|k|k a b]; try discriminate;
    cbn [cmd_key] in Hkind.
  - rewrite !exec_cmd_HSet_err. by rewrite Hkind.
  - rewrite !exec_cmd_ZAdd_err. by rewrite Hkind.
Qed.

Lemma retention_views expire k s :
  ¬ wraps expire →
  first_err (exec_batch s (retention expire k)).2 = None ∧
  (∀ k', key_kind (exec_batch s (retention expire k)).1 k' = key_kind s k') ∧
  (∀ k' f, hfield (exec_batch s (retention expire k)).1 k' f = hfield s k' f) ∧
  (∀ k' m, zscore (exec_batch s (retention expire k)).1 k' m = zscore s k' m).
Proof.
  intros Hexp. pose proof (retention_keeps expire k Hexp) as Hkeep.
  unfold retention in *. destruct (0 <? expire); apply Forall_inv in Hkeep;
    rewrite exec_batch_cons; cbn [exec_batch fst snd first_err].
  - rewrite exec_cmd_retention_ok by (left; by eexists _, _).
    repeat split; intros; [by apply exec_cmd_kind_other | by apply exec_cmd_hfield_key
                          | by apply exec_cmd_zscore_key].
  - rewrite exec_cmd_retention_ok by (right; by eexists).
    repeat split; intros; [by apply exec_cmd_kind_other | by apply exec_cmd_hfield_key
                          | by apply exec_cmd_zscore_key].
Qed.

(** A block, a write and the retention on its key, seen through the views. *)
Lemma touch_block_views expire w s :
  ¬ wraps expire →
  first_err (exec_batch s ([w] ++ retention expire (cmd_key w))).2
  = reply_err (exec_cmd s w).2 ∧
  (∀ k, key_kind (exec_batch s ([w] ++ retention expire (cmd_key w))).1 k
        = key_kind (exec_cmd s w).1 k) ∧
  (∀ k f, hfield (exec_batch s ([w] ++ retention expire (cmd_key w))).1 k f
          = hfield (exec_cmd s w).1 k f) ∧
  (∀ k m, zscore (exec_batch s ([w] ++ retention expire (cmd_key w))).1 k m
          = zscore (exec_cmd s w).1 k m).
Proof.
  intros Hexp. cbn [app]. rewrite exec_batch_cons. cbn [fst snd first_err].
  destruct (retention_views expire (cmd_key w) (exec_cmd s w).1 Hexp)
    as (Hok & Hk & Hh & Hz).
  rewrite Hok. split; [by destruct (reply_err _)|]. done.
Qed.

Section rerun.
Variable expire : Z.
Hypothesis no_wrap : ¬ wraps expire.

(** The kinds of the keys only grow along a run that deletes nothing. *)
Lemma exec_batch_kind_stable cs s k x :
  Forall keeps cs →
  key_kind s k = Some x → key_kind (exec_batch s cs).1 k = Some x.
Proof.
  intros Hcs Hx.
  apply (exec_batch_preserves keeps (λ s, key_kind s k = Some x)); try done.
  intros s' c Hc. by apply exec_cmd_kind_stable.
Qed.

Lemma rerun_blocks rest ran s1 s s' :
  Forall (λ w, is_write w = true) rest →
  first_err (exec_batch s (touchBlocks expire rest)).2 = None →
  (exec_batch s (touchBlocks expire rest)).1 = s1 →
  in_step ran s1 s s' →
  first_err (exec_batch s' (touchBlocks expire rest)).2 = None ∧
  (exec_batch s' (touchBlocks expire rest)).1 = s1.
Proof.
  intros Hrest. revert ran s s'.
  induction Hrest as [|w rest Hw Hrest IH]; intros ran s s' Hok Hs1 Hstep.
  - cbn in Hs1. subst s1. split; [done|]. cbn.
    destruct Hstep as (Hkind & Hh & Hz & Httl).
    apply store_ext.
    + done.
    + intros k. destruct (Httl k) as [Hin Hout].
      destruct (decide (k ∈ cmd_key <$> ran)); auto.
    + intros k f. destruct (Hh k f) as [Hin Hout].
      destruct (decide (Exists (λ c, ∃ v, c = HSet k f v) ran)) as [Hex|Hex].
      * apply Exists_exists in Hex as (c & Hc & v & ->). apply Hin. by exists v.
      * apply Hout. intros v Hv. apply Hex, Exists_exists.
        exists (HSet k f v). split; [done | by exists v].
    + intros k m. destruct (Hz k m) as [Hin Hout].
      destruct (decide (Exists (λ c, ∃ sc, c = ZAdd k sc m) ran)) as [Hex|Hex].
      * apply Exists_exists in Hex as (c & Hc & sc & ->). apply Hin. by exists sc.
      * apply Hout. intros sc Hsc. apply Hex, Exists_exists.
        exists (ZAdd k sc m). split; [done | by exists sc].
  - rewrite touchBlocks_cons, exec_batch_app in Hok, Hs1 |- *.
    cbn [fst snd] in Hok, Hs1 |- *.
    apply first_err_app in Hok as [Hblock Hlater].
    set (b := [w] ++ retention expire (cmd_key w)) in *.
    assert (keeps w) as Hkw by (by destruct w).
    destruct (touch_block_views expire w s no_wrap) as (Herr & Hk & Hh & Hz).
    fold b in Herr, Hk, Hh, Hz.
    destruct (touch_block_views expire w s' no_wrap) as (Herr' & Hk' & Hh' & Hz').
    fold b in Herr', Hk', Hh', Hz'.
    destruct (touch_block_ttl expire s w no_wrap Hw) as [Ht Hto]. fold b in Ht, Hto.
    destruct (touch_block_ttl expire s' w no_wrap Hw) as [Ht' Hto']. fold b in Ht', Hto'.
    rewrite Herr in Hblock.
    destruct Hstep as (Hkind & Hhf & Hzs & Httl).
    (* the key of the write is in the final store, with the kind it has now *)
    assert (key_kind s1 (cmd_key w) = key_kind (exec_cmd s w).1 (cmd_key w)) as Hfinal.
    { destruct (exec_cmd_write_kind s w Hw Hblock) as [x Hx]. rewrite Hx.
      rewrite <- Hs1. apply exec_batch_kind_stable; [|by rewrite Hk].
      by apply touchBlocks_keeps. }
    assert (reply_err (exec_cmd s' w).2 = None) as Hblock'.
    { destruct w as [k f v|k d|k|k sc m|k|k a c]; try discriminate; cbn [cmd_key] in *.
      - apply exec_cmd_HSet_err. rewrite Hkind, Hfinal, exec_cmd_kind_HSet.
        apply exec_cmd_HSet_err in Hblock. by destruct (key_kind s k) as [[|]|].
      - apply exec_cmd_ZAdd_err. rewrite Hkind, Hfinal, exec_cmd_kind_ZAdd.
        apply exec_cmd_ZAdd_err in Hblock. by destruct (key_kind s k) as [[|]|]. }
    assert (∀ k, key_kind (exec_cmd s' w).1 k = key_kind s1 k) as Hkind'.
    { intros k. destruct (key_kind s' k) as [x|] eqn:Hx.
      - rewrite (exec_cmd_kind_stable s' w k x Hkw Hx). by rewrite <- Hkind, Hx.
      - destruct (decide (k = cmd_key w)) as [->|Hne].
        + exfalso. rewrite Hkind, Hfinal in Hx.
          destruct (exec_cmd_write_kind s w Hw Hblock) as [y Hy]. congruence.
        + rewrite <- Hkind.
          destruct w as [k0 f v|k0 d|k0|k0 sc m|k0|k0 a c]; try discriminate;
            cbn [cmd_key] in Hne; apply exec_cmd_kind_other; (done || congruence). }
    rewrite <- Herr' in Hblock'.
    cut (in_step (ran ++ [w]) s1 (exec_batch s b).1 (exec_batch s' b).1).
    { intros Hnext.
      destruct (IH (ran ++ [w]) _ _ Hlater Hs1 Hnext) as [Hok' Hs1'].
      split; [by apply first_err_app | done]. }
    rewrite Herr' in Hblock'.
    split; [|split; [|split]].
    + intros k. by rewrite Hk'.
    + intros k f. rewrite Hh', Hh. split.
      * intros (v & [Hv|Hv%list_elem_of_singleton]%elem_of_app).
        -- destruct (decide (∃ v', w = HSet k f v')) as [(v' & ->)|Hno].
           ++ by rewrite !exec_cmd_HSet_ok.
           ++ rewrite !exec_cmd_hfield_key
                by (done || (intros v' ->; apply Hno; by exists v')).
              apply Hhf. by exists v.
        -- subst w. by rewrite !exec_cmd_HSet_ok.
      * intros Hnone.
        rewrite exec_cmd_hfield_key.
        -- apply Hhf. intros v Hv. apply (Hnone v), elem_of_app. by left.
        -- done.
        -- intros v ->. apply (Hnone v), elem_of_app. right. left.
    + intros k m. rewrite Hz', Hz. split.
      * intros (sc & [Hsc|Hsc%list_elem_of_singleton]%elem_of_app).
        -- destruct (decide (∃ sc', w = ZAdd k sc' m)) as [(sc' & ->)|Hno].
           ++ by rewrite !exec_cmd_ZAdd_ok.
           ++ rewrite !exec_cmd_zscore_key
                by (done || (intros sc' ->; apply Hno; by exists sc')).
              apply Hzs. by exists sc.
        -- subst w. by rewrite !exec_cmd_ZAdd_ok.
      * intros Hnone.
        rewrite exec_cmd_zscore_key.
        -- apply Hzs. intros sc Hsc. apply (Hnone sc), elem_of_app. by left.
        -- done.
        -- intros sc ->. apply (Hnone sc), elem_of_app. right. left.
    + intros k. rewrite fmap_app. cbn [fmap list_fmap]. split.
      * intros Hin. destruct (decide (k = cmd_key w)) as [->|Hne].
        -- by rewrite Ht, Ht'.
        -- rewrite Hto, Hto' by done. apply Httl.
           apply elem_of_app in Hin as [Hin|Hin%list_elem_of_singleton]; done.
      * intros Hnot. apply not_elem_of_app in Hnot as [Hnot Hne%not_elem_of_cons].
        destruct Hne as [Hne _]. rewrite Hto' by done. by apply Httl.
Qed.

End rerun.

(** Batches that went through go through again, and the second run leaves
    the store the first one made. *)
Lemma rerun_batches expire bs cn :
  Forall (settles expire) bs →
  all_ok bs (db cn) = true →
  all_ok bs (db (run_batches bs cn)) = true ∧
  db (run_batches bs (run_batches bs cn)) = db (run_batches bs cn).
Proof.
  intros Hset Hok. destruct (decide (wraps expire)) as [Hexp|Hexp].
  { by apply (rerun_batches_wraps expire). }
  revert Hset Hok. intros (ws & Hws & Hbs)%settles_concat Hok%all_ok_concat.
  rewrite all_ok_concat, !run_batches_db, Hbs in *.
  apply (rerun_blocks expire Hexp ws [] _ (db cn)); [done|done|done|].
  split; [done|]. split; [|split].
  - intros k f. split; [by intros [v Hv%elem_of_nil] | done].
  - intros k m. split; [by intros [sc Hsc%elem_of_nil] | done].
  - intros k. split; [by intros Hk%elem_of_nil | done].
Qed.

Lemma insertEach_rerun {A} expire (marshal : A → option string) queue cves cn cn' :
  (∀ c j, settles expire (queue c j)) →
  insertEach marshal queue cves cn = (None, cn') →
  (insertEach marshal queue cves cn').1 = None ∧
  db (insertEach marshal queue cves cn').2 = db cn'.
Proof.
  intros Hq Hrun.
  destruct (insertEach_run marshal queue cves cn) as (ran & rest & -> & Hran & Hcn & Hok).
  rewrite Hrun in Hcn, Hok. cbn [fst snd] in Hcn, Hok.
  destruct Hok as [-> Hok]; [done|]. subst cn'.
  assert (Forall (settles expire) (queued marshal queue ran)) as Hset.
  { apply Forall_forall. intros b (cve & j & _ & _ & ->)%elem_of_queued. apply Hq. }
  destruct (rerun_batches expire _ cn Hset Hok) as [Hok' Hdb].
  rewrite (insertEach_app marshal queue ran []) by done. done.
Qed.

Section rerun_facts.

Context `{!JSON RedhatCVE, !JSON DebianCVE, !JSON UbuntuCVE, !JSON MicrosoftCVE}.
Context {RedhatCVEJSON DebianJSON UbuntuCVEJSON : Type}.
Context {MicrosoftXML MicrosoftBulletinSearch : Type}.
Variable ConvertRedhat : list RedhatCVEJSON → option (list RedhatCVE).
Variable ConvertDebian : DebianJSON → list DebianCVE.
Variable ConvertUbuntu : list UbuntuCVEJSON → list UbuntuCVE.
Variable ConvertMicrosoft :
  list MicrosoftXML → list MicrosoftBulletinSearch →
  list MicrosoftCVE * list MicrosoftProduct.

(** X14. An [Insert] that returned no error can be repeated: called again
    with the same input and the same setting on the connection it left, it
    returns no error again and leaves every key of the store with the
    content and the time-to-live request the first call gave it. *)
Theorem insert_again_changes_nothing expire :
  (∀ cveJSONs cn cn',
     InsertRedhat ConvertRedhat expire cveJSONs cn = (None, cn') →
     (InsertRedhat ConvertRedhat expire cveJSONs cn').1 = None ∧
     db (InsertRedhat ConvertRedhat expire cveJSONs cn').2 = db cn') ∧
  (∀ cveJSONs cn cn',
     InsertDebian ConvertDebian expire cveJSONs cn = (None, cn') →
     (InsertDebian ConvertDebian expire cveJSONs cn').1 = None ∧
     db (InsertDebian ConvertDebian expire cveJSONs cn').2 = db cn') ∧
  (∀ cveJSONs cn cn',
     InsertUbuntu ConvertUbuntu expire cveJSONs cn = (None, cn') →
     (InsertUbuntu ConvertUbuntu expire cveJSONs cn').1 = None ∧
     db (InsertUbuntu ConvertUbuntu expire cveJSONs cn').2 = db cn') ∧
  (∀ cveXMLs xls cn cn',
     InsertMicrosoft ConvertMicrosoft expire cveXMLs xls cn = (None, cn') →
     (InsertMicrosoft ConvertMicrosoft expire cveXMLs xls cn').1 = None ∧
     db (InsertMicrosoft ConvertMicrosoft expire cveXMLs xls cn').2 = db cn').
Proof.
  split; [|split; [|split]].
  - intros cveJSONs cn cn'. unfold InsertRedhat.
    destruct (ConvertRedhat cveJSONs) as [cves|]; [|done].
    apply (insertEach_rerun expire). intros c j. rewrite queueRedhat_shape. apply record_settles.
  - intros cveJSONs cn cn'. unfold InsertDebian.
    apply (insertEach_rerun expire). intros c j. rewrite queueDebian_shape. apply record_settles.
  - intros cveJSONs cn cn'. unfold InsertUbuntu.
    apply (insertEach_rerun expire). intros c j. rewrite queueUbuntu_shape. apply record_settles.
  - intros cveXMLs xls cn cn' Hrun.
    set (first := queueProducts expire (ConvertMicrosoft cveXMLs xls).2).
    set (cves := (ConvertMicrosoft cveXMLs xls).1).
    pose proof (InsertMicrosoft_run ConvertMicrosoft expire cveXMLs xls cn) as Hfirst.
    cbn zeta in Hfirst. fold first in Hfirst.
    destruct (first_err (exec_batch (db cn) first).2) as [e|] eqn:Herr.
    { rewrite Hrun in Hfirst. discriminate. }
    clear Hfirst.
    rewrite (InsertMicrosoft_records ConvertMicrosoft) in Hrun by done.
    fold first cves in Hrun.
    destruct (insertEach_run Marshal (queueMicrosoft expire) cves (run_batches [first] cn))
      as (ran & rest & Hcves & Hran & Hcn & Hok).
    rewrite Hrun in Hcn, Hok. cbn [fst snd] in Hcn, Hok.
    destruct Hok as [-> Hok]; [done|]. rewrite app_nil_r in Hcves.
    set (bs := queued Marshal (queueMicrosoft expire) ran) in *.
    assert (cn' = run_batches (first :: bs) cn) as Hcn' by done.
    assert (all_ok (first :: bs) (db cn) = true) as Hall.
    { rewrite all_ok_cons, Herr. rewrite run_batches_cons, pipe_exec_eq in Hok.
      apply Hok. }
    assert (Forall (settles expire) (first :: bs)) as Hset.
    { constructor; [apply queueProducts_settles|].
      apply Forall_forall. intros b (cve & j & _ & _ & ->)%elem_of_queued.
      rewrite queueMicrosoft_shape. apply record_settles. }
    destruct (rerun_batches expire _ cn Hset Hall) as [Hall' Hdb].
    rewrite <- Hcn' in Hall', Hdb.
    rewrite all_ok_cons in Hall'.
    destruct (first_err (exec_batch (db cn') first).2) eqn:Herr'; [done|].
    rewrite (InsertMicrosoft_records ConvertMicrosoft) by done.
    fold first cves. rewrite Hcves.
    rewrite <- (app_nil_r ran).
    rewrite (insertEach_app Marshal (queueMicrosoft expire) ran []).
    + cbn [insertEach ret fst snd]. split; [done|]. fold bs.
      exact Hdb.
    + done.
    + fold bs. by rewrite run_batches_cons, pipe_exec_eq.
Qed.

End rerun_facts.

(** ** Identifiers and an empty store *)

(** An identifier of the usual form has its primary key outside the index
    part of the key space. *)
Lemma cve_id_plain n : plain ("CVE-" +:+ n).
Proof.
  intros (p & Hp & rest & Heq). unfold index_prefixes in Hp.
  repeat (apply elem_of_cons in Hp as [->|Hp]); try (by apply elem_of_nil in Hp);
    discriminate Heq.
Qed.

Lemma well_typed_empty : well_typed ∅.
Proof. intros k. unfold key_kind. by rewrite lookup_empty. Qed.

(** ** The driver on the small instance *)

Import Demo.

(** The filter example of the specification: a document for "bash" with an
    open and a resolved release of "bookworm". *)
Example unfixed_bash :
  (GetUnfixedCvesDebian debVerCodename "12" "bash" loaded).1
  = {[ "CVE-2023-0001" :=
         {| DebianCveID := "CVE-2023-0001";
            Package := [ {| DebianPackageName := "bash";
                            Release := [ {| ProductName := "bookworm";
                                            DebianStatus := "open" |} ] |} ] |} ]}.
Proof. vm_compute. reflexivity. Qed.

Example fixed_bash :
  (GetFixedCvesDebian debVerCodename "12" "bash" loaded).1
  = {[ "CVE-2023-0001" :=
         {| DebianCveID := "CVE-2023-0001";
            Package := [ {| DebianPackageName := "bash";
                            Release := [ {| ProductName := "bookworm";
                                            DebianStatus := "resolved" |} ] |} ] |} ]}.
Proof. vm_compute. reflexivity. Qed.

(** The toggle of the Red Hat reader. *)
Example will_not_fix_kept :
  PackageState <$>
    (GetUnfixedCvesRedhat "8" "openssl" false
       (InsertRedhat ConvertRedhat 0 [openssl] fresh).2).1 !! "CVE-2023-0003"
  = Some [ {| Cpe := "cpe:/o:redhat:enterprise_linux:8";
              RedhatPackageName := "openssl"; FixState := "Will not fix" |};
           {| Cpe := "cpe:/o:redhat:enterprise_linux:8";
              RedhatPackageName := "openssl"; FixState := "Affected" |} ].
Proof. vm_compute. reflexivity. Qed.

Example will_not_fix_ignored :
  PackageState <$>
    (GetUnfixedCvesRedhat "8" "openssl" true
       (InsertRedhat ConvertRedhat 0 [openssl] fresh).2).1 !! "CVE-2023-0003"
  = Some [ {| Cpe := "cpe:/o:redhat:enterprise_linux:8";
              RedhatPackageName := "openssl"; FixState := "Affected" |} ].
Proof. vm_compute. reflexivity. Qed.

(** The batches of a Microsoft insert, products first. *)
Example microsoft_batches :
  sent (InsertMicrosoft ConvertMicrosoft 60 [rdp] [windows] fresh).2
  = [ [ ZAdd "CVE#P#11568" 0 "Windows 10"; Expire "CVE#P#11568" 60000000000 ];
      [ HSet "CVE#CVE-2023-0005" "Microsoft" "{CVE-2023-0005}";
        Expire "CVE#CVE-2023-0005" 60000000000;
        ZAdd "CVE#K#5005565" 0 "CVE-2023-0005";
        Expire "CVE#K#5005565" 60000000000 ] ].
Proof. vm_compute. reflexivity. Qed.

(** C4. With the retention setting 9223372037 the product
    [expire*uint(time.Second)] no longer fits [time.Duration]: the insert
    goes through, but the expiry it requests for the primary key and for the
    index key is a negative duration, which the client sends as -9223372036
    seconds, not an expiry of 9223372037 seconds; on that timeout the
    server removes the two keys instead of keeping them for the time
    asked. *)
Theorem retention_wraps_around :
  (InsertDebian ConvertDebian 9223372037 [tar] fresh).1 = None ∧
  sent (InsertDebian ConvertDebian 9223372037 [tar] fresh).2
  = [ [ HSet "CVE#CVE-2023-0002" "Debian" "{CVE-2023-0002}";
        Expire "CVE#CVE-2023-0002" (-9223372036709551616);
        ZAdd "CVE#D#tar" 0 "CVE-2023-0002";
        Expire "CVE#D#tar" (-9223372036709551616) ] ] ∧
  formatSec (-9223372036709551616) = -9223372036 ∧
  key_ttl (db (InsertDebian ConvertDebian 9223372037 [tar] fresh).2) "CVE#CVE-2023-0002"
  = None ∧
  key_ttl (db (InsertDebian ConvertDebian 9223372037 [tar] fresh).2) "CVE#D#tar"
  = None.
Proof. vm_compute. done. Qed.

(** C5 (as stated) fails for Debian and Ubuntu: on an empty store the read
    of the primary record succeeds, the vendor's field is not there, and the
    reader returns no document at all. *)
Lemma absent_field_no_result :
  reply_err (exec_cmd (db fresh) (HGetAll (hashKeyPrefix +:+ "CVE-2023-0001"))).2 = None ∧
  hfield (db fresh) (hashKeyPrefix +:+ "CVE-2023-0001") "Debian" = None ∧
  hfield (db fresh) (hashKeyPrefix +:+ "CVE-2023-0001") "Ubuntu" = None ∧
  ¬ is_Some (GetDebian "CVE-2023-0001" fresh).1 ∧
  ¬ is_Some (GetUbuntu "CVE-2023-0001" fresh).1.
Proof.
  repeat split; try (vm_compute; reflexivity); intros [d Hd]; vm_compute in Hd;
    discriminate.
Qed.

(** *** The statements with hypotheses, at concrete inputs *)

Lemma insert_index_consistency_witness :
  zscore (db (InsertRedhat ConvertRedhat 0 [openssl] fresh).2)
    (zindRedHatPrefix +:+ "openssl") "CVE-2023-0003" = Some 0 ∧
  zscore (db loaded) (zindDebianPrefix +:+ "bash") "CVE-2023-0001" = Some 0 ∧
  zscore (db (InsertUbuntu ConvertUbuntu 60 [curl] fresh).2)
    (zindUbuntuPrefix +:+ "curl") "CVE-2023-0004" = Some 0 ∧
  zscore (db (InsertMicrosoft ConvertMicrosoft 60 [rdp] [windows] fresh).2)
    (zindMicrosoftKBIDPrefix +:+ "5005565") "CVE-2023-0005" = Some 0 ∧
  zscore (db (InsertMicrosoft ConvertMicrosoft 60 [rdp] [windows] fresh).2)
    (zindMicrosoftProductIDPrefix +:+ "11568") "Windows 10" = Some 0.
Proof.
  assert (0 ≤ 0 ≤ GoInt.max_expire) as H0 by (vm_compute; split; discriminate).
  assert (0 ≤ 60 ≤ GoInt.max_expire) as H60 by (vm_compute; split; discriminate).
  pose proof (insert_index_consistency
    ConvertRedhat ConvertDebian ConvertUbuntu ConvertMicrosoft 0 H0) as (HR & HD & _ & _).
  pose proof (insert_index_consistency
    ConvertRedhat ConvertDebian ConvertUbuntu ConvertMicrosoft 60 H60)
    as (_ & _ & HU & HM).
  split; [|split; [|split; [|split]]].
  - refine (HR [openssl] [openssl] fresh _ _ _ openssl
      {| Cpe := "cpe:/o:redhat:enterprise_linux:8";
         RedhatPackageName := "openssl"; FixState := "Affected" |} _ _).
    + reflexivity.
    + vm_compute. reflexivity.
    + left.
    + right. left.
  - refine (HD [bash; tar] fresh loaded _ bash
      {| DebianPackageName := "bash"; Release := _ |} _ _).
    + vm_compute. reflexivity.
    + left.
    + left.
  - refine (HU [curl] fresh _ _ curl
      {| UbuntuPackageName := "curl"; ReleasePatches := _ |} _ _).
    + vm_compute. reflexivity.
    + left.
    + left.
  - refine (proj1 (HM [rdp] [windows] fresh _ _) rdp {| KBID := "5005565" |} _ _).
    + vm_compute. reflexivity.
    + left.
    + left.
  - refine (proj2 (HM [rdp] [windows] fresh _ _) windows _).
    + vm_compute. reflexivity.
    + left.
Defined.

Lemma absent_field_point_read_witness :
  (GetRedhat "CVE-2023-0001" fresh).1 = Some zeroRedhatCVE ∧
  (GetMicrosoft "CVE-2023-0001" fresh).1 = Some zeroMicrosoftCVE ∧
  (GetDebian "CVE-2023-0001" fresh).1 = None ∧
  (GetUbuntu "CVE-2023-0001" fresh).1 = None.
Proof.
  destruct (absent_field_point_read "CVE-2023-0001" fresh) as (HR & HM & HD & HU).
  - vm_compute. reflexivity.
  - split; [|split; [|split]].
    + apply HR. vm_compute. reflexivity.
    + apply HM. vm_compute. reflexivity.
    + apply HD. vm_compute. reflexivity.
    + apply HU. vm_compute. reflexivity.
Defined.

Lemma multi_get_consistency_witness :
  ("CVE-2023-0003" ∈ ["CVE-2023-0003"; "CVE-2023-0404"] ∧
   (GetRedhat "CVE-2023-0003" (InsertRedhat ConvertRedhat 0 [openssl] fresh).2).1
   = Some openssl) ∧
  ("CVE-2023-0005" ∈ ["CVE-2023-0005"] ∧
   (GetMicrosoft "CVE-2023-0005"
      (InsertMicrosoft ConvertMicrosoft 0 [rdp] [windows] fresh).2).1
   = Some rdp) ∧
  (GetRedhatMulti ["CVE-2023-0003"] clash).1 = None ∧
  (GetMicrosoftMulti ["CVE-2023-0003"] clash).1 = None.
Proof.
  split; [|split].
  - refine (proj1 (multi_get_consistency ["CVE-2023-0003"; "CVE-2023-0404"]
      (InsertRedhat ConvertRedhat 0 [openssl] fresh).2)
      {[ "CVE-2023-0003" := openssl; "CVE-2023-0404" := zeroRedhatCVE ]} _
      "CVE-2023-0003" openssl _).
    + vm_compute. reflexivity.
    + vm_compute. reflexivity.
  - refine (proj1 (proj2 (multi_get_consistency ["CVE-2023-0005"]
      (InsertMicrosoft ConvertMicrosoft 0 [rdp] [windows] fresh).2))
      {[ "CVE-2023-0005" := rdp ]} _ "CVE-2023-0005" rdp _).
    + vm_compute. reflexivity.
    + vm_compute. reflexivity.
  - refine (proj2 (proj2 (multi_get_consistency ["CVE-2023-0003"] clash))
      WrongType _ _).
    + vm_compute. reflexivity.
    + discriminate.
Defined.

Lemma unmapped_major_is_empty_witness :
  getCvesDebianWithFixStatus debVerCodename "13" "bash" "open" loaded = (∅, loaded) ∧
  getCvesUbuntuWithFixStatus ubuntuVerCodename "13" "curl" ["released"] loaded
  = (∅, loaded).
Proof.
  split.
  - refine (proj1 (unmapped_major_is_empty debVerCodename ubuntuVerCodename
      "13" "bash" loaded) _ "open").
    vm_compute. reflexivity.
  - refine (proj2 (unmapped_major_is_empty debVerCodename ubuntuVerCodename
      "13" "curl" loaded) _ ["released"]).
    vm_compute. reflexivity.
Defined.

Lemma insert_aborts_without_rollback_witness :
  queueDebian 60 tar (braces "CVE-2023-0002")
  = [ HSet "CVE#CVE-2023-0002" "Debian" "{CVE-2023-0002}";
      Expire "CVE#CVE-2023-0002" 60000000000;
      ZAdd "CVE#D#tar" 0 "CVE-2023-0002";
      Expire "CVE#D#tar" 60000000000 ] ∧
  sent (InsertRedhat ConvertRedhat 0 [openssl] fresh).2
  = [ queueRedhat 0 openssl (braces "CVE-2023-0003") ] ∧
  sent (InsertDebian ConvertDebian 0 [bash; tar] fresh).2
  = [ queueDebian 0 bash (braces "CVE-2023-0001");
      queueDebian 0 tar (braces "CVE-2023-0002") ] ∧
  (InsertRedhat ConvertRedhat 0 [openssl] clash).1 = Some (ExecFailed WrongType) ∧
  (InsertDebian ConvertDebian 60 [bash; odd; tar; bash] fresh).1
  = Some (ExecFailed WrongType) ∧
  sent (InsertDebian ConvertDebian 60 [bash; odd; tar; bash] fresh).2
  = [ queueDebian 60 bash (braces "CVE-2023-0001");
      queueDebian 60 odd (braces "D#tar");
      queueDebian 60 tar (braces "CVE-2023-0002") ] ∧
  is_Some (hfield (db (InsertDebian ConvertDebian 60 [bash; odd; tar; bash] fresh).2)
             (hashKeyPrefix +:+ "CVE-2023-0001") "Debian") ∧
  zscore (db (InsertDebian ConvertDebian 60 [bash; odd; tar; bash] fresh).2)
    (zindDebianPrefix +:+ "bash") "CVE-2023-0001" = Some 0.
Proof.
  assert (0 ≤ 60 ≤ GoInt.max_expire) as H60 by (vm_compute; split; discriminate).
  pose proof (insert_aborts_without_rollback ConvertRedhat ConvertDebian 60)
    as (_ & Hshape & _ & _ & _ & HD).
  pose proof (insert_aborts_without_rollback ConvertRedhat ConvertDebian 0)
    as (_ & _ & HR0 & HD0 & HR & _).
  destruct (HR0 [openssl] [openssl] fresh eq_refl) as (ranR & restR & HcR & HsR & HnR).
  destruct (HD0 [bash; tar] fresh) as (ranD & restD & HcD & HsD & HnD).
  destruct (HR [openssl] [] openssl [] (braces "CVE-2023-0003") WrongType clash)
    as ((HR1 & _) & _).
  { reflexivity. }
  { constructor. }
  { reflexivity. }
  { vm_compute. reflexivity. }
  { vm_compute. reflexivity. }
  destruct (HD [bash; odd; tar; bash] [bash; odd] tar [bash] (braces "CVE-2023-0002")
    WrongType fresh) as ((HD1 & HD2) & HD3).
  { reflexivity. }
  { repeat constructor; by eexists. }
  { reflexivity. }
  { vm_compute. reflexivity. }
  { vm_compute. reflexivity. }
  destruct (HD3 H60 bash) as [Hprimary Hindex]; [left|].
  split; [|split; [|split; [|split; [|split; [|split; [|split]]]]]].
  - rewrite (Hshape tar (braces "CVE-2023-0002")). vm_compute. reflexivity.
  - rewrite HsR. rewrite (HnR eq_refl), app_nil_r in HcR. by subst ranR.
  - rewrite HsD. rewrite (HnD eq_refl), app_nil_r in HcD. by subst ranD.
  - by rewrite HR1.
  - by rewrite HD1.
  - exact HD2.
  - exact Hprimary.
  - apply (Hindex "bash"). left.
Defined.

Lemma insert_frames_other_vendors_witness :
  0 ≤ 60 ≤ GoInt.max_expire ∧
  db (InsertRedhat ConvertRedhat 60 [shared] loaded).2 !! "CVE#D#bash"
  = db loaded !! "CVE#D#bash" ∧
  hfield (db (InsertRedhat ConvertRedhat 60 [shared] loaded).2)
    (hashKeyPrefix +:+ "CVE-2023-0001") "Debian" = Some (braces "CVE-2023-0001") ∧
  sent (InsertRedhat ConvertRedhat 60 [shared] loaded).2
  = sent loaded
    ++ [ [ HSet "CVE#CVE-2023-0001" "RedHat" "{CVE-2023-0001}";
           Expire "CVE#CVE-2023-0001" 60000000000 ] ].
Proof.
  assert (0 ≤ 60 ≤ GoInt.max_expire) as H60 by (vm_compute; split; discriminate).
  split; [done|].
  destruct (insert_frames_other_vendors ConvertRedhat ConvertDebian ConvertUbuntu
    ConvertMicrosoft 60 loaded) as (HR & _).
  destruct (HR [shared]) as ((_ & Hindex) & Hfield).
  { intros cves [= <-]. repeat constructor. apply (cve_id_plain "2023-0001"). }
  split; [|split].
  - apply (Hindex zindDebianPrefix).
    + right. left.
    + intros [Heq|[]%elem_of_nil]%elem_of_cons. discriminate Heq.
    + by exists "bash".
  - rewrite (Hfield H60) by done. vm_compute. reflexivity.
  - vm_compute. reflexivity.
Defined.

(** ** The further facts on the small instance *)

Lemma insert_then_get_witness :
  (GetRedhat "CVE-2023-0003" (InsertRedhat ConvertRedhat 0 [openssl] fresh).2).1
  = Some openssl ∧
  (GetDebian "CVE-2023-0002" loaded).1 = Some tar ∧
  (GetUbuntu "CVE-2023-0004" (InsertUbuntu ConvertUbuntu 60 [curl] fresh).2).1
  = Some curl ∧
  (GetMicrosoft "CVE-2023-0005"
     (InsertMicrosoft ConvertMicrosoft 60 [rdp] [windows] fresh).2).1 = Some rdp.
Proof.
  assert (0 ≤ 0 ≤ GoInt.max_expire) as H0 by (vm_compute; split; discriminate).
  assert (0 ≤ 60 ≤ GoInt.max_expire) as H60 by (vm_compute; split; discriminate).
  pose proof (insert_then_get ConvertRedhat ConvertDebian ConvertUbuntu ConvertMicrosoft 0
    H0) as (HR & HD & _ & _).
  pose proof (insert_then_get ConvertRedhat ConvertDebian ConvertUbuntu ConvertMicrosoft 60
    H60) as (_ & _ & HU & HM).
  split; [|split; [|split]].
  - refine (HR [openssl] [openssl] fresh _ openssl _ _ _).
    + reflexivity.
    + vm_compute. reflexivity.
    + vm_compute. reflexivity.
  - refine (HD [bash; tar] fresh loaded tar _ _).
    + vm_compute. reflexivity.
    + vm_compute. reflexivity.
  - refine (HU [curl] fresh _ curl _ _).
    + vm_compute. reflexivity.
    + vm_compute. reflexivity.
  - refine (HM [rdp] [windows] fresh _ rdp _ _).
    + vm_compute. reflexivity.
    + vm_compute. reflexivity.
Defined.

Lemma insert_then_unfixed_redhat_witness :
  (GetUnfixedCvesRedhat "8" "openssl" true
     (InsertRedhat ConvertRedhat 0 [openssl] fresh).2).1 !! "CVE-2023-0003"
  = Some {| Name := "CVE-2023-0003";
            PackageState :=
              [ {| Cpe := "cpe:/o:redhat:enterprise_linux:8";
                   RedhatPackageName := "openssl"; FixState := "Affected" |} ] |}.
Proof.
  refine (insert_then_unfixed_redhat ConvertRedhat 0 [openssl] [openssl] fresh _
    openssl "8" "openssl" true _ _ _ _ _).
  - vm_compute. split; discriminate.
  - reflexivity.
  - vm_compute. reflexivity.
  - vm_compute. reflexivity.
  - vm_compute. reflexivity.
Defined.

Lemma insert_then_filtered_debian_witness :
  (getCvesDebianWithFixStatus debVerCodename "12" "bash" "open" loaded).1
    !! "CVE-2023-0001"
  = Some {| DebianCveID := "CVE-2023-0001";
            Package :=
              [ {| DebianPackageName := "bash";
                   Release := [ {| ProductName := "bookworm";
                                   DebianStatus := "open" |} ] |} ] |}.
Proof.
  refine (insert_then_filtered_debian debVerCodename ConvertDebian 0 [bash; tar] fresh
    loaded bash "12" "bookworm" "bash" "open" _ _ _ _ _).
  - vm_compute. split; discriminate.
  - vm_compute. reflexivity.
  - vm_compute. reflexivity.
  - vm_compute. reflexivity.
  - vm_compute. reflexivity.
Defined.

Lemma insert_then_filtered_ubuntu_witness :
  (getCvesUbuntuWithFixStatus ubuntuVerCodename "2004" "curl" ["needed"]
     (InsertUbuntu ConvertUbuntu 60 [curl] fresh).2).1 !! "CVE-2023-0004"
  = Some {| Candidate := "CVE-2023-0004";
            Patches :=
              [ {| UbuntuPackageName := "curl";
                   ReleasePatches := [ {| ReleaseName := "focal";
                                          UbuntuStatus := "needed" |} ] |} ] |}.
Proof.
  refine (insert_then_filtered_ubuntu ubuntuVerCodename ConvertUbuntu 60 [curl] fresh _
    curl "2004" "focal" "curl" ["needed"] _ _ _ _ _ _).
  - vm_compute. split; discriminate.
  - vm_compute. reflexivity.
  - vm_compute. reflexivity.
  - vm_compute. reflexivity.
  - vm_compute. reflexivity.
  - apply NoDup_singleton.
Defined.

Lemma multi_get_pointwise_witness :
  (∃ m, (GetRedhatMulti ["CVE-2023-0003"; "CVE-2023-0404"]
           (InsertRedhat ConvertRedhat 0 [openssl] fresh).2).1 = Some m ∧
        m !! "CVE-2023-0003" = Some openssl ∧ m !! "CVE-2023-0404" = Some zeroRedhatCVE ∧
        m !! "CVE-2023-0001" = None) ∧
  (GetRedhatMulti ["CVE-2023-0001"; "CVE-2023-0003"] clash).1 = None ∧
  (GetMicrosoftMulti ["CVE-2023-0003"] clash).1 = None.
Proof.
  split; [|split].
  - destruct (proj1 (multi_get_pointwise ["CVE-2023-0003"; "CVE-2023-0404"]
      (InsertRedhat ConvertRedhat 0 [openssl] fresh).2)) as (m & Hm & Hat).
    + intros cveID [->|[->|[]%elem_of_nil]%elem_of_cons]%elem_of_cons;
        vm_compute; by eexists.
    + exists m. split; [done|].
      rewrite (Hat "CVE-2023-0003"), (Hat "CVE-2023-0404"), (Hat "CVE-2023-0001").
      vm_compute. clear Hm Hat. split; [reflexivity|]. split; reflexivity.
  - refine (proj1 (proj2 (multi_get_pointwise ["CVE-2023-0001"; "CVE-2023-0003"] clash))
      "CVE-2023-0003" _ _).
    + right. left.
    + vm_compute. reflexivity.
  - refine (proj2 (proj2 (proj2 (multi_get_pointwise ["CVE-2023-0003"] clash)))
      "CVE-2023-0003" _ _).
    + left.
    + vm_compute. reflexivity.
Defined.

Lemma insert_retention_in_range_witness :
  0 ≤ 60 ≤ GoInt.max_expire ∧
  retained_with (Some 60) fresh (InsertUbuntu ConvertUbuntu 60 [curl] fresh).2 ∧
  retained_with None fresh (InsertDebian ConvertDebian 0 [bash; tar] fresh).2.
Proof.
  split; [vm_compute; split; discriminate|]. split.
  - refine (proj1 (proj2 (proj2 (insert_retention_in_range
      ConvertRedhat ConvertDebian ConvertUbuntu ConvertMicrosoft 60 fresh _))) [curl]).
    vm_compute. split; discriminate.
  - refine (proj1 (proj2 (insert_retention_in_range
      ConvertRedhat ConvertDebian ConvertUbuntu ConvertMicrosoft 0 fresh _)) [bash; tar]).
    vm_compute. split; discriminate.
Defined.

Lemma ubuntu_microsoft_abort_without_rollback_witness :
  InsertUbuntu ConvertUbuntu 0 [oddUbuntu; curl; curl] fresh
  = (Some (ExecFailed WrongType),
     run_batches [queueUbuntu 0 oddUbuntu (braces "U#curl");
                  queueUbuntu 0 curl (braces "CVE-2023-0004")] fresh) ∧
  is_Some (hfield (db (InsertUbuntu ConvertUbuntu 0 [oddUbuntu; curl; curl] fresh).2)
             (hashKeyPrefix +:+ "U#curl") "Ubuntu") ∧
  InsertMicrosoft ConvertMicrosoft 0 [rdp; rdp] [windows] clashMicrosoft
  = (Some (ExecFailed WrongType),
     run_batches [queueProducts 0 [windows]; queueMicrosoft 0 rdp (braces "CVE-2023-0005")]
       clashMicrosoft).
Proof.
  assert (0 ≤ 0 ≤ GoInt.max_expire) as H0 by (vm_compute; split; discriminate).
  pose proof (ubuntu_microsoft_abort_without_rollback ConvertUbuntu ConvertMicrosoft 0)
    as (_ & HU & _ & HM).
  destruct (HU [oddUbuntu; curl; curl] [oddUbuntu] curl [curl] (braces "CVE-2023-0004")
    WrongType fresh) as ((HU1 & HU2) & HU3).
  { reflexivity. }
  { repeat constructor. by eexists. }
  { reflexivity. }
  { vm_compute. reflexivity. }
  { vm_compute. reflexivity. }
  destruct (HM [rdp; rdp] [windows] [] rdp [rdp] (braces "CVE-2023-0005")
    WrongType clashMicrosoft) as ((HM1 & HM2) & HM3).
  { vm_compute. reflexivity. }
  { reflexivity. }
  { constructor. }
  { reflexivity. }
  { vm_compute. reflexivity. }
  { vm_compute. reflexivity. }
  split; [|split].
  - exact HU1.
  - apply (HU3 H0 oddUbuntu). left.
  - exact HM1.
Defined.

Lemma insert_stops_at_marshal_error_witness :
  InsertRedhat (λ _ : list RedhatCVE, None) 0 [openssl] fresh
  = (Some ConvertFailed, fresh) ∧
  InsertDebian (JSON1 := strictDebianJSON) ConvertDebian 0 [bash; odd; tar] fresh
  = (Some MarshalFailed,
     run_batches [queueDebian 0 bash (braces "CVE-2023-0001")] fresh).
Proof.
  split.
  - refine (proj1 (insert_stops_at_marshal_error
      (λ _ : list RedhatCVE, None) ConvertDebian ConvertUbuntu 0) [openssl] fresh _).
    reflexivity.
  - refine (proj1 (proj1 (proj2 (proj2 (@insert_stops_at_marshal_error
      redhatJSON strictDebianJSON ubuntuJSON _ _ _
      ConvertRedhat ConvertDebian ConvertUbuntu 0)))
      [bash; odd; tar] [bash] odd [tar] fresh _ _ _ _)).
    + reflexivity.
    + repeat constructor. by eexists.
    + vm_compute. reflexivity.
    + vm_compute. reflexivity.
Defined.

Lemma insert_keeps_schema_witness :
  well_typed (db fresh) ∧
  (InsertDebian ConvertDebian 0 [bash; tar] fresh).1 = None ∧
  well_typed (db loaded) ∧
  well_typed (db (InsertMicrosoft ConvertMicrosoft 60 [rdp] [windows] fresh).2).
Proof.
  pose proof (insert_keeps_schema ConvertRedhat ConvertDebian ConvertUbuntu
    ConvertMicrosoft 0 fresh well_typed_empty) as (_ & HD & _ & _).
  pose proof (insert_keeps_schema ConvertRedhat ConvertDebian ConvertUbuntu
    ConvertMicrosoft 60 fresh well_typed_empty) as (_ & _ & _ & HM).
  destruct (HD [bash; tar]) as [HD1 HD2].
  { repeat constructor; try (by eexists); apply (cve_id_plain "2023-0001")
      || apply (cve_id_plain "2023-0002"). }
  destruct (HM [rdp] [windows]) as [HM1 HM2].
  { repeat constructor; try (by eexists). apply (cve_id_plain "2023-0005"). }
  split; [apply well_typed_empty|]. split; [exact HD1|]. split; [exact HD2 | exact HM2].
Defined.

Lemma insert_leaves_other_readers_witness :
  plain "CVE-2023-0001" ∧
  (GetDebian "CVE-2023-0001" (InsertRedhat ConvertRedhat 0 [shared] loaded).2).1
  = Some bash ∧
  hfield (db (InsertRedhat ConvertRedhat 0 [shared] loaded).2)
    (hashKeyPrefix +:+ "CVE-2023-0001") "RedHat" = Some (braces "CVE-2023-0001").
Proof.
  split; [apply (cve_id_plain "2023-0001")|]. split.
  - assert (0 ≤ 0 ≤ GoInt.max_expire) as H0 by (vm_compute; split; discriminate).
    pose proof (insert_leaves_other_readers ConvertRedhat ConvertDebian ConvertUbuntu
      ConvertMicrosoft 0 loaded "CVE-2023-0001" H0 (cve_id_plain "2023-0001"))
      as (HR & _).
    destruct (HR [shared]) as (HD & _). rewrite HD. vm_compute. reflexivity.
  - vm_compute. reflexivity.
Defined.

Lemma insert_again_changes_nothing_witness :
  (InsertDebian ConvertDebian 60 [bash; tar] loaded).1 = None ∧
  (InsertDebian ConvertDebian 0 [bash; tar] loaded).1 = None ∧
  db (InsertDebian ConvertDebian 0 [bash; tar] loaded).2 = db loaded ∧
  db (InsertMicrosoft ConvertMicrosoft 60 [rdp] [windows]
        (InsertMicrosoft ConvertMicrosoft 60 [rdp] [windows] fresh).2).2
  = db (InsertMicrosoft ConvertMicrosoft 60 [rdp] [windows] fresh).2.
Proof.
  pose proof (insert_again_changes_nothing ConvertRedhat ConvertDebian ConvertUbuntu
    ConvertMicrosoft 0) as (_ & HD & _ & _).
  pose proof (insert_again_changes_nothing ConvertRedhat ConvertDebian ConvertUbuntu
    ConvertMicrosoft 60) as (_ & _ & _ & HM).
  destruct (HD [bash; tar] fresh loaded) as [HD1 HD2].
  { vm_compute. reflexivity. }
  destruct (HM [rdp] [windows] fresh
    (InsertMicrosoft ConvertMicrosoft 60 [rdp] [windows] fresh).2) as [_ HM2].
  { vm_compute. reflexivity. }
  split; [vm_compute; reflexivity|]. split; [exact HD1|]. split; [exact HD2 | exact HM2].
Defined.

Lemma insert_removes_only_when_wrapped_witness :
  ¬ wraps 60 ∧ wraps 9223372037 ∧
  is_Some (hfield (db (InsertRedhat ConvertRedhat 60 [shared] loaded).2)
             (hashKeyPrefix +:+ "CVE-2023-0001") "Debian") ∧
  db (InsertRedhat ConvertRedhat 9223372037 [shared] loaded).2 !! "CVE#CVE-2023-0001"
  = None.
Proof.
  assert (¬ wraps 60) as H60 by (intros [_ Hle]; vm_compute in Hle; by apply Hle).
  assert (wraps 9223372037) as Hw by (split; [done|]; vm_compute; discriminate).
  split; [done|]. split; [done|].
  destruct (insert_removes_only_when_wrapped ConvertRedhat ConvertDebian ConvertUbuntu
    ConvertMicrosoft 60 loaded) as [Hkeep _].
  destruct (insert_removes_only_when_wrapped ConvertRedhat ConvertDebian ConvertUbuntu
    ConvertMicrosoft 9223372037 loaded) as [_ Hgone].
  destruct (Hkeep H60) as (HR & _). destruct (Hgone Hw) as (HR' & _).
  split.
  - destruct (HR [shared]) as (_ & Hf & _). apply Hf. vm_compute. by eexists.
  - destruct (HR' [shared]) as (bs & Hsent & Hnone).
    apply (Hnone [ HSet "CVE#CVE-2023-0001" "RedHat" "{CVE-2023-0001}";
                   Expire "CVE#CVE-2023-0001" (-9223372036709551616) ]
             (HSet "CVE#CVE-2023-0001" "RedHat" "{CVE-2023-0001}")); [|left].
    assert (sent (InsertRedhat ConvertRedhat 9223372037 [shared] loaded).2
      = sent loaded
        ++ [[ HSet "CVE#CVE-2023-0001" "RedHat" "{CVE-2023-0001}";
              Expire "CVE#CVE-2023-0001" (-9223372036709551616) ]]) as Hs
      by (vm_compute; reflexivity).
    rewrite Hs in Hsent. apply app_inv_head in Hsent. subst bs. left.
Defined.
